(** * hdhomerun_proxy_go: the tunnel codec and the two relays

    A shallow embedding of the Go sources (the message codec of the
    constants file, [app_proxy.go] and [tuner_proxy.go]) and the
    properties of the specification that were checked against it.

    Conventions.
    - A Go [byte] is a [Byte.byte]; a Go [int] is a [Z] with the 64-bit
      wrap-around written where the source computes with it.
    - A Go slice is a [slice]: the identity of its backing array and the
      bytes it shows.  Two slices alias when they share the array.
    - A function with effects returns the events it performs, in order, next
      to its result; what the outside world answers (a dial that fails, the
      datagrams a socket receives) is an argument. *)

From Stdlib Require Import String Ascii.
From Stdlib Require Import ZArith List Lia Bool Arith.
From Stdlib Require Import Strings.Byte.
Import ListNotations.

Local Open Scope Z_scope.

(** ** Part I: definitions *)

(** *** The Go runtime and the packages the sources call *)
Module Go.

Definition byte_to_Z (b : byte) : Z := Z.of_N (Byte.to_N b).

(** The conversion [byte(v)]: the low eight bits. *)
Definition Z_to_byte (z : Z) : byte :=
  match Byte.of_N (Z.to_N (z mod 256)) with
  | Some b => b
  | None => x00
  end.

(** The conversion [uint16(v)]. *)
Definition uint16 (z : Z) : Z := z mod 65536.

(** A signed 64-bit [int] after an operation that may overflow. *)
Definition wrap_int (z : Z) : Z := (z + 2 ^ 63) mod 2 ^ 64 - 2 ^ 63.

(** [x << s] on [int]; the count is not negative in any state the codec
    reaches (a negative count panics in Go). *)
Definition shl_int (x s : Z) : Z := wrap_int (Z.shiftl x s).

(** [binary.BigEndian.PutUint16]: [b[0] = byte(v >> 8); b[1] = byte(v)]. *)
Definition PutUint16 (v : Z) : list byte :=
  [Z_to_byte (Z.shiftr v 8); Z_to_byte v].

(** [binary.BigEndian.Uint16]: [uint16(b[1]) | uint16(b[0])<<8]; the
    slice has two bytes at every call of the sources. *)
Definition Uint16 (b : list byte) : Z :=
  match b with
  | b0 :: b1 :: _ =>
      Z.lor (byte_to_Z b1) (uint16 (Z.shiftl (byte_to_Z b0) 8))
  | _ => 0
  end.

(** The identity of a backing array: arrays are numbered as they are
    allocated, and [Heap] is the number of arrays allocated so far. *)
Definition ArrayId := nat.
Definition Heap := nat.

Record slice : Type := mkSlice { arr : ArrayId; elems : list byte }.

(** [make([]byte, n)]: a new zeroed array. *)
Definition make (h : Heap) (n : nat) : Heap * slice :=
  (S h, mkSlice h (repeat x00 n)).

(** [copy(dst, src)] on the bytes: [min(len(dst), len(src))] bytes. *)
Definition copy (dst src : list byte) : list byte :=
  let n := Nat.min (length dst) (length src) in
  firstn n src ++ skipn n dst.

(** [copy(dst[lo:hi], src)] seen from [dst]. *)
Definition copy_at (dst : list byte) (lo hi : nat) (src : list byte)
  : list byte :=
  firstn lo dst ++ copy (firstn (hi - lo) (skipn lo dst)) src
    ++ skipn hi dst.

(** [bytes.Buffer], as far as the codec uses it: it is only written,
    reset and looked at, so its read offset stays 0.  [buf_arr] is [None]
    for the nil slice of the zero Buffer. *)
Record Buffer : Type := mkBuffer {
  buf_arr : option ArrayId;
  buf_cap : nat;
  buf_data : list byte
}.

Definition emptyBuffer : Buffer := mkBuffer None 0 [].

Definition smallBufferSize : nat := 64.

(** [Buffer.Write]: the bytes are appended in place when the capacity
    allows ([tryGrowByReslice]); otherwise [grow] takes a new array, of
    capacity 64 for the first small write of a nil Buffer and, through
    [growSlice], of the larger of the length needed and twice the old
    capacity after that. *)
Definition Write (h : Heap) (b : Buffer) (p : list byte) : Heap * Buffer :=
  let l := length (buf_data b) in
  let n := length p in
  if (n <=? buf_cap b - l)%nat then
    (h, mkBuffer (buf_arr b) (buf_cap b) (buf_data b ++ p))
  else
    match buf_arr b with
    | None =>
        if (n <=? smallBufferSize)%nat
        then (S h, mkBuffer (Some h) smallBufferSize (buf_data b ++ p))
        else (S h, mkBuffer (Some h) (Nat.max (l + n) (2 * buf_cap b))
                     (buf_data b ++ p))
    | Some _ =>
        (S h, mkBuffer (Some h) (Nat.max (l + n) (2 * buf_cap b))
                (buf_data b ++ p))
    end.

(** [Buffer.Bytes]: a slice of the Buffer's own array. *)
Definition Bytes (b : Buffer) : list byte := buf_data b.

(** [Buffer.Reset]: the length goes to 0, the array stays. *)
Definition Reset (b : Buffer) : Buffer :=
  mkBuffer (buf_arr b) (buf_cap b) [].

End Go.

(** *** The message codec *)
Module Codec.
Import Go.

Record MessageCodec : Type := mkCodec {
  msgBuffer : Buffer;
  lengthBytesRemaining : Z;
  msgBytesRemaining : Z
}.

Definition NewMessageCodec : MessageCodec := mkCodec emptyBuffer 2 0.

(** [Encode]: [uint16(len(data))] big-endian, then the data. *)
Definition Encode (data : list byte) : list byte :=
  PutUint16 (uint16 (Z.of_nat (length data))) ++ data.

(** The inner loop of [Decode] that reads the length bytes, on the bytes
    [data[i:]] still to read.  The last component tells that the chunk
    ended inside the header, where [Decode] returns. *)
Fixpoint read_length (data : list byte) (lbr mbr : Z) {struct data}
  : Z * Z * list byte * bool :=
  if 0 <? lbr then
    match data with
    | [] => (lbr, mbr, [], true)
    | b :: rest =>
        let lbr' := wrap_int (lbr - 1) in
        read_length rest lbr'
          (Z.lor mbr (shl_int (byte_to_Z b) (wrap_int (lbr' * 8))))
    end
  else (lbr, mbr, data, false).

(** What one turn of the outer loop of [Decode] comes to: it returns, or
    it has a complete message, which it hands to the callback before the
    next turn. *)
Inductive Turn : Type :=
| Return (h : Heap) (mc : MessageCodec)
| Complete (h : Heap) (mc : MessageCodec) (rest : list byte)
           (msgCopy : slice).

(** The end of a turn: copy the message, reset the state. *)
Definition complete (h : Heap) (buf : Buffer) (rest : list byte) : Turn :=
  let message := Bytes buf in
  let '(h1, fresh) := make h (length message) in
  let msgCopy := mkSlice (arr fresh) (copy (elems fresh) message) in
  Complete h1 (mkCodec (Reset buf) 2 0) rest msgCopy.

(** The block [if mc.msgBytesRemaining > 0 { ... }] and what follows it. *)
Definition fill (h : Heap) (buf : Buffer) (lbr mbr : Z) (rest : list byte)
  : Turn :=
  if 0 <? mbr then
    let remaining := length rest in
    if (remaining =? 0)%nat then Return h (mkCodec buf lbr mbr)
    else
      let readLen :=
        if Z.of_nat remaining >? mbr then Z.to_nat mbr else remaining in
      let '(h1, buf1) := Write h buf (firstn readLen rest) in
      let mbr1 := wrap_int (mbr - Z.of_nat readLen) in
      let rest1 := skipn readLen rest in
      if 0 <? mbr1 then Return h1 (mkCodec buf1 lbr mbr1)
      else complete h1 buf1 rest1
  else complete h buf rest.

Definition turn (h : Heap) (mc : MessageCodec) (data : list byte) : Turn :=
  let '(lbr, mbr, rest, short) :=
    read_length data (lengthBytesRemaining mc) (msgBytesRemaining mc) in
  if short then Return h (mkCodec (msgBuffer mc) lbr mbr)
  else fill h (msgBuffer mc) lbr mbr rest.

(** The outer loop.  [out] collects the slices the callback was called
    with, in order. *)
Fixpoint Decode_loop (fuel : nat) (h : Heap) (mc : MessageCodec)
    (data : list byte) (out : list slice)
  : option (Heap * MessageCodec * list slice) :=
  match fuel with
  | O => None
  | S fuel' =>
      match turn h mc data with
      | Return h1 mc1 => Some (h1, mc1, out)
      | Complete h1 mc1 rest msgCopy =>
          Decode_loop fuel' h1 mc1 rest (out ++ [msgCopy])
      end
  end.

(** [Decode(data, callback)].  Every turn after the first reads the two
    length bytes or returns, so the loop makes at most [len(data) + 2]
    turns. *)
Definition Decode (h : Heap) (mc : MessageCodec) (data : slice)
  : option (Heap * MessageCodec * list slice) :=
  Decode_loop (S (S (length (elems data)))) h mc (elems data) [].

(** A stream that arrives in several reads: [Decode] on each chunk in
    turn, with the state of the codec kept between the calls. *)
Fixpoint feed (h : Heap) (mc : MessageCodec) (chunks : list slice)
  : option (Heap * MessageCodec * list slice) :=
  match chunks with
  | [] => Some (h, mc, [])
  | c :: cs =>
      match Decode h mc c with
      | None => None
      | Some (h1, mc1, out1) =>
          match feed h1 mc1 cs with
          | None => None
          | Some (h2, mc2, out2) => Some (h2, mc2, out1 ++ out2)
          end
      end
  end.

End Codec.

(** *** The network as the relays see it *)
Module Net.
Import Go.

(** The constants of the sources. *)
Definition HDHomeRunDiscoveryUDPPort : Z := 65001.
Definition TCPPort : Z := HDHomeRunDiscoveryUDPPort.
Definition UDPReadTimeout : Z := 500.
Definition UDPReadBufferSize : nat := 4096.

(** [net.IP]: a byte slice, of 4 bytes or of 16. *)
Definition IP := list byte.

Definition v4InV6Prefix : list byte := repeat x00 10 ++ [xff; xff].

(** [net.IPv4(a, b, c, d)]: the 16-byte form of the address. *)
Definition IPv4 (a b c d : byte) : IP := v4InV6Prefix ++ [a; b; c; d].

Definition isZeros (p : list byte) : bool :=
  forallb (fun b => Byte.eqb b x00) p.

(** [IP.To4]: the 4 bytes of an IPv4 address in either form, nil (no
    bytes) for anything else. *)
Definition To4 (ip : IP) : list byte :=
  if (length ip =? 4)%nat then ip
  else if (length ip =? 16)%nat && isZeros (firstn 10 ip)
          && Byte.eqb (nth 10 ip x00) xff && Byte.eqb (nth 11 ip x00) xff
  then firstn 4 (skipn 12 ip)
  else [].

Record UDPAddr : Type := mkUDPAddr { addrIP : IP; Port : Z }.

(** "255.255.255.255:65001" *)
Definition broadcastAddr : UDPAddr :=
  mkUDPAddr [xff; xff; xff; xff] HDHomeRunDiscoveryUDPPort.

(** Connections and sockets are known by a number the system gives them
    when they are made. *)
Definition Conn := nat.
Definition Sock := nat.

(** The error values of package [net] that the relays look into. *)
Inductive error : Type :=
| DNSError (Err Name Server : string)
| OpError (Op Net : string) (Source Addr : option string) (Err : error)
| OtherError (msg : string).

(** The [Error] methods: [DNSError] prints
    ["lookup " + Name + (" on " + Server)? + ": " + Err], [OpError] prints
    its fields and then the error it wraps. *)
Fixpoint Error (e : error) : string :=
  match e with
  | DNSError err name server =>
      String.append "lookup "
        (String.append name
           (String.append
              (if String.eqb server "" then ""%string
               else String.append " on " server)
              (String.append ": " err)))
  | OpError op net source addr err =>
      String.append op
        (String.append
           (if String.eqb net "" then ""%string
            else String.append " " net)
           (String.append
              (match source with
               | Some s => String.append " " s
               | None => ""%string
               end)
              (String.append
                 (match addr, source with
                  | Some a, Some _ => String.append "->" a
                  | Some a, None => String.append " " a
                  | None, _ => ""%string
                  end)
                 (String.append ": " (Error err)))))
  | OtherError msg => msg
  end.

(** What [net.Dial("tcp", host:port)] returns when the resolver knows no
    address for [host]: the resolver's [DNSError], whose [Err] is
    "no such host", wrapped in the [OpError] of the dial.  [server] is the
    name server that answered, empty when none is recorded. *)
Definition dial_no_such_host (host server : string) : error :=
  OpError "dial" "tcp" None None (DNSError "no such host" host server).

Inductive DialResult : Type :=
| Dialed (c : Conn)
| DialFailed (e : error).

(** How a read with a deadline ends when no more datagrams come. *)
Inductive ReadEnd : Type := Timeout | ReadFailed.

Inductive Level : Type := LDebug | LInfo | LWarn | LError.

(** A goroutine the relays start. *)
Inductive Task : Type :=
| QueryTask (queryData sourceAddr : list byte) (sourcePort : Z)
| ReadLoop (c : Conn).

(** What the relays do, in the order they do it.  [Lock] and [Unlock] are
    on [tcpMutex]; [Load] and [Store] are on the field [tcpTransport]. *)
Inductive Event : Type :=
| Lock
| Unlock
| Load (v : option Conn)
| Store (v : option Conn)
| TCPDial (host : string) (port : Z)
| TCPRead (c : Conn)
| TCPWrite (c : Conn) (data : list byte)
| TCPClose (c : Conn)
| UDPDial (s : Sock) (raddr : UDPAddr)
| UDPListen (s : Sock)
| UDPDeadline (s : Sock) (ms : Z)
| UDPRead (s : Sock)
| UDPWrite (s : Sock) (data : list byte)
| UDPClose (s : Sock)
| Callback (data : list byte)
| Go (t : Task)
| Log (l : Level) (msg : string)
| Exit (code : Z).

(** [ReadFromUDP(buf)]: the first [len(buf)] bytes of the datagram over
    the start of [buf]. *)
Definition read_into (buf datagram : list byte) : list byte :=
  copy buf datagram.

(** [l[lo:hi]]; [None] is the run-time panic of a slice out of range. *)
Definition sub (l : list byte) (lo hi : nat) : option (list byte) :=
  if (lo <=? hi)%nat && (hi <=? length l)%nat
  then Some (firstn (hi - lo) (skipn lo l))
  else None.

End Net.

(** *** The Envelope *)
Module Envelope.
Import Go Net.

(** "Package into a message with source address and port" (the Client-Side
    Relay) and "Pack up the reply" (the App-Side Relay): the same four
    statements in both. *)
Definition pack (addr : list byte) (port : Z) (data : list byte)
  : list byte :=
  let msg := repeat x00 (6 + length data) in
  let msg := copy_at msg 0 4 addr in
  let msg := copy_at msg 4 6 (PutUint16 port) in
  copy_at msg 6 (length msg) data.

(** "Unpack the message": [msg[0:4]], [Uint16(msg[4:6])], [msg[6:]]. *)
Definition unpack (msg : list byte) : option (list byte * Z * list byte) :=
  match sub msg 0 4, sub msg 4 6, sub msg 6 (length msg) with
  | Some sourceAddr, Some p, Some data =>
      Some (sourceAddr, Uint16 p, data)
  | _, _, _ => None
  end.

End Envelope.

(** *** The App-Side Relay, tunnel mode *)
Module App.
Import Go Net Envelope.

(** The field the goroutines share; the [codec] field is used for
    [Encode] only, which has no state. *)
Record AppProxy : Type := mkAppProxy { tcpTransport : option Conn }.

Definition NewAppProxy : AppProxy := mkAppProxy None.

(** What the outside answers to one query task: which calls succeed, and
    for every socket the datagrams that reach it before the deadline and
    how the last read ends. *)
Record World : Type := mkWorld {
  resolve_ok : bool;
  dial_ok : bool;
  write_ok : bool;
  resolve_listen_ok : bool;
  listen_ok : bool;
  inbox : Sock -> list (list byte) * ReadEnd;
  tcp_write_ok : Conn -> list byte -> bool
}.

(** [handleTunerProxyConnection], up to its loop. *)
Definition handleTunerProxyConnection_start (ap : AppProxy) (conn : Conn)
  : AppProxy * list Event :=
  (mkAppProxy (Some conn),
   [Log LInfo "Tuner proxy connected"; Lock; Store (Some conn); Unlock]).

(** [handleTunerProxyConnection], a read that fails. *)
Definition handleTunerProxyConnection_read_error (ap : AppProxy)
    (conn : Conn) : AppProxy * list Event :=
  (mkAppProxy None,
   [TCPRead conn; Log LInfo "Tuner proxy disconnected";
    Lock; Store None; Unlock; TCPClose conn]).

(** [onReceivedMessage]; [None] is a run-time panic. *)
Definition onReceivedMessage (msg : list byte) : option (list Event) :=
  if (length msg <? 6)%nat then
    Some [Log LWarn "Invalid message: too short"]
  else
    match unpack msg with
    | Some (sourceAddr, sourcePort, queryData) =>
        Some [Go (QueryTask queryData sourceAddr sourcePort)]
    | None => None
    end.

(** The loop of [queryTuner] that reads the responses into [buf]. *)
Fixpoint read_responses (listener : Sock) (buf : list byte)
    (datagrams : list (list byte)) (last : ReadEnd) : list Event :=
  match datagrams with
  | [] =>
      UDPRead listener ::
      match last with
      | Timeout => []
      | ReadFailed => [Log LError "Error reading UDP response"]
      end
  | d :: ds =>
      let n := Nat.min (length buf) (length d) in
      let buf1 := read_into buf d in
      UDPRead listener ::
      (if (0 <? n)%nat
       then [Log LDebug "Reply received from tuner";
             Callback (firstn n buf1)]
       else [])
      ++ read_responses listener buf1 ds last
  end.

(** The goroutine of [queryTuner]; [s] is the number the next new socket
    gets. *)
Definition queryTuner (w : World) (s : Sock) (queryData : list byte)
  : list Event :=
  if negb (resolve_ok w) then [Log LError "Error resolving address"]
  else if negb (dial_ok w) then [Log LError "Error creating UDP connection"]
  else
    let conn := s in
    UDPDial conn broadcastAddr :: UDPWrite conn queryData ::
    if negb (write_ok w) then
      [Log LError "Error sending query"; UDPClose conn]
    else if negb (resolve_listen_ok w) then
      [Log LError "Error resolving listen address"; UDPClose conn]
    else if negb (listen_ok w) then
      [Log LError "Error creating UDP listener"; UDPClose conn]
    else
      let listener := S s in
      UDPListen listener :: UDPDeadline listener UDPReadTimeout ::
      read_responses listener (repeat x00 UDPReadBufferSize)
        (fst (inbox w listener)) (snd (inbox w listener))
      ++ [UDPClose listener; UDPClose conn].

(** [reply]. *)
Definition reply (w : World) (ap : AppProxy)
    (sourceAddr : list byte) (sourcePort : Z) (replyData : list byte)
  : AppProxy * list Event :=
  match tcpTransport ap with
  | None => (ap, [Lock; Load None; Unlock])
  | Some c =>
      let replyMsg := pack sourceAddr sourcePort replyData in
      let encoded := Codec.Encode replyMsg in
      if tcp_write_ok w c encoded then
        (ap, [Lock; Load (Some c); TCPWrite c encoded; Unlock])
      else
        (mkAppProxy None,
         [Lock; Load (Some c); TCPWrite c encoded;
          Log LError "Error sending reply"; Store None; Unlock])
  end.

(** A query task run to its end: every [Callback] is the closure of
    [onReceivedMessage], which calls [reply] with the address and port of
    the message that started the task. *)
Fixpoint run_task (w : World) (ap : AppProxy)
    (sourceAddr : list byte) (sourcePort : Z) (task : list Event)
  : AppProxy * list Event :=
  match task with
  | [] => (ap, [])
  | Callback replyData :: rest =>
      let '(ap1, ev1) := reply w ap sourceAddr sourcePort replyData in
      let '(ap2, ev2) := run_task w ap1 sourceAddr sourcePort rest in
      (ap2, ev1 ++ ev2)
  | e :: rest =>
      let '(ap2, ev2) := run_task w ap sourceAddr sourcePort rest in
      (ap2, e :: ev2)
  end.

(** One message from the tunnel and the tasks it starts, run to their
    end. *)
Fixpoint run_started (w : World) (s : Sock) (ap : AppProxy)
    (started : list Event) : AppProxy * list Event :=
  match started with
  | [] => (ap, [])
  | Go (QueryTask queryData sourceAddr sourcePort) :: rest =>
      let '(ap1, ev1) :=
        run_task w ap sourceAddr sourcePort (queryTuner w s queryData) in
      let '(ap2, ev2) := run_started w (S (S s)) ap1 rest in
      (ap2, ev1 ++ ev2)
  | e :: rest =>
      let '(ap2, ev2) := run_started w s ap rest in
      (ap2, e :: ev2)
  end.

Definition exchange (w : World) (s : Sock) (ap : AppProxy)
    (msg : list byte) : option (AppProxy * list Event) :=
  match onReceivedMessage msg with
  | Some started => Some (run_started w s ap started)
  | None => None
  end.

(** The relay as a whole: connections are accepted, their reads fail, and
    replies are written, in any order. *)
Inductive Input : Type :=
| Accept (conn : Conn)
| ReadError (conn : Conn)
| Reply (sourceAddr : list byte) (sourcePort : Z) (replyData : list byte).

(** The relay's field and the connections whose read loop is running. *)
Record System : Type := mkSystem {
  proxy : AppProxy;
  reading : list Conn
}.

Definition step (w : World) (sys : System) (i : Input)
  : System * list Event :=
  match i with
  | Accept conn =>
      let '(ap, ev) := handleTunerProxyConnection_start (proxy sys) conn in
      (mkSystem ap (conn :: reading sys), ev)
  | ReadError conn =>
      let '(ap, ev) :=
        handleTunerProxyConnection_read_error (proxy sys) conn in
      (mkSystem ap (filter (fun c => negb (c =? conn)%nat) (reading sys)),
       ev)
  | Reply sourceAddr sourcePort replyData =>
      let '(ap, ev) := reply w (proxy sys) sourceAddr sourcePort replyData in
      (mkSystem ap (reading sys), ev)
  end.

Definition nothing_accepted : System := mkSystem NewAppProxy [].

Fixpoint run (w : World) (sys : System) (inputs : list Input)
  : System * list Event :=
  match inputs with
  | [] => (sys, [])
  | i :: rest =>
      let '(sys1, ev1) := step w sys i in
      let '(sys2, ev2) := run w sys1 rest in
      (sys2, ev1 ++ ev2)
  end.

End App.

(** *** The Client-Side Relay, tunnel mode *)
Module Tuner.
Import Go Net Envelope.

Record TunerProxy : Type := mkTunerProxy { tcpTransport : option Conn }.

Definition NewTunerProxy : TunerProxy := mkTunerProxy None.

Definition getTCPTransport (tp : TunerProxy) : option Conn * list Event :=
  (tcpTransport tp, [Lock; Load (tcpTransport tp); Unlock]).

Definition setTCPTransport (tp : TunerProxy) (conn : Conn)
  : TunerProxy * list Event :=
  (mkTunerProxy (Some conn), [Lock; Store (Some conn); Unlock]).

Definition closeTCP (tp : TunerProxy) : TunerProxy * list Event :=
  match tcpTransport tp with
  | Some c =>
      (mkTunerProxy None,
       [Lock; Load (Some c); TCPClose c; Store None; Unlock])
  | None => (tp, [Lock; Load None; Unlock])
  end.

(** [connectToAppProxy]: the error of the dial, or the connection stored
    and its read loop started. *)
Definition connectToAppProxy (tp : TunerProxy) (appProxyHost : string)
    (r : DialResult) : TunerProxy * list Event * option error :=
  match r with
  | DialFailed err => (tp, [TCPDial appProxyHost TCPPort], Some err)
  | Dialed conn =>
      let '(tp1, ev1) := setTCPTransport tp conn in
      (tp1,
       TCPDial appProxyHost TCPPort :: ev1
         ++ [Log LInfo "Connected to app proxy"; Go (ReadLoop conn)],
       None)
  end.

(** The [case <-ticker.C] of [runTunerProxyMode]; an [Exit] among the
    events ends the process. *)
Definition tick (tp : TunerProxy) (appProxyHost : string) (r : DialResult)
  : TunerProxy * list Event :=
  let '(held, ev0) := getTCPTransport tp in
  match held with
  | Some _ => (tp, ev0)
  | None =>
      let '(tp1, ev1, err) := connectToAppProxy tp appProxyHost r in
      let ev := ev0 ++ Log LInfo "Connecting to app proxy" :: ev1 in
      match err with
      | None => (tp1, ev)
      | Some e =>
          (tp1,
           ev ++ Log LError "Failed to connect to app proxy" ::
           match e with
           | OpError _ _ _ _ inner =>
               if String.eqb (Error inner) "no such host"
               then [Log LError "Unknown host"; Exit 1]
               else []
           | _ => []
           end)
      end
  end.

(** The loop of the goroutine [connectToAppProxy] starts, when its read
    fails. *)
Definition read_loop_error (tp : TunerProxy) (conn : Conn)
  : TunerProxy * list Event :=
  let '(tp1, ev1) := closeTCP tp in
  (tp1, TCPRead conn :: Log LInfo "Disconnected from app proxy" :: ev1).

(** The capture socket, the field [udpTransport]: the first socket the
    process makes. *)
Definition udpTransport : Sock := 0%nat.

(** A datagram the capture socket receives. *)
Record Datagram : Type := mkDatagram {
  payload : list byte;
  remoteAddr : UDPAddr
}.

(** [handleUDPBroadcasts], from [ReadFromUDP] to [codec.Encode]: the new
    contents of [buf], and the encoded message when there is one to
    send. *)
Definition capture (tp : TunerProxy) (buf : list byte) (dg : Datagram)
  : list byte * list Event * option (list byte) :=
  let n := Nat.min (length buf) (length (payload dg)) in
  let buf1 := read_into buf (payload dg) in
  let '(held, ev) := getTCPTransport tp in
  match held with
  | None => (buf1, UDPRead udpTransport :: ev, None)
  | Some _ =>
      if (0 <? n)%nat then
        let msgData :=
          pack (To4 (addrIP (remoteAddr dg)))
               (uint16 (Port (remoteAddr dg))) (firstn n buf1) in
        (buf1,
         UDPRead udpTransport :: ev ++ [Log LDebug "Request received from app"],
         Some (Codec.Encode msgData))
      else (buf1, UDPRead udpTransport :: ev, None)
  end.

(** [handleUDPBroadcasts], from the second [getTCPTransport] on. *)
Definition send (tp : TunerProxy) (write_ok : bool)
    (encodedMsg : list byte) : TunerProxy * list Event :=
  let '(tcpConn, ev) := getTCPTransport tp in
  match tcpConn with
  | None => (tp, ev)
  | Some c =>
      if write_ok then (tp, ev ++ [TCPWrite c encodedMsg])
      else
        let '(tp1, ev1) := closeTCP tp in
        (tp1,
         ev ++ TCPWrite c encodedMsg
           :: Log LError "Error sending to app proxy" :: ev1)
  end.

(** [onMessageReceivedFromAppProxy]; [s] is the number the new socket
    gets, [None] is a run-time panic. *)
Definition onMessageReceivedFromAppProxy (dial_ok write_ok : bool)
    (s : Sock) (msg : list byte) : option (list Event) :=
  if (length msg <? 6)%nat then
    Some [Log LWarn "Invalid message: too short"]
  else
    match unpack msg with
    | Some ([a; b; c; d], sourcePort, replyData) =>
        let addr := mkUDPAddr (IPv4 a b c d) sourcePort in
        Some
          (Log LDebug "Replying to app" ::
           if dial_ok then
             UDPDial s addr :: UDPWrite s replyData ::
             (if write_ok then [] else [Log LError "Error sending reply"])
             ++ [UDPClose s]
           else [Log LError "Error sending reply"])
    | _ => None
    end.

(** The relay as a whole.  The capture loop is between two datagrams, or
    it holds the encoded message it is about to send. *)
Record System : Type := mkSystem {
  proxy : TunerProxy;
  buf : list byte;
  pending : option (list byte)
}.

Definition start : System :=
  mkSystem NewTunerProxy (repeat x00 UDPReadBufferSize) None.

Inductive Input : Type :=
| Tick (r : DialResult)
| ReadError (conn : Conn)
| Captured (dg : Datagram)
| Send (write_ok : bool).

(** One step of one goroutine; [None] when the step is not the next one
    of its goroutine. *)
Definition step (host : string) (sys : System) (i : Input)
  : option (System * list Event) :=
  match i with
  | Tick r =>
      let '(tp, ev) := tick (proxy sys) host r in
      Some (mkSystem tp (buf sys) (pending sys), ev)
  | ReadError conn =>
      let '(tp, ev) := read_loop_error (proxy sys) conn in
      Some (mkSystem tp (buf sys) (pending sys), ev)
  | Captured dg =>
      match pending sys with
      | Some _ => None
      | None =>
          let '(buf1, ev, msg) := capture (proxy sys) (buf sys) dg in
          Some (mkSystem (proxy sys) buf1 msg, ev)
      end
  | Send write_ok =>
      match pending sys with
      | None => None
      | Some encodedMsg =>
          let '(tp, ev) := send (proxy sys) write_ok encodedMsg in
          Some (mkSystem tp (buf sys) None, ev)
      end
  end.

Fixpoint run (host : string) (sys : System) (inputs : list Input)
  : option (System * list Event) :=
  match inputs with
  | [] => Some (sys, [])
  | i :: rest =>
      match step host sys i with
      | None => None
      | Some (sys1, ev1) =>
          match run host sys1 rest with
          | None => None
          | Some (sys2, ev2) => Some (sys2, ev1 ++ ev2)
          end
      end
  end.

End Tuner.

(** *** Reading a run *)
Module Trace.
Import Net.

(** The writes to the tunnel among the events. *)
Fixpoint tunnel_writes (evs : list Event) : list (Conn * list byte) :=
  match evs with
  | [] => []
  | TCPWrite c data :: rest => (c, data) :: tunnel_writes rest
  | _ :: rest => tunnel_writes rest
  end.

(** The calls of the callback among the events. *)
Fixpoint callbacks (evs : list Event) : list (list byte) :=
  match evs with
  | [] => []
  | Callback data :: rest => data :: callbacks rest
  | _ :: rest => callbacks rest
  end.

(** The sockets a run writes to and reads from. *)
Fixpoint udp_writers (evs : list Event) : list Sock :=
  match evs with
  | [] => []
  | UDPWrite s _ :: rest => s :: udp_writers rest
  | _ :: rest => udp_writers rest
  end.

Fixpoint udp_readers (evs : list Event) : list Sock :=
  match evs with
  | [] => []
  | UDPRead s :: rest => s :: udp_readers rest
  | _ :: rest => udp_readers rest
  end.

(** An operation that can block: a dial, a read or a write. *)
Definition blocking (e : Event) : bool :=
  match e with
  | TCPDial _ _ | TCPRead _ | TCPWrite _ _
  | UDPDial _ _ | UDPRead _ | UDPWrite _ _ => true
  | _ => false
  end.

Definition access (e : Event) : bool :=
  match e with
  | Load _ | Store _ => true
  | _ => false
  end.

(** Every access to [tcpTransport] is made with the mutex held. *)
Fixpoint guarded (held : bool) (evs : list Event) : bool :=
  match evs with
  | [] => true
  | Lock :: rest => guarded true rest
  | Unlock :: rest => guarded false rest
  | e :: rest => (negb (access e) || held) && guarded held rest
  end.

(** Nothing but the access itself happens with the mutex held. *)
Fixpoint lock_for_access_only (held : bool) (evs : list Event) : bool :=
  match evs with
  | [] => true
  | Lock :: rest => lock_for_access_only true rest
  | Unlock :: rest => lock_for_access_only false rest
  | e :: rest => (negb held || access e) && lock_for_access_only held rest
  end.

(** No blocking operation happens with the mutex held. *)
Fixpoint no_blocking_under_lock (held : bool) (evs : list Event) : bool :=
  match evs with
  | [] => true
  | Lock :: rest => no_blocking_under_lock true rest
  | Unlock :: rest => no_blocking_under_lock false rest
  | e :: rest =>
      (negb held || negb (blocking e)) && no_blocking_under_lock held rest
  end.

(** The mutex is taken first, released last, and held all the way. *)
Definition held_throughout (evs : list Event) : bool :=
  match evs with
  | Lock :: rest =>
      match rev rest with
      | Unlock :: inner =>
          forallb (fun e => match e with
                            | Lock | Unlock => false
                            | _ => true
                            end) inner
      | _ => false
      end
  | _ => false
  end.

End Trace.

(** *** The words of the specification *)
Module Spec.
Import Go.

(** "a 2-byte unsigned big-endian length": most significant byte first. *)
Definition big_endian_u16 (n : Z) : list byte :=
  [Z_to_byte (n / 256); Z_to_byte (n mod 256)].

(** The number a run of bytes spells, most significant byte first. *)
Definition big_endian_value (bs : list byte) : Z :=
  fold_left (fun acc b => acc * 256 + byte_to_Z b) bs 0.

(** The scenario of the specification: the Envelope
    [(192.168.1.42, 54321, "QUERY")] and the response "ANSWER". *)
Definition origin_address : list byte := [xc0; xa8; x01; x2a].
Definition origin_port : Z := 54321.
Definition QUERY : list byte := list_byte_of_string "QUERY".
Definition ANSWER : list byte := list_byte_of_string "ANSWER".

End Spec.

(** *** Notions the statements use *)

Import Go Net.

(** The array of the Buffer, when there is one, was allocated before [h]. *)
Definition buf_ok (h : Heap) (b : Buffer) : Prop :=
  match buf_arr b with
  | Some a => (a < h)%nat
  | None => True
  end.

(** The state of the codec inside the frame [hi :: lo :: m], and the part of
    the frame it has not read. *)
Inductive frame_pos (m : list byte) (hi lo : byte)
  : Codec.MessageCodec -> list byte -> Prop :=
| pos_start (b : Buffer) :
    buf_data b = [] ->
    frame_pos m hi lo (Codec.mkCodec b 2 0) (hi :: lo :: m)
| pos_header (b : Buffer) :
    buf_data b = [] ->
    frame_pos m hi lo (Codec.mkCodec b 1 (byte_to_Z hi * 256)) (lo :: m)
| pos_body (b : Buffer) (j : nat) :
    (j < length m)%nat -> buf_data b = firstn j m ->
    frame_pos m hi lo
      (Codec.mkCodec b 0 (Z.of_nat (length m) - Z.of_nat j)) (skipn j m).

(** A world in which every call succeeds and the sockets receive what
    [arrivals] says. *)
Definition world_of (arrivals : Sock -> list (list byte)) : App.World :=
  App.mkWorld true true true true true
    (fun s => (arrivals s, Timeout)) (fun _ _ => true).

(** The device answers the query where it came from: on the socket numbered
    [sender]. *)
Definition answer_to (sender : Sock) (answer : list byte)
  : Sock -> list (list byte) :=
  fun s => if (s =? sender)%nat then [answer] else [].

(** The query leaves on socket 7 and the device answers it there. *)
Definition answered_on_sender : App.World :=
  world_of (answer_to 7%nat Spec.ANSWER).

(** No datagram reaches any socket. *)
Definition silent : App.World := world_of (fun _ => []).

(** The responses the read loop hands to the callback: every datagram that
    is not empty, cut to the size of the buffer. *)
Definition handed_over (size : nat) (datagrams : list (list byte))
  : list (list byte) :=
  filter (fun d => (0 <? length d)%nat) (map (firstn size) datagrams).

(** The query was sent and the task listens for responses. *)
Definition listening (w : App.World) : bool :=
  App.resolve_ok w && App.dial_ok w && App.write_ok w
  && App.resolve_listen_ok w && App.listen_ok w.

(** The calls of [reply] a task makes, one after the other. *)
Fixpoint reply_all (w : App.World) (ap : App.AppProxy)
    (sourceAddr : list byte) (sourcePort : Z) (responses : list (list byte))
  : App.AppProxy * list Event :=
  match responses with
  | [] => (ap, [])
  | r :: rest =>
      let '(ap1, ev1) := App.reply w ap sourceAddr sourcePort r in
      let '(ap2, ev2) := reply_all w ap1 sourceAddr sourcePort rest in
      (ap2, ev1 ++ ev2)
  end.

(** A datagram that comes before the first connection, and a run that
    connects and forwards a second datagram after it. *)
Definition early : Tuner.Datagram :=
  Tuner.mkDatagram Spec.QUERY (mkUDPAddr Spec.origin_address Spec.origin_port).

Definition late : Tuner.Datagram :=
  Tuner.mkDatagram Spec.ANSWER
    (mkUDPAddr Spec.origin_address Spec.origin_port).

Definition connect_then_forward : list Tuner.Input :=
  [Tuner.Tick (Dialed 1%nat); Tuner.Captured late; Tuner.Send true].

(** What the goroutines of the Client-Side Relay do around the shared
    connection: the accessors, the ticker, the read loop when its read
    fails, and the two halves of the capture loop. *)
Definition client_side (tp : Tuner.TunerProxy) (conn : Conn) (host : string)
    (r : DialResult) (buf : list byte) (dg : Tuner.Datagram) (ok : bool)
    (msg : list byte) : list (list Event) :=
  [snd (Tuner.getTCPTransport tp);
   snd (Tuner.setTCPTransport tp conn);
   snd (Tuner.closeTCP tp);
   snd (Tuner.tick tp host r);
   snd (Tuner.read_loop_error tp conn);
   snd (fst (Tuner.capture tp buf dg));
   snd (Tuner.send tp ok msg)].

(** The same without the paths through [closeTCP]. *)
Definition client_side_accessors (tp : Tuner.TunerProxy) (conn : Conn)
    (host : string) (r : DialResult) (buf : list byte) (dg : Tuner.Datagram)
    (msg : list byte) : list (list Event) :=
  [snd (Tuner.getTCPTransport tp);
   snd (Tuner.setTCPTransport tp conn);
   snd (Tuner.tick tp host r);
   snd (fst (Tuner.capture tp buf dg));
   snd (Tuner.send tp true msg)].

(** The accept and read loop of the App-Side Relay. *)
Definition app_side_loop (ap : App.AppProxy) (conn : Conn)
  : list (list Event) :=
  [snd (App.handleTunerProxyConnection_start ap conn);
   snd (App.handleTunerProxyConnection_read_error ap conn)].

(** *** The frame reader, one byte at a time *)
Module Frames.
Import Go.

(** Where the reader is in the stream: before a frame, after the first
    length byte, or inside a payload of which [missing] bytes are still to
    come and [acc] are there. *)
Inductive Phase : Type :=
| AtStart
| HaveHigh (hi : byte)
| InBody (missing : nat) (acc : list byte).

(** One byte of the stream, and the messages it completes. *)
Definition step (p : Phase) (b : byte) : Phase * list (list byte) :=
  match p with
  | AtStart => (HaveHigh b, [])
  | HaveHigh hi =>
      match Z.to_nat (byte_to_Z hi * 256 + byte_to_Z b) with
      | O => (AtStart, [[]])
      | S k => (InBody (S k) [], [])
      end
  | InBody missing acc =>
      match missing with
      | S (S k) => (InBody (S k) (acc ++ [b]), [])
      | _ => (AtStart, [acc ++ [b]])
      end
  end.

Fixpoint run (p : Phase) (data : list byte) : Phase * list (list byte) :=
  match data with
  | [] => (p, [])
  | b :: rest =>
      let '(p1, o1) := step p b in
      let '(p2, o2) := run p1 rest in
      (p2, o1 ++ o2)
  end.

(** The fields of the codec in a phase. *)
Definition in_phase (mc : Codec.MessageCodec) (p : Phase) : Prop :=
  match p with
  | AtStart =>
      Codec.lengthBytesRemaining mc = 2
      /\ Codec.msgBytesRemaining mc = 0
      /\ buf_data (Codec.msgBuffer mc) = []
  | HaveHigh hi =>
      Codec.lengthBytesRemaining mc = 1
      /\ Codec.msgBytesRemaining mc = byte_to_Z hi * 256
      /\ buf_data (Codec.msgBuffer mc) = []
  | InBody missing acc =>
      Codec.lengthBytesRemaining mc = 0
      /\ Codec.msgBytesRemaining mc = Z.of_nat missing
      /\ buf_data (Codec.msgBuffer mc) = acc
      /\ 0 < Z.of_nat missing
      /\ Z.of_nat missing + Z.of_nat (length acc) <= 65535
  end.

(** The states the codec is in between two calls of [Decode], from
    [NewMessageCodec] on. *)
Definition reachable (mc : Codec.MessageCodec) : Prop :=
  exists p, in_phase mc p.

(** The fields [Decode] reads. *)
Definition view (mc : Codec.MessageCodec) : Z * Z * list byte :=
  (Codec.lengthBytesRemaining mc, Codec.msgBytesRemaining mc,
   buf_data (Codec.msgBuffer mc)).

End Frames.

(** The slices [out] were allocated between [h] and [h'], each in an array
    of its own. *)
Definition allocated_in (h h' : Heap) (out : list slice) : Prop :=
  Forall (fun s => (h <= arr s < h')%nat) out /\ NoDup (map arr out).

(** A payload in progress with room for what is missing in 65535 bytes. *)
Definition phase_ok (p : Frames.Phase) : Prop :=
  match p with
  | Frames.InBody missing acc =>
      0 < Z.of_nat missing
      /\ Z.of_nat missing + Z.of_nat (length acc) <= 65535
  | _ => True
  end.

(** *** The read loops of the tunnel *)
Module AppTunnel.
Import Go Net Envelope.

(** The callback [onReceivedMessage] on the messages [Decode] hands over,
    in order. *)
Fixpoint onReceivedMessages (msgs : list (list byte))
  : option (list Event) :=
  match msgs with
  | [] => Some []
  | m :: rest =>
      match App.onReceivedMessage m, onReceivedMessages rest with
      | Some e1, Some e2 => Some (e1 ++ e2)
      | _, _ => None
      end
  end.

(** [handleTunerProxyConnection], a read that returns [data]: nothing is
    done with no bytes, the codec of the connection decodes the others. *)
Definition handleTunerProxyConnection_read (h : Heap)
    (codec : Codec.MessageCodec) (conn : Conn) (data : slice)
  : option (Heap * Codec.MessageCodec * list Event) :=
  if (0 <? length (elems data))%nat then
    match Codec.Decode h codec data with
    | Some (h1, codec1, msgs) =>
        match onReceivedMessages (map elems msgs) with
        | Some evs =>
            Some (h1, codec1,
                  TCPRead conn
                    :: Log LDebug "Request received from tuner proxy" :: evs)
        | None => None
        end
    | None => None
    end
  else Some (h, codec, [TCPRead conn]).

(** The reads of one connection, one after the other. *)
Fixpoint handleTunerProxyConnection_reads (h : Heap)
    (codec : Codec.MessageCodec) (conn : Conn) (chunks : list slice)
  : option (Heap * Codec.MessageCodec * list Event) :=
  match chunks with
  | [] => Some (h, codec, [])
  | c :: cs =>
      match handleTunerProxyConnection_read h codec conn c with
      | Some (h1, codec1, ev1) =>
          match handleTunerProxyConnection_reads h1 codec1 conn cs with
          | Some (h2, codec2, ev2) => Some (h2, codec2, ev1 ++ ev2)
          | None => None
          end
      | None => None
      end
  end.

End AppTunnel.

Module TunerTunnel.
Import Go Net Envelope.

(** What the outside answers when the relay sends a reply to an
    application: whether the socket numbered [s] can be made and written. *)
Record World : Type := mkWorld {
  dial_ok : Sock -> bool;
  write_ok : Sock -> bool
}.

(** The callback [onMessageReceivedFromAppProxy] on the messages [Decode]
    hands over, in order; every call gets a socket number of its own. *)
Fixpoint onMessagesReceivedFromAppProxy (w : World) (s : Sock)
    (msgs : list (list byte)) : option (list Event) :=
  match msgs with
  | [] => Some []
  | m :: rest =>
      match Tuner.onMessageReceivedFromAppProxy (dial_ok w s) (write_ok w s)
              s m,
            onMessagesReceivedFromAppProxy w (S s) rest with
      | Some e1, Some e2 => Some (e1 ++ e2)
      | _, _ => None
      end
  end.

(** The loop of the goroutine [connectToAppProxy] starts, a read that
    returns [data]. *)
Definition read_loop_data (w : World) (s : Sock) (h : Heap)
    (codec : Codec.MessageCodec) (conn : Conn) (data : slice)
  : option (Sock * Heap * Codec.MessageCodec * list Event) :=
  if (0 <? length (elems data))%nat then
    match Codec.Decode h codec data with
    | Some (h1, codec1, msgs) =>
        match onMessagesReceivedFromAppProxy w s (map elems msgs) with
        | Some evs =>
            Some ((s + length msgs)%nat, h1, codec1,
                  TCPRead conn
                    :: Log LDebug "Reply received from app proxy" :: evs)
        | None => None
        end
    | None => None
    end
  else Some (s, h, codec, [TCPRead conn]).

Fixpoint read_loop_reads (w : World) (s : Sock) (h : Heap)
    (codec : Codec.MessageCodec) (conn : Conn) (chunks : list slice)
  : option (Sock * Heap * Codec.MessageCodec * list Event) :=
  match chunks with
  | [] => Some (s, h, codec, [])
  | c :: cs =>
      match read_loop_data w s h codec conn c with
      | Some (s1, h1, codec1, ev1) =>
          match read_loop_reads w s1 h1 codec1 conn cs with
          | Some (s2, h2, codec2, ev2) => Some (s2, h2, codec2, ev1 ++ ev2)
          | None => None
          end
      | None => None
      end
  end.

(** The test of [runTunerProxyMode] for the failure that ends the
    process. *)
Definition fatal (e : error) : bool :=
  match e with
  | OpError _ _ _ _ inner => String.eqb (Error inner) "no such host"
  | _ => false
  end.

End TunerTunnel.

(** *** More to read in a run *)
Module Trace2.
Import Net.

(** The query tasks among the events. *)
Fixpoint tasks (evs : list Event) : list Task :=
  match evs with
  | [] => []
  | Go t :: rest => t :: tasks rest
  | _ :: rest => tasks rest
  end.

(** The datagrams sent, each with the socket it leaves on. *)
Fixpoint udp_sends (evs : list Event) : list (Sock * list byte) :=
  match evs with
  | [] => []
  | UDPWrite s data :: rest => (s, data) :: udp_sends rest
  | _ :: rest => udp_sends rest
  end.

(** The sockets made, each with the address it is connected to. *)
Fixpoint udp_dials (evs : list Event) : list (Sock * UDPAddr) :=
  match evs with
  | [] => []
  | UDPDial s raddr :: rest => (s, raddr) :: udp_dials rest
  | _ :: rest => udp_dials rest
  end.

(** The dials of the tunnel. *)
Fixpoint dials (evs : list Event) : nat :=
  match evs with
  | [] => O
  | TCPDial _ _ :: rest => S (dials rest)
  | _ :: rest => dials rest
  end.

(** The connections closed. *)
Fixpoint closes (evs : list Event) : list Conn :=
  match evs with
  | [] => []
  | TCPClose c :: rest => c :: closes rest
  | _ :: rest => closes rest
  end.

(** The connections a read loop is started for. *)
Fixpoint read_loops (evs : list Event) : list Conn :=
  match evs with
  | [] => []
  | Go (ReadLoop c) :: rest => c :: read_loops rest
  | _ :: rest => read_loops rest
  end.

(** The UDP sockets made, by [DialUDP] or by [ListenUDP], and the UDP
    sockets closed. *)
Fixpoint udp_made (evs : list Event) : list Sock :=
  match evs with
  | [] => []
  | UDPDial s _ :: rest => s :: udp_made rest
  | UDPListen s :: rest => s :: udp_made rest
  | _ :: rest => udp_made rest
  end.

Fixpoint udp_closed (evs : list Event) : list Sock :=
  match evs with
  | [] => []
  | UDPClose s :: rest => s :: udp_closed rest
  | _ :: rest => udp_closed rest
  end.

End Trace2.

(** A frame as the specification has it: a length prefix that is the length
    of the payload, before an Envelope that has an inner payload. *)
Definition well_framed (data : list byte) : Prop :=
  exists envelope,
    data = Codec.Encode envelope
    /\ Spec.big_endian_value (firstn 2 data) = Z.of_nat (length envelope)
    /\ (6 < length envelope)%nat.

(** The query tasks the messages [msgs] start in the App-Side Relay. *)
Definition tasks_of (msgs : list (list byte)) : list Task :=
  flat_map (fun msg =>
              if (length msg <? 6)%nat then []
              else [QueryTask (skipn 6 msg) (firstn 4 msg)
                      (Uint16 (firstn 2 (skipn 4 msg)))]) msgs.


(** The datagrams the messages [msgs] make the Client-Side Relay send: for
    every message long enough whose socket can be made, the socket, the
    address it is connected to, and the bytes written.  The sockets are
    numbered from [s], one for each message. *)
Fixpoint replies_of (w : TunerTunnel.World) (s : Sock)
    (msgs : list (list byte)) : list (Sock * UDPAddr * list byte) :=
  match msgs with
  | [] => []
  | m :: rest =>
      (if (length m <? 6)%nat || negb (TunerTunnel.dial_ok w s) then []
       else [(s,
              mkUDPAddr (IPv4 (nth 0 m x00) (nth 1 m x00) (nth 2 m x00)
                           (nth 3 m x00))
                (Uint16 (firstn 2 (skipn 4 m))),
              skipn 6 m)])
      ++ replies_of w (S s) rest
  end.

(** The Client-Side Relay delivers [frame]: however the reads of
    connection [conn] cut it, it sends one datagram, [data], from a new
    socket connected to [addr]. *)
Definition delivers (w : TunerTunnel.World) (s : Sock) (h : Heap)
    (conn : Conn) (frame : list byte) (addr : UDPAddr) (data : list byte)
  : Prop :=
  forall chunks : list slice,
    concat (map elems chunks) = frame ->
    exists s' h' codec' evs,
      TunerTunnel.read_loop_reads w s h Codec.NewMessageCodec conn chunks
      = Some (s', h', codec', evs)
      /\ Trace2.udp_dials evs = [(s, addr)]
      /\ Trace2.udp_sends evs = [(s, data)].

(** What holds of the Client-Side Relay between two steps: the capture
    buffer keeps its size, and the message the capture loop is about to
    send is a frame. *)
Definition capture_loop_ok (sys : Tuner.System) : Prop :=
  length (Tuner.buf sys) = UDPReadBufferSize
  /\ match Tuner.pending sys with
     | Some encodedMsg =>
         well_framed encodedMsg /\ (length encodedMsg <= 4104)%nat
     | None => True
     end.


(** *** Direct mode, both relays *)
Module Direct.
Import Go Net.

(** The two relays have the same direct mode; they differ in the texts
    they log. *)
Inductive Relay : Type := AppSide | ClientSide.

Definition request_text (r : Relay) : string :=
  match r with
  | AppSide => "Request received from app"
  | ClientSide => "Request received from app (direct mode)"
  end.

Definition response_text (r : Relay) : string :=
  match r with
  | AppSide => "Response received from HDHomeRun"
  | ClientSide => "Response received from HDHomeRun (direct mode)"
  end.

(** How the one [Read] of a task ends. *)
Inductive ReadResult : Type :=
| Received (d : list byte)
| TimedOut
| Failed.

(** What a relay in direct mode does, in the order it does it.  [Go n a]
    is [go forwardToDirectHDHR(buf[:n], a, conn)]. *)
Inductive Event : Type :=
| Dial (s : Sock) (host : string) (port : Z)
| Write (s : Sock) (data : list byte)
| Deadline (s : Sock) (ms : Z)
| Read (s : Sock)
| WriteTo (s : Sock) (data : list byte) (addr : UDPAddr)
| Close (s : Sock)
| Go (n : nat) (appAddr : UDPAddr)
| Log (l : Level) (msg : string).

(** What the outside answers to one task. *)
Record World : Type := mkWorld {
  resolve_ok : bool;
  dial_ok : bool;
  write_ok : bool;
  response : ReadResult;
  reply_ok : bool
}.

(** [forwardToDirectHDHR]; [s] is the number the new socket gets. *)
Definition forwardToDirectHDHR (r : Relay) (w : World)
    (directHDHRIP : string) (s : Sock) (queryData : list byte)
    (appAddr : UDPAddr) (replyConn : Sock) : list Event :=
  if negb (resolve_ok w) then
    [Log LError "Error resolving HDHomeRun address"]
  else if negb (dial_ok w) then
    [Log LError "Error connecting to HDHomeRun"]
  else
    let conn := s in
    Dial conn directHDHRIP HDHomeRunDiscoveryUDPPort ::
    Write conn queryData ::
    if negb (write_ok w) then
      [Log LError "Error sending query to HDHomeRun"; Close conn]
    else
      Deadline conn UDPReadTimeout :: Read conn ::
      match response w with
      | TimedOut => [Close conn]
      | Failed =>
          [Log LError "Error reading response from HDHomeRun"; Close conn]
      | Received d =>
          let respBuf := repeat x00 UDPReadBufferSize in
          let n := Nat.min (length respBuf) (length d) in
          let respBuf1 := read_into respBuf d in
          (if (0 <? n)%nat then
             Log LDebug (response_text r) ::
             WriteTo replyConn (firstn n respBuf1) appAddr ::
             (if reply_ok w then []
              else [Log LError "Error sending response to app"])
           else [])
          ++ [Close conn]
      end.

(** The loop of [runDirectMode]: its buffer, the tasks started and not
    yet at their [Write], each with the length of its slice of the buffer
    and the address to answer, and the number the next socket gets. *)
Record Loop : Type := mkLoop {
  buf : list byte;
  started : list (nat * UDPAddr);
  next : Sock
}.

(** The socket the loop reads on, which the tasks answer on. *)
Definition listenConn : Sock := 0%nat.

Definition start : Loop :=
  mkLoop (repeat x00 UDPReadBufferSize) [] 1%nat.

(** The loop's read returns a datagram, times out or fails; or one of the
    tasks started, the one at index [i], comes to its [Write] and runs to
    its end. *)
Inductive Input : Type :=
| Datagram (dg : Tuner.Datagram)
| ReadTimeout
| ReadError
| Forward (i : nat) (w : World).

Definition step (r : Relay) (directHDHRIP : string) (st : Loop) (i : Input)
  : Loop * list Event :=
  match i with
  | Datagram dg =>
      let n := Nat.min (length (buf st)) (length (Tuner.payload dg)) in
      let buf1 := read_into (buf st) (Tuner.payload dg) in
      if (0 <? n)%nat then
        (mkLoop buf1 (started st ++ [(n, Tuner.remoteAddr dg)]) (next st),
         [Deadline listenConn 100; Read listenConn;
          Log LDebug (request_text r); Go n (Tuner.remoteAddr dg)])
      else
        (mkLoop buf1 (started st) (next st),
         [Deadline listenConn 100; Read listenConn])
  | ReadTimeout => (st, [Deadline listenConn 100; Read listenConn])
  | ReadError =>
      (st, [Deadline listenConn 100; Read listenConn;
            Log LError "Error reading UDP"])
  | Forward i w =>
      match nth_error (started st) i with
      | None => (st, [])
      | Some (n, appAddr) =>
          (mkLoop (buf st)
             (firstn i (started st) ++ skipn (S i) (started st))
             (S (next st)),
           forwardToDirectHDHR r w directHDHRIP (next st)
             (firstn n (buf st)) appAddr listenConn)
      end
  end.

Fixpoint run (r : Relay) (directHDHRIP : string) (st : Loop)
    (inputs : list Input) : Loop * list Event :=
  match inputs with
  | [] => (st, [])
  | i :: rest =>
      let '(st1, ev1) := step r directHDHRIP st i in
      let '(st2, ev2) := run r directHDHRIP st1 rest in
      (st2, ev1 ++ ev2)
  end.

(** The queries sent to the device, the answers sent to applications, and
    the sockets read, made and closed, among the events. *)
Fixpoint queries (evs : list Event) : list (Sock * list byte) :=
  match evs with
  | [] => []
  | Write s data :: rest => (s, data) :: queries rest
  | _ :: rest => queries rest
  end.

Fixpoint answers (evs : list Event) : list (Sock * list byte * UDPAddr) :=
  match evs with
  | [] => []
  | WriteTo s data addr :: rest => (s, data, addr) :: answers rest
  | _ :: rest => answers rest
  end.

Fixpoint reads (evs : list Event) : list Sock :=
  match evs with
  | [] => []
  | Read s :: rest => s :: reads rest
  | _ :: rest => reads rest
  end.

Fixpoint dialed (evs : list Event) : list Sock :=
  match evs with
  | [] => []
  | Dial s _ _ :: rest => s :: dialed rest
  | _ :: rest => dialed rest
  end.

Fixpoint closed (evs : list Event) : list Sock :=
  match evs with
  | [] => []
  | Close s :: rest => s :: closed rest
  | _ :: rest => closed rest
  end.

(** The query reached the device and the task waits for a response. *)
Definition waiting (w : World) : bool :=
  resolve_ok w && dial_ok w && write_ok w.

End Direct.

(** What holds of the connections of the Client-Side Relay when [made]
    are the connections dialed so far and [gone] the connections closed so
    far: the connection held was dialed and is not closed, and only
    connections dialed were closed, none of them twice. *)
Definition connections_ok (tp : Tuner.TunerProxy) (made gone : list Conn)
  : Prop :=
  match Tuner.tcpTransport tp with
  | Some c => In c made /\ ~ In c gone
  | None => True
  end
  /\ incl gone made
  /\ NoDup gone.

(** *** The configuration *)
Module Config.
Import Go Net.

(** The constant [ReconnectInterval], in seconds; the field of [Config] has
    the name here. *)
Definition ReconnectIntervalDefault : Z := 3.

Record AppSettings : Type := mkAppSettings {
  BindAddress : string;
  AppDirectHDHRIP : string
}.

Record TunerSettings : Type := mkTunerSettings {
  ProxyHost : string;
  DirectMode : bool;
  TunerDirectHDHRIP : string
}.

(** [Config]; the fields of type [int] are 64-bit integers. *)
Record Config : Type := mkConfig {
  HDHomeRunPort : Z;
  TCPPort : Z;
  UDPReadTimeout : Z;
  UDPReadBuffSize : Z;
  ReconnectInterval : Z;
  Debug : bool;
  App : AppSettings;
  Tuner : TunerSettings
}.

Definition DefaultConfig : Config :=
  mkConfig Net.HDHomeRunDiscoveryUDPPort Net.TCPPort Net.UDPReadTimeout
    (Z.of_nat Net.UDPReadBufferSize) ReconnectIntervalDefault false
    (mkAppSettings "" "") (mkTunerSettings "" false "").

(** The value [SaveConfigTemplate] writes. *)
Definition template : Config :=
  mkConfig 65001 65001 500 4096 3 false
    (mkAppSettings "0.0.0.0" "192.168.1.50")
    (mkTunerSettings "10.10.10.9" false "10.10.10.50").

Definition GetUDPReadTimeout (c : Config) : Z :=
  if 0 <? UDPReadTimeout c then UDPReadTimeout c else Net.UDPReadTimeout.

Definition GetUDPReadBuffSize (c : Config) : Z :=
  if 0 <? UDPReadBuffSize c then UDPReadBuffSize c
  else Z.of_nat Net.UDPReadBufferSize.

Definition GetReconnectInterval (c : Config) : Z :=
  if 0 <? ReconnectInterval c then ReconnectInterval c
  else ReconnectIntervalDefault.

Definition GetHDHomeRunPort (c : Config) : Z :=
  if 0 <? HDHomeRunPort c then HDHomeRunPort c
  else Net.HDHomeRunDiscoveryUDPPort.

Definition GetTCPPort (c : Config) : Z :=
  if 0 <? TCPPort c then TCPPort c else Net.TCPPort.

(** [time.Second], in nanoseconds. *)
Definition Second : Z := 1000000000.

(** [time.NewTicker(d)]: the period of the ticker; [None] is the panic for
    a period that is not positive. *)
Definition NewTicker (d : Z) : option Z :=
  if d <=? 0 then None else Some d.

(** The ticker of [runTunerProxyMode]:
    [time.NewTicker(time.Duration(cfg.GetReconnectInterval()) * time.Second)],
    a product of 64-bit integers. *)
Definition reconnect_ticker (c : Config) : option Z :=
  NewTicker (wrap_int (GetReconnectInterval c * Second)).

End Config.

(** The Envelope the capture loop builds for a datagram, the query task
    the Envelope is to start in the App-Side Relay, and the steps of the
    capture loop for a list of datagrams when every write succeeds. *)
Definition envelope_of (dg : Tuner.Datagram) : list byte :=
  Envelope.pack (To4 (addrIP (Tuner.remoteAddr dg)))
    (uint16 (Port (Tuner.remoteAddr dg)))
    (firstn UDPReadBufferSize (Tuner.payload dg)).

Definition task_of (dg : Tuner.Datagram) : Task :=
  QueryTask (firstn UDPReadBufferSize (Tuner.payload dg))
    (To4 (addrIP (Tuner.remoteAddr dg)))
    (uint16 (Port (Tuner.remoteAddr dg))).

Definition capture_and_send (dgs : list Tuner.Datagram)
  : list Tuner.Input :=
  flat_map (fun dg => [Tuner.Captured dg; Tuner.Send true]) dgs.

(** A datagram that is not empty, from a sender with an IPv4 address. *)
Definition from_IPv4 (dg : Tuner.Datagram) : Prop :=
  length (To4 (addrIP (Tuner.remoteAddr dg))) = 4%nat
  /\ Tuner.payload dg <> [].

(** The bytes of the frame in progress: what the reader has taken of a
    frame it has not handed over, first for a phase, then for the fields of
    the codec. *)
Definition taken (p : Frames.Phase) : list byte :=
  match p with
  | Frames.AtStart => []
  | Frames.HaveHigh hi => [hi]
  | Frames.InBody missing acc =>
      PutUint16 (Z.of_nat missing + Z.of_nat (length acc)) ++ acc
  end.

Definition unfinished (mc : Codec.MessageCodec) : list byte :=
  if Codec.lengthBytesRemaining mc =? 2 then []
  else if Codec.lengthBytesRemaining mc =? 1 then
    [Z_to_byte (Z.shiftr (Codec.msgBytesRemaining mc) 8)]
  else
    PutUint16 (Codec.msgBytesRemaining mc
               + Z.of_nat (length (buf_data (Codec.msgBuffer mc))))
      ++ buf_data (Codec.msgBuffer mc).


(** *** The capture loop, statement by statement *)
Module CaptureLoop.
Import Go Net Envelope.

(** Where the loop of [handleUDPBroadcasts] is: before [ReadFromUDP];
    between [ReadFromUDP], which gave [n] bytes from [remoteAddr], and the
    test of the connection; or between [Encode] and the second
    [getTCPTransport].  No lock is held from one to the next, so the other
    goroutines take their steps in between. *)
Inductive Position : Type :=
| AtRead
| AtTest (n : nat) (remoteAddr : UDPAddr)
| AtSend (encodedMsg : list byte).

Record System : Type := mkSystem {
  proxy : Tuner.TunerProxy;
  buf : list byte;
  pos : Position
}.

Definition start : System :=
  mkSystem Tuner.NewTunerProxy (repeat x00 UDPReadBufferSize) AtRead.

(** [n, remoteAddr, err := udpConn.ReadFromUDP(buf)], without error. *)
Definition read (buf : list byte) (dg : Tuner.Datagram)
  : list byte * list Event * Position :=
  (read_into buf (Tuner.payload dg),
   [UDPRead Tuner.udpTransport],
   AtTest (Nat.min (length buf) (length (Tuner.payload dg)))
     (Tuner.remoteAddr dg)).

(** From [if tp.getTCPTransport() == nil] to [codec.Encode(msgData)]. *)
Definition test (tp : Tuner.TunerProxy) (buf : list byte) (n : nat)
    (remoteAddr : UDPAddr) : list Event * Position :=
  let '(held, ev) := Tuner.getTCPTransport tp in
  match held with
  | None => (ev, AtRead)
  | Some _ =>
      if (0 <? n)%nat then
        let msgData :=
          pack (To4 (addrIP remoteAddr)) (uint16 (Port remoteAddr))
            (firstn n buf) in
        (ev ++ [Log LDebug "Request received from app"],
         AtSend (Codec.Encode msgData))
      else (ev, AtRead)
  end.

(** The steps of the goroutines: a tick of the dial loop, a read of the
    tunnel read loop that fails, and the statements of the capture loop. *)
Inductive Input : Type :=
| Tick (r : DialResult)
| TunnelError (conn : Conn)
| Read (dg : Tuner.Datagram)
| ReadFails
| Test
| Send (write_ok : bool).

(** One step of one goroutine; [None] when the step is not the next one
    of its goroutine. *)
Definition step (host : string) (sys : System) (i : Input)
  : option (System * list Event) :=
  match i with
  | Tick r =>
      let '(tp, ev) := Tuner.tick (proxy sys) host r in
      Some (mkSystem tp (buf sys) (pos sys), ev)
  | TunnelError conn =>
      let '(tp, ev) := Tuner.read_loop_error (proxy sys) conn in
      Some (mkSystem tp (buf sys) (pos sys), ev)
  | Read dg =>
      match pos sys with
      | AtRead =>
          let '(buf1, ev, p) := read (buf sys) dg in
          Some (mkSystem (proxy sys) buf1 p, ev)
      | _ => None
      end
  | ReadFails =>
      match pos sys with
      | AtRead =>
          Some (sys,
                [UDPRead Tuner.udpTransport; Log LError "Error reading UDP"])
      | _ => None
      end
  | Test =>
      match pos sys with
      | AtTest n remoteAddr =>
          let '(ev, p) := test (proxy sys) (buf sys) n remoteAddr in
          Some (mkSystem (proxy sys) (buf sys) p, ev)
      | _ => None
      end
  | Send write_ok =>
      match pos sys with
      | AtSend encodedMsg =>
          let '(tp, ev) := Tuner.send (proxy sys) write_ok encodedMsg in
          Some (mkSystem tp (buf sys) AtRead, ev)
      | _ => None
      end
  end.

Fixpoint run (host : string) (sys : System) (inputs : list Input)
  : option (System * list Event) :=
  match inputs with
  | [] => Some (sys, [])
  | i :: rest =>
      match step host sys i with
      | None => None
      | Some (sys1, ev1) =>
          match run host sys1 rest with
          | None => None
          | Some (sys2, ev2) => Some (sys2, ev1 ++ ev2)
          end
      end
  end.

End CaptureLoop.

(** Two states of the relay that differ only in bytes of [buf] the capture
    loop will not look at: all of them before a read and after the
    encoding, those beyond the first [n] between the read and the test. *)
Definition same_but_stale (s1 s2 : CaptureLoop.System) : Prop :=
  CaptureLoop.proxy s1 = CaptureLoop.proxy s2
  /\ CaptureLoop.pos s1 = CaptureLoop.pos s2
  /\ length (CaptureLoop.buf s1) = length (CaptureLoop.buf s2)
  /\ match CaptureLoop.pos s1 with
     | CaptureLoop.AtTest n _ =>
         firstn n (CaptureLoop.buf s1) = firstn n (CaptureLoop.buf s2)
     | _ => True
     end.

(** ** Part II: theorems *)

(** *** Bytes and machine integers *)

Lemma byte_to_Z_range (b : byte) : 0 <= byte_to_Z b < 256.
Proof.
  unfold byte_to_Z. pose proof (Byte.to_N_bounded b). lia.
Qed.

Lemma Z_to_byte_to_Z (b : byte) : Z_to_byte (byte_to_Z b) = b.
Proof.
  unfold Z_to_byte. pose proof (byte_to_Z_range b) as Hb.
  rewrite Z.mod_small by exact Hb.
  unfold byte_to_Z. rewrite N2Z.id, Byte.of_to_N. reflexivity.
Qed.

Lemma byte_to_Z_to_byte (z : Z) : byte_to_Z (Z_to_byte z) = z mod 256.
Proof.
  unfold Z_to_byte, byte_to_Z.
  assert (Hr : 0 <= z mod 256 < 256) by (apply Z.mod_pos_bound; lia).
  destruct (Byte.of_N (Z.to_N (z mod 256))) as [b|] eqn:E.
  - apply Byte.to_of_N in E. rewrite E. rewrite Z2N.id; lia.
  - apply Byte.of_N_None_iff in E. lia.
Qed.

Lemma wrap_int_small (z : Z) : - 2 ^ 63 <= z < 2 ^ 63 -> wrap_int z = z.
Proof.
  intros Hz. unfold wrap_int. rewrite Z.mod_small; lia.
Qed.

Lemma land_shifted_byte (x y : Z) :
  0 <= y < 256 -> Z.land (x * 256) y = 0.
Proof.
  intros Hy. apply Z.bits_inj'. intros i Hi.
  rewrite Z.land_spec, Z.bits_0.
  destruct (Z.ltb_spec i 8) as [Hlt|Hge].
  - change 256 with (2 ^ 8). rewrite Z.mul_pow2_bits_low by lia. reflexivity.
  - replace y with (y mod 2 ^ 8) by (apply Z.mod_small; simpl; lia).
    rewrite Z.mod_pow2_bits_high by lia. apply andb_false_r.
Qed.

Lemma lor_shifted_byte (x y : Z) :
  0 <= y < 256 -> Z.lor (x * 256) y = x * 256 + y.
Proof.
  intros Hy. pose proof (Z.add_lor_land (x * 256) y) as H.
  rewrite land_shifted_byte in H by exact Hy. lia.
Qed.

(** The two bytes [PutUint16] writes, read as a number. *)
Lemma PutUint16_value (v : Z) :
  0 <= v < 65536 ->
  exists hi lo, PutUint16 v = [hi; lo] /\
    byte_to_Z hi = v / 256 /\ byte_to_Z lo = v mod 256.
Proof.
  intros Hv. unfold PutUint16.
  exists (Z_to_byte (Z.shiftr v 8)), (Z_to_byte v).
  split; [reflexivity|].
  rewrite !byte_to_Z_to_byte, Z.shiftr_div_pow2 by lia.
  change (2 ^ 8) with 256. split; [|reflexivity].
  apply Z.mod_small. split.
  - apply Z.div_pos; lia.
  - apply Z.div_lt_upper_bound; lia.
Qed.

Lemma Uint16_PutUint16 (v : Z) (rest : list byte) :
  0 <= v < 65536 -> Uint16 (PutUint16 v ++ rest) = v.
Proof.
  intros Hv. destruct (PutUint16_value v Hv) as (hi & lo & E & Hhi & Hlo).
  rewrite E. cbn [app Uint16]. unfold uint16.
  rewrite Z.shiftl_mul_pow2 by lia. change (2 ^ 8) with 256.
  pose proof (byte_to_Z_range hi). pose proof (byte_to_Z_range lo).
  rewrite Z.mod_small by lia.
  rewrite Z.lor_comm, lor_shifted_byte by lia.
  rewrite Hhi, Hlo. pose proof (Z.div_mod v 256). lia.
Qed.

Lemma PutUint16_Uint16 (b0 b1 : byte) (rest : list byte) :
  PutUint16 (Uint16 (b0 :: b1 :: rest)) = [b0; b1].
Proof.
  cbn [Uint16]. unfold uint16, PutUint16.
  rewrite Z.shiftl_mul_pow2 by lia. change (2 ^ 8) with 256.
  pose proof (byte_to_Z_range b0). pose proof (byte_to_Z_range b1).
  rewrite Z.mod_small by lia.
  rewrite Z.lor_comm, lor_shifted_byte by lia.
  rewrite Z.shiftr_div_pow2 by lia. change (2 ^ 8) with 256.
  replace ((byte_to_Z b0 * 256 + byte_to_Z b1) / 256) with (byte_to_Z b0)
    by (apply Z.div_unique with (r := byte_to_Z b1); lia).
  rewrite Z_to_byte_to_Z. f_equal. f_equal.
  rewrite <- (Z_to_byte_to_Z b1) at 2. unfold Z_to_byte.
  replace ((byte_to_Z b0 * 256 + byte_to_Z b1) mod 256)
    with (byte_to_Z b1 mod 256); [reflexivity|].
  rewrite Z.add_comm, Z.mod_add by lia. reflexivity.
Qed.

(** *** The codec: examples *)

Example Encode_two_bytes :
  Codec.Encode [x41; x42] = [x00; x02; x41; x42].
Proof. reflexivity. Qed.

Example Decode_three_frames :
  Codec.Decode 1%nat Codec.NewMessageCodec
    (mkSlice 0%nat [x00; x02; x41; x42; x00; x00; x00; x01; x43; x00])
  = Some (5%nat,
          Codec.mkCodec (mkBuffer (Some 1%nat) 64%nat []) 1 0,
          [mkSlice 2%nat [x41; x42]; mkSlice 3%nat [];
           mkSlice 4%nat [x43]]).
Proof. vm_compute. reflexivity. Qed.

(** *** The codec: [Encode] *)

Lemma Encode_header (data : list byte) :
  exists hi lo, Codec.Encode data = hi :: lo :: data /\
    byte_to_Z hi * 256 + byte_to_Z lo = Z.of_nat (length data) mod 65536.
Proof.
  unfold Codec.Encode, uint16.
  set (v := Z.of_nat (length data) mod 65536).
  assert (Hv : 0 <= v < 65536) by (apply Z.mod_pos_bound; lia).
  destruct (PutUint16_value v Hv) as (hi & lo & E & Hhi & Hlo).
  exists hi, lo. rewrite E. split; [reflexivity|].
  rewrite Hhi, Hlo. pose proof (Z.div_mod v 256). lia.
Qed.

(** C10. For every payload, of any length, [Encode] returns the two bytes
    that spell [len(payload) mod 2^16] in big-endian order, followed by the
    payload unchanged.  It has no error result, and for a payload longer
    than 65535 bytes the length prefix differs from the payload's length. *)
Theorem Encode_prefix_is_length_mod_2_16 (payload : list byte) :
  let n := Z.of_nat (length payload) in
  Codec.Encode payload = Spec.big_endian_u16 (n mod 2 ^ 16) ++ payload
  /\ Spec.big_endian_value (firstn 2 (Codec.Encode payload)) = n mod 2 ^ 16
  /\ skipn 2 (Codec.Encode payload) = payload
  /\ (65535 < n ->
      Spec.big_endian_value (firstn 2 (Codec.Encode payload)) <> n).
Proof.
  intros n. change (2 ^ 16) with 65536.
  assert (Hr : 0 <= n mod 65536 < 65536) by (apply Z.mod_pos_bound; lia).
  assert (Hval :
    Spec.big_endian_value (firstn 2 (Codec.Encode payload)) = n mod 65536).
  { destruct (Encode_header payload) as (hi & lo & E & Hsum).
    rewrite E. cbn [firstn]. unfold Spec.big_endian_value. cbn [fold_left].
    fold n in Hsum. lia. }
  split; [|split; [exact Hval|split]].
  - unfold Codec.Encode, uint16, PutUint16, Spec.big_endian_u16. fold n.
    rewrite Z.shiftr_div_pow2 by lia. change (2 ^ 8) with 256.
    do 3 f_equal. unfold Z_to_byte.
    rewrite Z.mod_mod by lia. reflexivity.
  - reflexivity.
  - intros Hbig. rewrite Hval. lia.
Qed.

Example Encode_oversized_payload :
  firstn 2 (Codec.Encode (repeat x2a (Z.to_nat 65537))) = [x00; x01].
Proof. vm_compute. reflexivity. Qed.

(** *** The codec: [Decode] *)

Lemma read_length_cons (b : byte) (rest : list byte) (lbr mbr : Z) :
  0 < lbr ->
  Codec.read_length (b :: rest) lbr mbr =
  Codec.read_length rest (wrap_int (lbr - 1))
    (Z.lor mbr (shl_int (byte_to_Z b) (wrap_int (wrap_int (lbr - 1) * 8)))).
Proof.
  intros H. cbn [Codec.read_length].
  destruct (Z.ltb_spec 0 lbr); [reflexivity|lia].
Qed.

Lemma read_length_nil (lbr mbr : Z) :
  0 < lbr -> Codec.read_length [] lbr mbr = (lbr, mbr, [], true).
Proof.
  intros H. cbn [Codec.read_length].
  destruct (Z.ltb_spec 0 lbr); [reflexivity|lia].
Qed.

Lemma read_length_done (data : list byte) (lbr mbr : Z) :
  lbr <= 0 -> Codec.read_length data lbr mbr = (lbr, mbr, data, false).
Proof.
  intros H. destruct data; cbn [Codec.read_length];
    destruct (Z.ltb_spec 0 lbr); (reflexivity || lia).
Qed.

Lemma shl_int_byte (b : byte) (s : Z) :
  0 <= s <= 8 -> shl_int (byte_to_Z b) s = byte_to_Z b * 2 ^ s.
Proof.
  intros Hs. unfold shl_int. rewrite Z.shiftl_mul_pow2 by lia.
  apply wrap_int_small. pose proof (byte_to_Z_range b).
  assert (0 < 2 ^ s <= 2 ^ 8) by
    (split; [apply Z.pow_pos_nonneg; lia|apply Z.pow_le_mono_r; lia]).
  change (2 ^ 8) with 256 in *. nia.
Qed.

(** The first length byte. *)
Lemma read_length_first (hi : byte) (rest : list byte) :
  Codec.read_length (hi :: rest) 2 0 =
  Codec.read_length rest 1 (byte_to_Z hi * 256).
Proof.
  rewrite read_length_cons by lia.
  change (2 - 1) with 1. rewrite (wrap_int_small 1) by lia.
  change (1 * 8) with 8. rewrite (wrap_int_small 8) by lia.
  rewrite shl_int_byte by lia. reflexivity.
Qed.

(** The second length byte. *)
Lemma read_length_second (hi lo : byte) (rest : list byte) :
  Codec.read_length (lo :: rest) 1 (byte_to_Z hi * 256) =
  (0, byte_to_Z hi * 256 + byte_to_Z lo, rest, false).
Proof.
  rewrite read_length_cons by lia.
  change (1 - 1) with 0. rewrite (wrap_int_small 0) by lia.
  change (0 * 8) with 0. rewrite (wrap_int_small 0) by lia.
  rewrite shl_int_byte by lia. change (2 ^ 0) with 1. rewrite Z.mul_1_r.
  rewrite lor_shifted_byte by apply byte_to_Z_range.
  apply read_length_done. lia.
Qed.

Lemma copy_into_make (message : list byte) :
  copy (repeat x00 (length message)) message = message.
Proof.
  unfold copy. rewrite repeat_length, Nat.min_id.
  rewrite firstn_all, skipn_all2 by (rewrite repeat_length; lia).
  apply app_nil_r.
Qed.

Lemma buf_ok_mono (h h' : Heap) (b : Buffer) :
  (h <= h')%nat -> buf_ok h b -> buf_ok h' b.
Proof.
  unfold buf_ok. destruct (buf_arr b); [lia|trivial].
Qed.

Lemma Write_spec (h : Heap) (b : Buffer) (p : list byte) :
  buf_ok h b ->
  exists h' b', Write h b p = (h', b') /\
    buf_data b' = buf_data b ++ p /\ (h <= h')%nat /\ buf_ok h' b'.
Proof.
  intros Hok. unfold Write.
  destruct (length p <=? buf_cap b - length (buf_data b))%nat.
  - eexists _, _. split; [reflexivity|]. cbn. auto.
  - destruct (buf_arr b) eqn:Ea.
    + eexists _, _. split; [reflexivity|]. unfold buf_ok. cbn.
      repeat split; lia.
    + destruct (length p <=? smallBufferSize)%nat;
        (eexists _, _; split; [reflexivity|]); unfold buf_ok; cbn;
        repeat split; lia.
Qed.

Lemma complete_spec (h : Heap) (b : Buffer) (rest : list byte) :
  Codec.complete h b rest =
  Codec.Complete (S h) (Codec.mkCodec (Reset b) 2 0) rest
    (mkSlice h (buf_data b)).
Proof.
  unfold Codec.complete, make, Bytes. cbn [arr elems].
  rewrite copy_into_make. reflexivity.
Qed.

Lemma split_firstn {A : Type} (l a b : list A) :
  l = a ++ b -> firstn (length a) l = a.
Proof.
  intros ->. rewrite firstn_app, Nat.sub_diag, firstn_all.
  cbn. apply app_nil_r.
Qed.

Lemma split_skipn {A : Type} (l a b : list A) :
  l = a ++ b -> skipn (length a) l = b.
Proof.
  intros ->. rewrite skipn_app, Nat.sub_diag, skipn_all. reflexivity.
Qed.

(** [Decode] returns on every input. *)

Lemma read_length_shrinks (data : list byte) :
  forall lbr mbr,
  let '(_, _, rest, short) := Codec.read_length data lbr mbr in
  (length rest <= length data)%nat
  /\ (0 < lbr -> short = false -> (length rest < length data)%nat).
Proof.
  induction data as [|b data IH]; intros lbr mbr; cbn [Codec.read_length].
  - destruct (Z.ltb_spec 0 lbr); cbn; split; intros; (lia || discriminate).
  - destruct (Z.ltb_spec 0 lbr) as [Hpos|Hle].
    + specialize (IH (wrap_int (lbr - 1))
        (Z.lor mbr (shl_int (byte_to_Z b)
                      (wrap_int (wrap_int (lbr - 1) * 8))))).
      destruct (Codec.read_length data _ _) as [[[l m'] rest] short].
      cbn [length]. split; intros; lia.
    + split; [lia|]. intros; lia.
Qed.

Lemma fill_shrinks (h : Heap) (b : Buffer) (lbr mbr : Z) (rest : list byte) :
  match Codec.fill h b lbr mbr rest with
  | Codec.Return _ _ => True
  | Codec.Complete _ mc1 rest1 _ =>
      (length rest1 <= length rest)%nat
      /\ Codec.lengthBytesRemaining mc1 = 2
  end.
Proof.
  unfold Codec.fill.
  destruct (0 <? mbr); [|rewrite complete_spec; split; [lia|reflexivity]].
  destruct (length rest =? 0)%nat; [exact I|].
  destruct (Write h b _) as [h1 b1].
  destruct (0 <? wrap_int _); [exact I|].
  rewrite complete_spec. split; [|reflexivity].
  rewrite length_skipn. lia.
Qed.

Lemma Decode_loop_returns (fuel : nat) :
  forall h mc data out,
  (length data + (if (0 <? Codec.lengthBytesRemaining mc)%Z then 0 else 1)
   < fuel)%nat ->
  exists r, Codec.Decode_loop fuel h mc data out = Some r.
Proof.
  induction fuel as [|fuel IH]; intros h mc data out Hfuel; [lia|].
  cbn [Codec.Decode_loop]. unfold Codec.turn.
  pose proof (read_length_shrinks data (Codec.lengthBytesRemaining mc)
                (Codec.msgBytesRemaining mc)) as R.
  destruct (Codec.read_length data _ _) as [[[lbr mbr] rest] short].
  destruct R as [Rle Rlt].
  destruct short; [eexists; reflexivity|].
  pose proof (fill_shrinks h (Codec.msgBuffer mc) lbr mbr rest) as F.
  destruct (Codec.fill h (Codec.msgBuffer mc) lbr mbr rest)
    as [h1 mc1|h1 mc1 rest1 msgCopy]; [eexists; reflexivity|].
  destruct F as [Fle Flbr]. apply IH. rewrite Flbr. cbn.
  destruct (Z.ltb_spec 0 (Codec.lengthBytesRemaining mc)) as [Hpos|Hle].
  - specialize (Rlt Hpos eq_refl). lia.
  - lia.
Qed.

Theorem Decode_returns (h : Heap) (mc : Codec.MessageCodec) (data : slice) :
  exists r, Codec.Decode h mc data = Some r.
Proof.
  unfold Codec.Decode. apply Decode_loop_returns.
  destruct (0 <? Codec.lengthBytesRemaining mc); lia.
Qed.

(** One frame [hi :: lo :: m] read in pieces. *)
Section OneFrame.
Variable m : list byte.
Variables hi lo : byte.
Hypothesis m_fits : Z.of_nat (length m) <= 65535.
Hypothesis header :
  byte_to_Z hi * 256 + byte_to_Z lo = Z.of_nat (length m).

Local Abbreviation pos := (frame_pos m hi lo).

Lemma pos_not_at_end (mc : Codec.MessageCodec) : ~ pos mc [].
Proof.
  intros H. inversion H as [| |b j Hj Hb Hmc Hrem].
  apply (f_equal (@length byte)) in Hrem.
  rewrite length_skipn in Hrem. cbn in Hrem. lia.
Qed.

(** The message block of a turn that starts with [j] bytes of [m] in the
    Buffer and [r] more to read: a return while [m] is incomplete, the
    message otherwise. *)
Lemma fill_body (h : Heap) (b : Buffer) (j : nat) (r rem : list byte) :
  (j <= length m)%nat ->
  buf_data b = firstn j m ->
  r ++ rem = skipn j m ->
  buf_ok h b ->
  match rem with
  | [] =>
      exists a b', Codec.fill h b 0 (Z.of_nat (length m) - Z.of_nat j) r =
        Codec.Complete (S a) (Codec.mkCodec b' 2 0) [] (mkSlice a m)
        /\ (h <= a)%nat /\ buf_ok a b' /\ buf_data b' = []
  | _ :: _ =>
      exists h' b', Codec.fill h b 0 (Z.of_nat (length m) - Z.of_nat j) r =
        Codec.Return h'
          (Codec.mkCodec b' 0
             (Z.of_nat (length m) - Z.of_nat (j + length r)))
        /\ (h <= h')%nat /\ buf_ok h' b'
        /\ (j + length r < length m)%nat
        /\ buf_data b' = firstn (j + length r) m
        /\ rem = skipn (j + length r) m
  end.
Proof.
  intros Hj Hb Hsplit Hok.
  assert (Hlen : (length r + length rem = length m - j)%nat).
  { rewrite <- length_app, Hsplit, length_skipn. reflexivity. }
  assert (Hm : m = (firstn j m ++ r) ++ rem).
  { rewrite <- app_assoc, Hsplit. symmetry. apply firstn_skipn. }
  assert (Hpre : length (firstn j m ++ r) = (j + length r)%nat).
  { rewrite length_app, length_firstn. lia. }
  assert (Hdata : firstn (j + length r) m = firstn j m ++ r).
  { rewrite <- Hpre. apply (split_firstn _ _ rem). exact Hm. }
  assert (Hrest : skipn (j + length r) m = rem).
  { rewrite <- Hpre. apply (split_skipn _ _ rem). exact Hm. }
  unfold Codec.fill.
  destruct (Z.ltb_spec 0 (Z.of_nat (length m) - Z.of_nat j)) as [Hpos|Hzero].
  - (* bytes of the message are still missing *)
    destruct r as [|x r'].
    + (* the chunk has ended *)
      cbn [length Nat.eqb]. destruct rem as [|y rem'].
      * cbn in Hlen. lia.
      * exists h, b. cbn [length] in *. rewrite Nat.add_0_r in *.
        repeat split; auto; lia.
    + set (r := x :: r') in *.
      assert (Hne : (length r =? 0)%nat = false) by reflexivity.
      rewrite Hne.
      assert (Hread :
        (if Z.of_nat (length r) >? Z.of_nat (length m) - Z.of_nat j
         then Z.to_nat (Z.of_nat (length m) - Z.of_nat j)
         else length r) = length r).
      { destruct (Z.gtb_spec (Z.of_nat (length r))
                    (Z.of_nat (length m) - Z.of_nat j)); [lia|reflexivity]. }
      rewrite Hread, firstn_all, skipn_all.
      destruct (Write_spec h b r Hok) as (h1 & b1 & EW & Hd1 & Hh1 & Hok1).
      rewrite EW.
      rewrite wrap_int_small by lia.
      destruct rem as [|y rem'].
      * (* the chunk ends the message *)
        cbn [length] in Hlen. rewrite Nat.add_0_r in Hlen.
        destruct (Z.ltb_spec 0
          (Z.of_nat (length m) - Z.of_nat j - Z.of_nat (length r))); [lia|].
        rewrite complete_spec. exists h1, (Reset b1).
        rewrite Hd1, Hb, <- Hdata.
        rewrite firstn_all2 by lia.
        repeat split; auto.
      * cbn [length] in Hlen.
        destruct (Z.ltb_spec 0
          (Z.of_nat (length m) - Z.of_nat j - Z.of_nat (length r))); [|lia].
        exists h1, b1.
        replace (Z.of_nat (length m) - Z.of_nat (j + length r))
          with (Z.of_nat (length m) - Z.of_nat j - Z.of_nat (length r))
          by lia.
        repeat split; auto; try lia.
        rewrite Hd1, Hb. symmetry. exact Hdata.
  - (* the message is complete: [j] is its length *)
    assert (j = length m) by lia. subst j.
    rewrite Nat.sub_diag in Hlen.
    destruct r; [|cbn in Hlen; lia]. destruct rem; [|cbn in Hlen; lia].
    rewrite complete_spec. exists h, (Reset b).
    rewrite Hb, firstn_all. repeat split; auto.
Qed.

(** One turn of [Decode] on a chunk [c] of the frame. *)
Lemma turn_chunk (h : Heap) (mc : Codec.MessageCodec) (c rem : list byte) :
  pos mc (c ++ rem) ->
  buf_ok h (Codec.msgBuffer mc) ->
  match rem with
  | [] =>
      exists a b', Codec.turn h mc c =
        Codec.Complete (S a) (Codec.mkCodec b' 2 0) [] (mkSlice a m)
        /\ (h <= a)%nat /\ buf_ok a b' /\ buf_data b' = []
  | _ :: _ =>
      exists h' mc', Codec.turn h mc c = Codec.Return h' mc'
        /\ pos mc' rem /\ (h <= h')%nat
        /\ buf_ok h' (Codec.msgBuffer mc')
  end.
Proof.
  intros Hpos Hok.
  assert (Hafter : forall b r, buf_data b = [] -> buf_ok h b ->
    r ++ rem = m ->
    match rem with
    | [] =>
        exists a b', Codec.fill h b 0
            (byte_to_Z hi * 256 + byte_to_Z lo) r =
          Codec.Complete (S a) (Codec.mkCodec b' 2 0) [] (mkSlice a m)
          /\ (h <= a)%nat /\ buf_ok a b' /\ buf_data b' = []
    | _ :: _ =>
        exists h' mc', Codec.fill h b 0
            (byte_to_Z hi * 256 + byte_to_Z lo) r = Codec.Return h' mc'
          /\ pos mc' rem /\ (h <= h')%nat
          /\ buf_ok h' (Codec.msgBuffer mc')
    end).
  { intros b r Hb Hokb Hsplit.
    pose proof (fill_body h b 0 r rem (Nat.le_0_l _) Hb Hsplit Hokb) as F.
    rewrite header. change (Z.of_nat 0) with 0 in F.
    rewrite Z.sub_0_r in F.
    destruct rem as [|y rem']; [exact F|].
    destruct F as (h' & b' & E & Hh & Hok' & Hlt & Hd & Hrem).
    exists h', (Codec.mkCodec b' 0
                  (Z.of_nat (length m) - Z.of_nat (0 + length r))).
    repeat split; auto. rewrite Hrem. constructor; assumption. }
  inversion Hpos as [b Hb Hmc Hrem|b Hb Hmc Hrem|b j Hj Hb Hmc Hrem];
    subst mc; cbn [Codec.msgBuffer] in Hok; unfold Codec.turn;
    cbn [Codec.lengthBytesRemaining Codec.msgBytesRemaining Codec.msgBuffer].
  - (* nothing of the frame was read *)
    destruct c as [|x [|y r]]; cbn [app] in Hrem.
    + rewrite read_length_nil by lia. rewrite <- Hrem.
      exists h, (Codec.mkCodec b 2 0). repeat split; auto.
      constructor; assumption.
    + injection Hrem as Hx Hrem'. subst x.
      rewrite read_length_first, read_length_nil by lia. rewrite <- Hrem'.
      exists h, (Codec.mkCodec b 1 (byte_to_Z hi * 256)).
      repeat split; auto. constructor; assumption.
    + injection Hrem as Hx Hy Hrem'. subst x y.
      rewrite read_length_first, read_length_second.
      apply Hafter; auto.
  - (* one length byte was read *)
    destruct c as [|x r]; cbn [app] in Hrem.
    + rewrite read_length_nil by
        (pose proof (byte_to_Z_range hi); lia).
      rewrite <- Hrem.
      exists h, (Codec.mkCodec b 1 (byte_to_Z hi * 256)).
      repeat split; auto. constructor; assumption.
    + injection Hrem as Hx Hrem'. subst x.
      rewrite read_length_second. apply Hafter; auto.
  - (* the length was read, and [j] bytes of the message *)
    rewrite read_length_done by lia.
    pose proof (fill_body h b j c rem (Nat.lt_le_incl _ _ Hj) Hb
                  (eq_sym Hrem) Hok) as F.
    destruct rem as [|y rem']; [exact F|].
    destruct F as (h' & b' & E & Hh & Hok' & Hlt & Hd & Hrem2).
    exists h', (Codec.mkCodec b' 0
                  (Z.of_nat (length m) - Z.of_nat (j + length c))).
    repeat split; auto. rewrite Hrem2. constructor; assumption.
Qed.

(** One call of [Decode] on a chunk of the frame: nothing for the callback
    while the frame is incomplete, the message once when the chunk ends
    the frame. *)
Lemma Decode_chunk (h : Heap) (mc : Codec.MessageCodec) (c : slice)
    (rem : list byte) :
  pos mc (elems c ++ rem) ->
  buf_ok h (Codec.msgBuffer mc) ->
  match rem with
  | [] =>
      exists a b', Codec.Decode h mc c =
        Some (S a, Codec.mkCodec b' 2 0, [mkSlice a m])
        /\ (h <= a)%nat /\ buf_ok a b' /\ buf_data b' = []
  | _ :: _ =>
      exists h' mc', Codec.Decode h mc c = Some (h', mc', [])
        /\ pos mc' rem /\ (h <= h')%nat
        /\ buf_ok h' (Codec.msgBuffer mc')
  end.
Proof.
  intros Hpos Hok. pose proof (turn_chunk h mc (elems c) rem Hpos Hok) as T.
  unfold Codec.Decode. cbn [Codec.Decode_loop].
  destruct rem as [|y rem'].
  - destruct T as (a & b' & E & Hh & Hok' & Hd).
    exists a, b'. rewrite E. unfold Codec.turn.
    cbn [Codec.lengthBytesRemaining Codec.msgBytesRemaining Codec.msgBuffer].
    rewrite read_length_nil by lia. repeat split; auto.
  - destruct T as (h' & mc' & E & Hp & Hh & Hok').
    exists h', mc'. rewrite E. repeat split; auto.
Qed.

(** Empty reads after the frame leave the codec as it is. *)
Lemma feed_idle (chunks : list slice) (h : Heap) (b : Buffer) :
  concat (map elems chunks) = [] ->
  Codec.feed h (Codec.mkCodec b 2 0) chunks =
  Some (h, Codec.mkCodec b 2 0, []).
Proof.
  induction chunks as [|c cs IH]; intros Hcat; [reflexivity|].
  cbn [map concat] in Hcat. apply app_eq_nil in Hcat as [Hc Hcs].
  cbn [Codec.feed]. unfold Codec.Decode. rewrite Hc.
  cbn [length Codec.Decode_loop]. unfold Codec.turn.
  cbn [Codec.lengthBytesRemaining Codec.msgBytesRemaining Codec.msgBuffer].
  rewrite read_length_nil by lia. rewrite (IH Hcs). reflexivity.
Qed.

(** The frame in any number of chunks. *)
Lemma feed_frame (chunks : list slice) :
  forall (h : Heap) (mc : Codec.MessageCodec) (rem : list byte),
  pos mc rem ->
  concat (map elems chunks) = rem ->
  buf_ok h (Codec.msgBuffer mc) ->
  exists a b', Codec.feed h mc chunks =
    Some (S a, Codec.mkCodec b' 2 0, [mkSlice a m])
    /\ (h <= a)%nat /\ buf_ok a b' /\ buf_data b' = [].
Proof.
  induction chunks as [|c cs IH]; intros h mc rem Hpos Hcat Hok.
  - cbn in Hcat. subst rem. destruct (pos_not_at_end mc Hpos).
  - cbn [map concat] in Hcat. subst rem.
    pose proof (Decode_chunk h mc c _ Hpos Hok) as D.
    cbn [Codec.feed].
    destruct (concat (map elems cs)) as [|y rem'] eqn:Ecs.
    + destruct D as (a & b' & E & Hh & Hok' & Hd).
      rewrite E, (feed_idle cs (S a) b' Ecs).
      exists a, b'. repeat split; auto.
    + destruct D as (h' & mc' & E & Hp & Hh & Hok').
      destruct (IH h' mc' (y :: rem') Hp eq_refl Hok')
        as (a & b' & E' & Ha & Hoka & Hd).
      rewrite E, E'. exists a, b'. repeat split; auto. lia.
Qed.
End OneFrame.

(** C2. A payload of at most 65535 bytes is encoded and the frame reaches a
    new decoder in chunks, however the frame is cut (empty chunks and chunks
    of one byte included).  Then the callback is called exactly once; the
    slice it gets holds the payload byte for byte; its array is one that
    [Decode] allocated, so it is neither the array of a chunk nor the array
    of the decoder's Buffer; and the decoder is back in its first state. *)
Theorem Decode_Encode_any_chunking
    (m : list byte) (chunks : list slice) (h : Heap) :
  Z.of_nat (length m) <= 65535 ->
  concat (map elems chunks) = Codec.Encode m ->
  Forall (fun c => (arr c < h)%nat) chunks ->
  exists h' mc' msgCopy,
    Codec.feed h Codec.NewMessageCodec chunks = Some (h', mc', [msgCopy])
    /\ elems msgCopy = m
    /\ ~ In (arr msgCopy) (map arr chunks)
    /\ buf_arr (Codec.msgBuffer mc') <> Some (arr msgCopy)
    /\ Codec.lengthBytesRemaining mc' = 2
    /\ Codec.msgBytesRemaining mc' = 0
    /\ buf_data (Codec.msgBuffer mc') = [].
Proof.
  intros Hfits Hcat Hchunks.
  destruct (Encode_header m) as (hi & lo & E & Hsum).
  rewrite Z.mod_small in Hsum by lia.
  assert (Hstart : frame_pos m hi lo Codec.NewMessageCodec (Codec.Encode m)).
  { rewrite E. apply pos_start. reflexivity. }
  destruct (feed_frame m hi lo Hfits Hsum chunks h Codec.NewMessageCodec
              (Codec.Encode m) Hstart Hcat I)
    as (a & b' & F & Ha & Hok & Hd).
  exists (S a), (Codec.mkCodec b' 2 0), (mkSlice a m).
  cbn [arr elems Codec.msgBuffer Codec.lengthBytesRemaining
       Codec.msgBytesRemaining].
  repeat split; auto.
  - intros Hin. apply in_map_iff in Hin as (c & Hc & Hin).
    rewrite Forall_forall in Hchunks. specialize (Hchunks c Hin). lia.
  - unfold buf_ok in Hok. destruct (buf_arr b') as [x|]; [|discriminate].
    intros [= Hx]. lia.
Qed.

(** The frame of "QUERY" read one byte at a time, with an empty read at the
    start. *)
Lemma Decode_Encode_any_chunking_bytewise :
  exists h' mc' msgCopy,
    Codec.feed 1%nat Codec.NewMessageCodec
      (mkSlice 0%nat []
       :: map (fun b => mkSlice 0%nat [b]) (Codec.Encode Spec.QUERY))
    = Some (h', mc', [msgCopy])
    /\ elems msgCopy = Spec.QUERY
    /\ ~ In (arr msgCopy)
         (map arr
            (mkSlice 0%nat []
             :: map (fun b => mkSlice 0%nat [b]) (Codec.Encode Spec.QUERY)))
    /\ buf_arr (Codec.msgBuffer mc') <> Some (arr msgCopy)
    /\ Codec.lengthBytesRemaining mc' = 2
    /\ Codec.msgBytesRemaining mc' = 0
    /\ buf_data (Codec.msgBuffer mc') = [].
Proof.
  apply (Decode_Encode_any_chunking Spec.QUERY
           (mkSlice 0%nat []
            :: map (fun b => mkSlice 0%nat [b]) (Codec.Encode Spec.QUERY))
           1%nat).
  - vm_compute. discriminate.
  - reflexivity.
  - repeat constructor.
Defined.

(** *** The Envelope *)

Lemma pack_layout (a b c d : byte) (port : Z) (data : list byte) :
  Envelope.pack [a; b; c; d] port data =
  [a; b; c; d] ++ PutUint16 port ++ data.
Proof.
  unfold Envelope.pack, copy_at, copy, PutUint16.
  cbn [repeat Nat.add firstn skipn length Nat.sub Nat.min app].
  rewrite !repeat_length, Nat.sub_0_r.
  rewrite (firstn_all2 (n := length data) (repeat x00 (length data)))
    by (rewrite repeat_length; lia).
  rewrite repeat_length, Nat.min_id, firstn_all.
  rewrite !skipn_all2 by (rewrite repeat_length; lia).
  rewrite !app_nil_r. reflexivity.
Qed.

Lemma unpack_layout (a b c d p0 p1 : byte) (data : list byte) :
  Envelope.unpack (a :: b :: c :: d :: p0 :: p1 :: data) =
  Some ([a; b; c; d], Uint16 [p0; p1], data).
Proof.
  unfold Envelope.unpack, sub.
  cbn [length Nat.leb andb skipn firstn Nat.sub].
  rewrite Nat.leb_refl, Nat.sub_0_r, firstn_all. reflexivity.
Qed.

Lemma PutUint16_big_endian (v : Z) :
  0 <= v < 65536 -> PutUint16 v = Spec.big_endian_u16 v.
Proof.
  intros Hv. unfold PutUint16, Spec.big_endian_u16.
  rewrite Z.shiftr_div_pow2 by lia. change (2 ^ 8) with 256.
  f_equal. f_equal. unfold Z_to_byte. rewrite Z.mod_mod by lia.
  reflexivity.
Qed.

Lemma To4_of_IPv4 (a b c d : byte) :
  To4 [a; b; c; d] = [a; b; c; d] /\ To4 (IPv4 a b c d) = [a; b; c; d].
Proof. split; reflexivity. Qed.

Lemma unpack_pack (a b c d : byte) (P : Z) (X : list byte) :
  0 <= P < 65536 ->
  Envelope.unpack (Envelope.pack [a; b; c; d] P X) = Some ([a; b; c; d], P, X).
Proof.
  intros HP. rewrite pack_layout.
  destruct (PutUint16_value P HP) as (hi & lo & E & _).
  pose proof (Uint16_PutUint16 P [] HP) as U.
  rewrite E in *. cbn [app] in *. rewrite unpack_layout, U. reflexivity.
Qed.

Lemma onReceivedMessage_pack (a b c d : byte) (P : Z) (X : list byte) :
  0 <= P < 65536 ->
  App.onReceivedMessage (Envelope.pack [a; b; c; d] P X)
  = Some [Go (QueryTask X [a; b; c; d] P)].
Proof.
  intros HP. unfold App.onReceivedMessage.
  rewrite unpack_pack by exact HP. rewrite pack_layout. reflexivity.
Qed.

(** C6. An Envelope built for the address [a.b.c.d], a 16-bit port [P] and a
    payload [X] has the address in bytes [0:4), the port big-endian in bytes
    [4:6) and [X] from byte 6 on, and parsing it gives back exactly
    [(a.b.c.d, P, X)]: this is what the handler of either relay takes from
    it.  The other way round, parsing any message of 6 bytes or more and
    building an Envelope from the three parts gives the message back. *)
Theorem Envelope_build_parse_inverse
    (a b c d : byte) (P : Z) (X msg : list byte) (s : Sock) :
  0 <= P < 65536 ->
  (6 <= length msg)%nat ->
  Envelope.pack [a; b; c; d] P X = [a; b; c; d] ++ Spec.big_endian_u16 P ++ X
  /\ Envelope.unpack (Envelope.pack [a; b; c; d] P X)
     = Some ([a; b; c; d], P, X)
  /\ App.onReceivedMessage (Envelope.pack [a; b; c; d] P X)
     = Some [Go (QueryTask X [a; b; c; d] P)]
  /\ Tuner.onMessageReceivedFromAppProxy true true s
       (Envelope.pack (To4 (IPv4 a b c d)) (uint16 P) X)
     = Some [Log LDebug "Replying to app";
             UDPDial s (mkUDPAddr (IPv4 a b c d) P);
             UDPWrite s X; UDPClose s]
  /\ exists addr p x,
       Envelope.unpack msg = Some (addr, p, x)
       /\ length addr = 4%nat /\ 0 <= p < 65536
       /\ Envelope.pack addr p x = msg.
Proof.
  intros HP Hmsg.
  pose proof (unpack_pack a b c d P X HP) as Hparse.
  assert (Hlen : (length (Envelope.pack [a; b; c; d] P X) <? 6)%nat = false).
  { rewrite pack_layout. reflexivity. }
  split; [|split; [exact Hparse|split; [|split]]].
  - rewrite pack_layout, PutUint16_big_endian by exact HP. reflexivity.
  - apply onReceivedMessage_pack. exact HP.
  - destruct (To4_of_IPv4 a b c d) as [_ ->].
    unfold uint16. rewrite Z.mod_small by lia.
    unfold Tuner.onMessageReceivedFromAppProxy.
    rewrite Hlen, Hparse. reflexivity.
  - destruct msg as [|a' [|b' [|c' [|d' [|p0 [|p1 x]]]]]];
      cbn [length] in Hmsg; try lia.
    exists [a'; b'; c'; d'], (Uint16 [p0; p1]), x.
    rewrite unpack_layout, pack_layout, PutUint16_Uint16.
    repeat split; try reflexivity.
    + cbn [Uint16]. apply Z.lor_nonneg. split.
      * apply byte_to_Z_range.
      * unfold uint16. apply Z.mod_pos_bound. lia.
    + cbn [Uint16]. unfold uint16.
      rewrite Z.shiftl_mul_pow2 by lia. change (2 ^ 8) with 256.
      pose proof (byte_to_Z_range p0). pose proof (byte_to_Z_range p1).
      rewrite Z.mod_small by lia.
      rewrite Z.lor_comm, lor_shifted_byte by lia. lia.
Qed.

(** C7. A message from the tunnel that is shorter than 6 bytes makes the
    handler of either relay log a warning and return: it does not panic, no
    task is started, nothing is sent, dialled or written, the shared
    connection is not touched, and the App-Side Relay is as it was. *)
Theorem short_message_is_logged_and_dropped
    (msg : list byte) (dial_ok write_ok : bool) (s : Sock)
    (w : App.World) (ap : App.AppProxy) :
  (length msg < 6)%nat ->
  App.onReceivedMessage msg = Some [Log LWarn "Invalid message: too short"]
  /\ App.exchange w s ap msg
     = Some (ap, [Log LWarn "Invalid message: too short"])
  /\ Tuner.onMessageReceivedFromAppProxy dial_ok write_ok s msg
     = Some [Log LWarn "Invalid message: too short"].
Proof.
  intros Hshort.
  assert (E : (length msg <? 6)%nat = true) by (apply Nat.ltb_lt; exact Hshort).
  unfold App.exchange, App.onReceivedMessage,
    Tuner.onMessageReceivedFromAppProxy.
  rewrite E. repeat split; reflexivity.
Qed.

(** The Envelope of the scenario, and a message of six bytes. *)
Lemma Envelope_build_parse_inverse_scenario :
  Envelope.unpack
    (Envelope.pack Spec.origin_address Spec.origin_port Spec.QUERY)
  = Some (Spec.origin_address, Spec.origin_port, Spec.QUERY)
  /\ exists addr p x,
       Envelope.unpack [x0a; x00; x00; x07; xfd; xe9]
       = Some (addr, p, x)
       /\ Envelope.pack addr p x = [x0a; x00; x00; x07; xfd; xe9].
Proof.
  destruct (Envelope_build_parse_inverse xc0 xa8 x01 x2a Spec.origin_port
              Spec.QUERY [x0a; x00; x00; x07; xfd; xe9] 3%nat)
    as (_ & Hparse & _ & _ & addr & p & x & Hu & _ & _ & Hp).
  - unfold Spec.origin_port. lia.
  - cbn. lia.
  - split; [exact Hparse|]. exists addr, p, x. split; assumption.
Defined.

(** A message of three bytes. *)
Lemma short_message_is_logged_and_dropped_example :
  App.exchange silent 3%nat (App.mkAppProxy (Some 1%nat)) [x01; x02; x03]
  = Some (App.mkAppProxy (Some 1%nat),
          [Log LWarn "Invalid message: too short"])
  /\ Tuner.onMessageReceivedFromAppProxy true true 3%nat [x01; x02; x03]
     = Some [Log LWarn "Invalid message: too short"].
Proof.
  destruct (short_message_is_logged_and_dropped [x01; x02; x03] true true
              3%nat silent (App.mkAppProxy (Some 1%nat)))
    as (_ & Happ & Htuner).
  - cbn. lia.
  - split; assumption.
Defined.

(** *** Runs and their events *)

Lemma tunnel_writes_app (e1 e2 : list Event) :
  Trace.tunnel_writes (e1 ++ e2)
  = Trace.tunnel_writes e1 ++ Trace.tunnel_writes e2.
Proof.
  induction e1 as [|e e1 IH]; [reflexivity|].
  destruct e; cbn [app Trace.tunnel_writes]; rewrite IH; reflexivity.
Qed.

Lemma callbacks_app (e1 e2 : list Event) :
  Trace.callbacks (e1 ++ e2) = Trace.callbacks e1 ++ Trace.callbacks e2.
Proof.
  induction e1 as [|e e1 IH]; [reflexivity|].
  destruct e; cbn [app Trace.callbacks]; rewrite IH; reflexivity.
Qed.

Lemma udp_readers_app (e1 e2 : list Event) :
  Trace.udp_readers (e1 ++ e2)
  = Trace.udp_readers e1 ++ Trace.udp_readers e2.
Proof.
  induction e1 as [|e e1 IH]; [reflexivity|].
  destruct e; cbn [app Trace.udp_readers]; rewrite IH; reflexivity.
Qed.

Lemma udp_writers_app (e1 e2 : list Event) :
  Trace.udp_writers (e1 ++ e2)
  = Trace.udp_writers e1 ++ Trace.udp_writers e2.
Proof.
  induction e1 as [|e e1 IH]; [reflexivity|].
  destruct e; cbn [app Trace.udp_writers]; rewrite IH; reflexivity.
Qed.

(** *** The App-Side Relay: the query task *)

Lemma read_into_length (buf d : list byte) :
  length (read_into buf d) = length buf.
Proof.
  unfold read_into, copy.
  rewrite length_app, length_firstn, length_skipn. lia.
Qed.

Lemma read_into_prefix (buf d : list byte) :
  firstn (Nat.min (length buf) (length d)) (read_into buf d)
  = firstn (length buf) d.
Proof.
  unfold read_into, copy.
  set (n := Nat.min (length buf) (length d)).
  assert (Hn : length (firstn n d) = n)
    by (rewrite length_firstn; unfold n; lia).
  rewrite <- Hn at 1. rewrite firstn_app, Nat.sub_diag, firstn_all.
  cbn [firstn]. rewrite app_nil_r.
  unfold n. destruct (Nat.le_ge_cases (length buf) (length d)) as [H|H].
  - rewrite Nat.min_l by exact H. reflexivity.
  - rewrite Nat.min_r by exact H. rewrite !firstn_all2 by lia. reflexivity.
Qed.

Lemma read_responses_callbacks (listener : Sock) (last : ReadEnd)
    (datagrams : list (list byte)) :
  forall buf, (0 < length buf)%nat ->
  Trace.callbacks (App.read_responses listener buf datagrams last)
  = handed_over (length buf) datagrams.
Proof.
  induction datagrams as [|d ds IH]; intros buf Hbuf.
  - destruct last; reflexivity.
  - cbn [App.read_responses Trace.callbacks].
    rewrite callbacks_app, IH, read_into_length, read_into_prefix
      by (rewrite read_into_length; exact Hbuf).
    unfold handed_over. cbn [map filter].
    rewrite length_firstn.
    destruct (Nat.ltb_spec 0 (Nat.min (length buf) (length d))) as [H|H].
    + reflexivity.
    + assert (length d = 0%nat) by lia.
      destruct d; [reflexivity|discriminate].
Qed.

Lemma read_responses_sockets (listener : Sock) (last : ReadEnd)
    (datagrams : list (list byte)) :
  forall buf,
  Forall (eq listener)
    (Trace.udp_readers (App.read_responses listener buf datagrams last))
  /\ Trace.udp_writers (App.read_responses listener buf datagrams last) = []
  /\ Trace.tunnel_writes (App.read_responses listener buf datagrams last)
     = [].
Proof.
  induction datagrams as [|d ds IH]; intros buf.
  - destruct last; cbn; repeat split; repeat constructor.
  - cbn [App.read_responses Trace.udp_readers Trace.udp_writers
         Trace.tunnel_writes].
    rewrite udp_readers_app, udp_writers_app, tunnel_writes_app.
    destruct (IH (read_into buf d)) as (Hr & Hw & Ht). rewrite Hw, Ht.
    destruct (0 <? Nat.min (length buf) (length d))%nat; cbn;
      repeat split; constructor; auto.
Qed.

(** What a query task does with sockets: it sends the query on the socket
    numbered [s], and every read is on the next socket, the one [ListenUDP]
    made; the callback gets what that socket receives. *)
Lemma queryTuner_sockets (w : App.World) (s : Sock) (queryData : list byte) :
  listening w = true ->
  Trace.udp_writers (App.queryTuner w s queryData) = [s]
  /\ Forall (eq (S s)) (Trace.udp_readers (App.queryTuner w s queryData))
  /\ Trace.callbacks (App.queryTuner w s queryData)
     = handed_over UDPReadBufferSize (fst (App.inbox w (S s))).
Proof.
  unfold listening, App.queryTuner.
  destruct (App.resolve_ok w), (App.dial_ok w), (App.write_ok w),
    (App.resolve_listen_ok w), (App.listen_ok w); try discriminate.
  intros _. cbn [negb Trace.udp_writers Trace.udp_readers Trace.callbacks].
  rewrite udp_writers_app, udp_readers_app, callbacks_app.
  destruct (read_responses_sockets (S s) (snd (App.inbox w (S s)))
              (fst (App.inbox w (S s))) (repeat x00 UDPReadBufferSize))
    as (Hr & Hw & _).
  rewrite Hw, read_responses_callbacks
    by (rewrite repeat_length; unfold UDPReadBufferSize; lia).
  rewrite repeat_length. cbn [app Trace.udp_readers Trace.callbacks].
  rewrite !app_nil_r. repeat split; auto.
Qed.

Lemma queryTuner_quiet (w : App.World) (s : Sock) (queryData : list byte) :
  Trace.tunnel_writes (App.queryTuner w s queryData) = []
  /\ (listening w = false ->
      Trace.callbacks (App.queryTuner w s queryData) = []).
Proof.
  unfold listening, App.queryTuner.
  destruct (App.resolve_ok w), (App.dial_ok w), (App.write_ok w),
    (App.resolve_listen_ok w), (App.listen_ok w);
    cbn [negb andb Trace.tunnel_writes Trace.callbacks];
    try (split; [reflexivity|intros _; reflexivity]).
  rewrite tunnel_writes_app.
  destruct (read_responses_sockets (S s) (snd (App.inbox w (S s)))
              (fst (App.inbox w (S s))) (repeat x00 UDPReadBufferSize))
    as (_ & _ & Ht).
  rewrite Ht. split; [reflexivity|discriminate].
Qed.

(** C1 (the code departs from the claim). The query goes out as a broadcast
    to port 65001 on a new socket, here socket 7; the task then makes a
    second socket, 8, and reads on that one only.  A device's answer that
    arrives on socket 7 within the timeout is never read: the callback is
    not called and nothing is written to the tunnel. *)
Theorem queryTuner_reads_on_a_second_socket :
  firstn 2 (App.queryTuner answered_on_sender 7%nat Spec.QUERY)
  = [UDPDial 7%nat broadcastAddr; UDPWrite 7%nat Spec.QUERY]
  /\ Trace.udp_writers (App.queryTuner answered_on_sender 7%nat Spec.QUERY)
     = [7%nat]
  /\ Trace.udp_readers (App.queryTuner answered_on_sender 7%nat Spec.QUERY)
     = [8%nat]
  /\ Trace.callbacks (App.queryTuner answered_on_sender 7%nat Spec.QUERY)
     = []
  /\ App.exchange answered_on_sender 7%nat (App.mkAppProxy (Some 1%nat))
       (Envelope.pack Spec.origin_address Spec.origin_port Spec.QUERY)
     = Some (App.mkAppProxy (Some 1%nat),
             App.queryTuner answered_on_sender 7%nat Spec.QUERY)
  /\ Trace.tunnel_writes
       (App.queryTuner answered_on_sender 7%nat Spec.QUERY) = [].
Proof. vm_compute. repeat split; reflexivity. Qed.

(** *** The App-Side Relay: replies *)

Lemma run_task_replies (w : App.World) (sourceAddr : list byte)
    (sourcePort : Z) (task : list Event) :
  forall ap,
  Trace.tunnel_writes task = [] ->
  fst (App.run_task w ap sourceAddr sourcePort task)
  = fst (reply_all w ap sourceAddr sourcePort (Trace.callbacks task))
  /\ Trace.tunnel_writes (snd (App.run_task w ap sourceAddr sourcePort task))
     = Trace.tunnel_writes
         (snd (reply_all w ap sourceAddr sourcePort (Trace.callbacks task))).
Proof.
  induction task as [|e task IH]; intros ap Hquiet; [split; reflexivity|].
  destruct e; cbn [Trace.tunnel_writes] in Hquiet; try discriminate;
    cbn [App.run_task Trace.callbacks reply_all];
    try (destruct (IH ap Hquiet) as [IH1 IH2];
         destruct (App.run_task w ap sourceAddr sourcePort task) as [ap2 ev2];
         cbn [fst snd Trace.tunnel_writes] in *; split; assumption).
  destruct (App.reply w ap sourceAddr sourcePort data) as [ap1 ev1].
  destruct (IH ap1 Hquiet) as [IH1 IH2].
  destruct (App.run_task w ap1 sourceAddr sourcePort task) as [ap2 ev2].
  destruct (reply_all w ap1 sourceAddr sourcePort (Trace.callbacks task))
    as [ap3 ev3].
  cbn [fst snd] in *. rewrite !tunnel_writes_app, IH2. split; [exact IH1|].
  reflexivity.
Qed.


Lemma handed_over_one (answer : list byte) :
  (0 < length answer <= UDPReadBufferSize)%nat ->
  handed_over UDPReadBufferSize [answer] = [answer].
Proof.
  intros H. unfold handed_over. cbn [map filter].
  rewrite firstn_all2 by lia.
  destruct (Nat.ltb_spec 0 (length answer)); [reflexivity|lia].
Qed.

(** C4 (the code departs from the claim). The App-Side Relay holds
    connection 1 and gets the Envelope [(192.168.1.42, 54321, "QUERY")]
    from the tunnel; the query leaves on socket 7 and the task reads on
    socket 8.  When no device responds, nothing is written to the tunnel,
    as the claim says.  When a device replies "ANSWER" within the timeout
    to where the query came from, socket 7, nothing is written either: the
    datagram is never read and no reply Envelope is emitted, where the
    claim has exactly one.  What [reply] does with a response is as
    claimed: the same datagram on socket 8 gives exactly one write to
    connection 1, the frame of the Envelope
    [(192.168.1.42, 54321, "ANSWER")] byte for byte, and with no connection
    held the reply is dropped. *)
Theorem device_answer_is_not_relayed :
  option_map (fun r => Trace.tunnel_writes (snd r))
    (App.exchange silent 7%nat (App.mkAppProxy (Some 1%nat))
       [xc0; xa8; x01; x2a; xd4; x31; x51; x55; x45; x52; x59])
  = Some []
  /\ option_map
       (fun r => (Trace2.udp_sends (snd r), Trace.udp_readers (snd r),
                  Trace.callbacks (snd r), Trace.tunnel_writes (snd r)))
       (App.exchange answered_on_sender 7%nat (App.mkAppProxy (Some 1%nat))
          [xc0; xa8; x01; x2a; xd4; x31; x51; x55; x45; x52; x59])
     = Some ([(7%nat, [x51; x55; x45; x52; x59])], [8%nat], [], [])
  /\ option_map (fun r => Trace.tunnel_writes (snd r))
       (App.exchange (world_of (answer_to 8%nat Spec.ANSWER)) 7%nat
          (App.mkAppProxy (Some 1%nat))
          [xc0; xa8; x01; x2a; xd4; x31; x51; x55; x45; x52; x59])
     = Some [(1%nat,
              [x00; x0c; xc0; xa8; x01; x2a; xd4; x31;
               x41; x4e; x53; x57; x45; x52])]
  /\ option_map (fun r => Trace.tunnel_writes (snd r))
       (App.exchange (world_of (answer_to 8%nat Spec.ANSWER)) 7%nat
          App.NewAppProxy
          [xc0; xa8; x01; x2a; xd4; x31; x51; x55; x45; x52; x59])
     = Some []
  /\ Spec.ANSWER = [x41; x4e; x53; x57; x45; x52].
Proof. vm_compute. repeat split; reflexivity. Qed.

(** *** The App-Side Relay: the connection it holds *)

Lemma read_error_clears_whatever_is_held (ap : App.AppProxy) (conn : Conn) :
  fst (App.handleTunerProxyConnection_read_error ap conn)
  = App.mkAppProxy None.
Proof. reflexivity. Qed.

(** C3 (the code departs from the claim). Connection 1 is accepted, then
    connection 2 replaces it.  While 2 is held, the read loop of the
    abandoned connection 1 fails: the relay then holds no connection, though
    connection 2 had no error and its read loop is still running, and a
    reply that comes next is dropped instead of written to connection 2. *)
Theorem read_error_of_replaced_connection_clears_held :
  App.proxy
    (fst (App.run silent App.nothing_accepted
            [App.Accept 1%nat; App.Accept 2%nat]))
  = App.mkAppProxy (Some 2%nat)
  /\ fst (App.run silent App.nothing_accepted
            [App.Accept 1%nat; App.Accept 2%nat; App.ReadError 1%nat])
     = App.mkSystem (App.mkAppProxy None) [2%nat]
  /\ Trace.tunnel_writes
       (snd (App.run silent App.nothing_accepted
               [App.Accept 1%nat; App.Accept 2%nat;
                App.Reply Spec.origin_address Spec.origin_port Spec.ANSWER]))
     = [(2%nat,
         Codec.Encode
           (Envelope.pack Spec.origin_address Spec.origin_port Spec.ANSWER))]
  /\ Trace.tunnel_writes
       (snd (App.run silent App.nothing_accepted
               [App.Accept 1%nat; App.Accept 2%nat; App.ReadError 1%nat;
                App.Reply Spec.origin_address Spec.origin_port Spec.ANSWER]))
     = [].
Proof. vm_compute. repeat split; reflexivity. Qed.

(** *** The Client-Side Relay: dialling *)

Lemma lookup_message_is_longer (host server : string) :
  String.eqb (Error (DNSError "no such host" host server)) "no such host"
  = false.
Proof. reflexivity. Qed.

(** The ticker ends the process exactly when the dial fails with an
    [OpError] whose inner error prints as "no such host", nothing more. *)
Lemma tick_exits_iff (tp : Tuner.TunerProxy) (host : string) (e : error) :
  Tuner.tcpTransport tp = None ->
  In (Exit 1) (snd (Tuner.tick tp host (DialFailed e)))
  <-> exists op net source addr inner,
        e = OpError op net source addr inner
        /\ Error inner = "no such host"%string.
Proof.
  intros Hnone. unfold Tuner.tick, Tuner.getTCPTransport.
  rewrite Hnone. cbn [Tuner.connectToAppProxy snd app].
  split.
  - intros Hin.
    repeat (destruct Hin as [Hin|Hin]; [discriminate|]).
    destruct e as [| op net source addr inner |];
      try (cbn in Hin; contradiction).
    destruct (String.eqb_spec (Error inner) "no such host") as [E|E].
    + exists op, net, source, addr, inner. split; [reflexivity|exact E].
    + cbn in Hin. contradiction.
  - intros (op & net & source & addr & inner & -> & E).
    rewrite E. cbn. auto 10.
Qed.

(** A dial that fails leaves the relay disconnected, and the next tick
    dials again. *)
Lemma failed_dial_is_retried (tp : Tuner.TunerProxy) (host : string)
    (e : error) (r : DialResult) :
  Tuner.tcpTransport tp = None ->
  fst (Tuner.tick tp host (DialFailed e)) = tp
  /\ In (TCPDial host TCPPort)
       (snd (Tuner.tick (fst (Tuner.tick tp host (DialFailed e))) host r)).
Proof.
  intros Hnone.
  assert (Hst : fst (Tuner.tick tp host (DialFailed e)) = tp).
  { unfold Tuner.tick, Tuner.getTCPTransport. rewrite Hnone. reflexivity. }
  split; [exact Hst|]. rewrite Hst.
  unfold Tuner.tick, Tuner.getTCPTransport. rewrite Hnone.
  destruct r as [c|e']; cbn; auto 10.
Qed.

(** C5 (the code departs from the claim). The remote host has no address:
    [net.Dial] fails with the resolver's error inside an [OpError], and the
    inner error prints as "lookup <host>: no such host".  The ticker
    compares that text with "no such host", finds them different, and goes
    on: the process does not exit, the relay stays disconnected and dials
    again at the next tick. *)
Theorem unresolvable_host_does_not_exit (host server : string) :
  Tuner.tick Tuner.NewTunerProxy host
    (DialFailed (dial_no_such_host host server))
  = (Tuner.NewTunerProxy,
     [Lock; Load None; Unlock;
      Log LInfo "Connecting to app proxy";
      TCPDial host TCPPort;
      Log LError "Failed to connect to app proxy"]).
Proof. reflexivity. Qed.

(** *** The Client-Side Relay: captured datagrams *)

(** The read followed at once by the test is [Tuner.capture]. *)
Lemma capture_is_read_then_test (tp : Tuner.TunerProxy) (buf : list byte)
    (dg : Tuner.Datagram) :
  Tuner.capture tp buf dg
  = (read_into buf (Tuner.payload dg),
     UDPRead Tuner.udpTransport
       :: fst (CaptureLoop.test tp (read_into buf (Tuner.payload dg))
                 (Nat.min (length buf) (length (Tuner.payload dg)))
                 (Tuner.remoteAddr dg)),
     match snd (CaptureLoop.test tp (read_into buf (Tuner.payload dg))
                  (Nat.min (length buf) (length (Tuner.payload dg)))
                  (Tuner.remoteAddr dg)) with
     | CaptureLoop.AtSend encodedMsg => Some encodedMsg
     | _ => None
     end).
Proof.
  unfold Tuner.capture, CaptureLoop.test, Tuner.getTCPTransport.
  destruct (Tuner.tcpTransport tp); [|reflexivity].
  destruct (0 <? Nat.min (length buf) (length (Tuner.payload dg)))%nat;
    reflexivity.
Qed.

Lemma test_ignores_stale (tp : Tuner.TunerProxy) (b1 b2 : list byte)
    (n : nat) (remoteAddr : UDPAddr) :
  firstn n b1 = firstn n b2 ->
  CaptureLoop.test tp b1 n remoteAddr = CaptureLoop.test tp b2 n remoteAddr.
Proof. intros H. unfold CaptureLoop.test. rewrite H. reflexivity. Qed.

Lemma step_ignores_stale (host : string) (s1 s2 : CaptureLoop.System)
    (i : CaptureLoop.Input) :
  same_but_stale s1 s2 ->
  match CaptureLoop.step host s1 i, CaptureLoop.step host s2 i with
  | Some (s1', ev1), Some (s2', ev2) => ev1 = ev2 /\ same_but_stale s1' s2'
  | None, None => True
  | _, _ => False
  end.
Proof.
  intros (Hp & Hq & Hl & Hb). destruct s1 as [p1 b1 q1], s2 as [p2 b2 q2].
  cbn [CaptureLoop.proxy CaptureLoop.pos CaptureLoop.buf] in *. subst p2 q2.
  destruct i as [r|conn|dg| | |ok];
    cbn [CaptureLoop.step CaptureLoop.proxy CaptureLoop.pos CaptureLoop.buf].
  - destruct (Tuner.tick p1 host r) as [tp ev].
    split; [reflexivity|]. repeat split; assumption.
  - destruct (Tuner.read_loop_error p1 conn) as [tp ev].
    split; [reflexivity|]. repeat split; assumption.
  - destruct q1; try exact I. unfold CaptureLoop.read. rewrite Hl.
    split; [reflexivity|]. split; [reflexivity|]. split; [reflexivity|].
    cbn [CaptureLoop.buf CaptureLoop.pos].
    split; [rewrite !read_into_length; exact Hl|].
    rewrite <- Hl at 1. rewrite !read_into_prefix, Hl. reflexivity.
  - destruct q1; try exact I.
    split; [reflexivity|]. repeat split; assumption.
  - destruct q1 as [|n a|m]; try exact I.
    rewrite (test_ignores_stale p1 b1 b2 n a Hb).
    destruct (CaptureLoop.test p1 b2 n a) as [ev q] eqn:E.
    split; [reflexivity|]. split; [reflexivity|]. split; [reflexivity|].
    split; [exact Hl|].
    cbn [CaptureLoop.pos]. unfold CaptureLoop.test, Tuner.getTCPTransport in E.
    destruct (Tuner.tcpTransport p1);
      [destruct (0 <? n)%nat|]; injection E as _ <-; exact I.
  - destruct q1 as [| |m]; try exact I.
    destruct (Tuner.send p1 ok m) as [tp ev].
    split; [reflexivity|]. repeat split; assumption.
Qed.

Lemma run_ignores_stale (host : string) (inputs : list CaptureLoop.Input) :
  forall s1 s2, same_but_stale s1 s2 ->
  option_map snd (CaptureLoop.run host s1 inputs)
  = option_map snd (CaptureLoop.run host s2 inputs).
Proof.
  induction inputs as [|i rest IH]; intros s1 s2 Hs; [reflexivity|].
  cbn [CaptureLoop.run].
  pose proof (step_ignores_stale host s1 s2 i Hs) as St.
  destruct (CaptureLoop.step host s1 i) as [[s1' ev1]|],
           (CaptureLoop.step host s2 i) as [[s2' ev2]|]; try contradiction;
    [|reflexivity].
  destruct St as [-> Hs']. specialize (IH s1' s2' Hs').
  destruct (CaptureLoop.run host s1' rest) as [[t1 e1]|],
           (CaptureLoop.run host s2' rest) as [[t2 e2]|];
    cbn [option_map snd] in *; congruence.
Qed.

(** C8, as the claim has it, fails: the relay is Disconnected when the
    capture loop reads "QUERY" from 192.168.1.42:54321, and still is after
    the read; the dial loop then connects, to connection 1; the capture
    loop tests the connection only now, finds it, and writes the frame of
    the datagram to connection 1.  No lock is held from [ReadFromUDP] to
    the test, so the dial loop can take its step between them. *)
Lemma datagram_read_before_connecting_is_forwarded :
  Tuner.tcpTransport (CaptureLoop.proxy CaptureLoop.start) = None
  /\ option_map
       (fun r => (Tuner.tcpTransport (CaptureLoop.proxy (fst r)),
                  Trace.tunnel_writes (snd r)))
       (CaptureLoop.run "app-proxy.local" CaptureLoop.start
          [CaptureLoop.Read early])
     = Some (None, [])
  /\ option_map (fun r => Trace.tunnel_writes (snd r))
       (CaptureLoop.run "app-proxy.local" CaptureLoop.start
          [CaptureLoop.Read early; CaptureLoop.Tick (Dialed 1%nat);
           CaptureLoop.Test; CaptureLoop.Send true])
     = Some [(1%nat,
              [x00; x0b; xc0; xa8; x01; x2a; xd4; x31;
               x51; x55; x45; x52; x59])]
  /\ Tuner.payload early = [x51; x55; x45; x52; x59].
Proof. vm_compute. repeat split; reflexivity. Qed.

(** C8, amended. The capture loop has read a datagram and, testing the
    shared connection after the read, finds that the relay holds none.  The
    datagram is dropped at once: the test writes nothing to the tunnel and
    the loop goes back to its read with no message to send.  And it is not
    kept for later: whatever happens next (ticks that connect, other
    datagrams, tests, sends, read errors), the relay does exactly what a
    relay does whose buffer holds any other bytes, those from before the
    read for one, so nothing of the datagram is written after the relay
    connects. *)
Theorem datagram_found_disconnected_is_discarded
    (host : string) (sys : CaptureLoop.System) (n : nat)
    (remoteAddr : UDPAddr) (stale : list byte)
    (later : list CaptureLoop.Input) :
  Tuner.tcpTransport (CaptureLoop.proxy sys) = None ->
  CaptureLoop.pos sys = CaptureLoop.AtTest n remoteAddr ->
  length stale = length (CaptureLoop.buf sys) ->
  exists sys',
    CaptureLoop.step host sys CaptureLoop.Test
    = Some (sys', [Lock; Load None; Unlock])
    /\ CaptureLoop.proxy sys' = CaptureLoop.proxy sys
    /\ CaptureLoop.pos sys' = CaptureLoop.AtRead
    /\ option_map snd (CaptureLoop.run host sys' later)
       = option_map snd
           (CaptureLoop.run host
              (CaptureLoop.mkSystem (CaptureLoop.proxy sys) stale
                 CaptureLoop.AtRead)
              later).
Proof.
  intros Hnone Hpos Hlen. destruct sys as [tp b q].
  cbn [CaptureLoop.proxy CaptureLoop.pos CaptureLoop.buf] in *. subst q.
  cbn [CaptureLoop.step CaptureLoop.pos CaptureLoop.proxy CaptureLoop.buf].
  unfold CaptureLoop.test, Tuner.getTCPTransport. rewrite Hnone.
  eexists. split; [reflexivity|].
  cbn [CaptureLoop.proxy CaptureLoop.pos]. split; [reflexivity|].
  split; [reflexivity|].
  apply run_ignores_stale. split; [reflexivity|]. split; [reflexivity|].
  cbn [CaptureLoop.buf CaptureLoop.pos]. split; [symmetry; exact Hlen|exact I].
Qed.

(** "QUERY" is read and found while disconnected; the relay then connects
    and forwards "ANSWER", as a relay does that never read "QUERY". *)
Lemma datagram_found_disconnected_is_discarded_example :
  exists sys',
    CaptureLoop.step "app-proxy.local"
      (CaptureLoop.mkSystem Tuner.NewTunerProxy
         (read_into (repeat x00 UDPReadBufferSize) Spec.QUERY)
         (CaptureLoop.AtTest 5
            (mkUDPAddr Spec.origin_address Spec.origin_port)))
      CaptureLoop.Test
    = Some (sys', [Lock; Load None; Unlock])
    /\ CaptureLoop.proxy sys' = Tuner.NewTunerProxy
    /\ CaptureLoop.pos sys' = CaptureLoop.AtRead
    /\ option_map snd
         (CaptureLoop.run "app-proxy.local" sys'
            [CaptureLoop.Tick (Dialed 1%nat); CaptureLoop.Read late;
             CaptureLoop.Test; CaptureLoop.Send true])
       = option_map snd
           (CaptureLoop.run "app-proxy.local" CaptureLoop.start
              [CaptureLoop.Tick (Dialed 1%nat); CaptureLoop.Read late;
               CaptureLoop.Test; CaptureLoop.Send true]).
Proof.
  apply (datagram_found_disconnected_is_discarded "app-proxy.local"
           (CaptureLoop.mkSystem Tuner.NewTunerProxy
              (read_into (repeat x00 UDPReadBufferSize) Spec.QUERY)
              (CaptureLoop.AtTest 5
                 (mkUDPAddr Spec.origin_address Spec.origin_port)))
           5%nat (mkUDPAddr Spec.origin_address Spec.origin_port)
           (repeat x00 UDPReadBufferSize)
           [CaptureLoop.Tick (Dialed 1%nat); CaptureLoop.Read late;
            CaptureLoop.Test; CaptureLoop.Send true]).
  - reflexivity.
  - reflexivity.
  - cbn [CaptureLoop.buf]. symmetry. apply read_into_length.
Defined.

(** The same in one run: read and tested while disconnected, "QUERY" is
    not written; "ANSWER", read after the relay connects, is. *)
Example found_disconnected_then_connected :
  option_map (fun r => Trace.tunnel_writes (snd r))
    (CaptureLoop.run "app-proxy.local" CaptureLoop.start
       [CaptureLoop.Read early; CaptureLoop.Test;
        CaptureLoop.Tick (Dialed 1%nat); CaptureLoop.Read late;
        CaptureLoop.Test; CaptureLoop.Send true])
  = Some [(1%nat,
           [x00; x0c; xc0; xa8; x01; x2a; xd4; x31;
            x41; x4e; x53; x57; x45; x52])].
Proof. vm_compute. reflexivity. Qed.

Example forwarded_after_connecting :
  option_map (fun r => Trace.tunnel_writes (snd r))
    (Tuner.run "app-proxy.local" Tuner.start
       (Tuner.Captured early :: connect_then_forward))
  = Some [(1%nat,
           Codec.Encode
             (Envelope.pack Spec.origin_address Spec.origin_port
                Spec.ANSWER))].
Proof. vm_compute. reflexivity. Qed.

(** *** The mutex of the connection *)

(** C9, as the claim has it, fails on [reply] of the App-Side Relay: with a
    connection held, the write to the tunnel happens between [Lock] and
    [Unlock].  And [closeTCP] of the Client-Side Relay closes the connection
    between [Lock] and [Unlock], which is more than reading or replacing the
    reference. *)
Lemma reply_writes_with_mutex_held :
  snd (App.reply silent (App.mkAppProxy (Some 1%nat))
         Spec.origin_address Spec.origin_port Spec.ANSWER)
  = [Lock; Load (Some 1%nat);
     TCPWrite 1%nat
       (Codec.Encode
          (Envelope.pack Spec.origin_address Spec.origin_port Spec.ANSWER));
     Unlock]
  /\ Trace.no_blocking_under_lock false
       (snd (App.reply silent (App.mkAppProxy (Some 1%nat))
               Spec.origin_address Spec.origin_port Spec.ANSWER))
     = false
  /\ Trace.lock_for_access_only false
       (snd (Tuner.closeTCP (Tuner.mkTunerProxy (Some 1%nat))))
     = false.
Proof. vm_compute. repeat split; reflexivity. Qed.

(** C9, amended. Every access to the shared connection is made with the
    mutex held, in both relays.  In the Client-Side Relay and in the accept
    and read loop of the App-Side Relay the mutex is never held across a
    dial, a read or a write: it covers the load or the store of the
    reference only, and in [closeTCP] the close of the connection as well.
    [reply] of the App-Side Relay holds the mutex from its first statement
    to its return, the write to the tunnel included. *)
Theorem mutex_scope_by_relay
    (tp : Tuner.TunerProxy) (ap : App.AppProxy) (conn : Conn)
    (host : string) (r : DialResult) (buf : list byte)
    (dg : Tuner.Datagram) (ok : bool) (msg : list byte) (w : App.World)
    (sourceAddr : list byte) (sourcePort : Z) (replyData : list byte) :
  Forall (fun t => Trace.guarded false t = true
                   /\ Trace.no_blocking_under_lock false t = true)
    (client_side tp conn host r buf dg ok msg ++ app_side_loop ap conn)
  /\ Forall (fun t => Trace.lock_for_access_only false t = true)
       (client_side_accessors tp conn host r buf dg msg
        ++ app_side_loop ap conn)
  /\ snd (Tuner.closeTCP (Tuner.mkTunerProxy (Some conn)))
     = [Lock; Load (Some conn); TCPClose conn; Store None; Unlock]
  /\ Trace.guarded false
       (snd (App.reply w ap sourceAddr sourcePort replyData)) = true
  /\ Trace.held_throughout
       (snd (App.reply w ap sourceAddr sourcePort replyData)) = true
  /\ Trace.no_blocking_under_lock false
       (snd (App.reply w (App.mkAppProxy (Some conn))
               sourceAddr sourcePort replyData)) = false.
Proof.
  assert (Htick : forall t, t = snd (Tuner.tick tp host r) ->
            Trace.guarded false t = true
            /\ Trace.no_blocking_under_lock false t = true
            /\ Trace.lock_for_access_only false t = true).
  { intros t ->. unfold Tuner.tick, Tuner.getTCPTransport.
    destruct (Tuner.tcpTransport tp) as [c|]; [repeat split; reflexivity|].
    destruct r as [c|e]; [repeat split; reflexivity|].
    destruct e as [| op net source addr inner |];
      try (repeat split; reflexivity).
    cbn [Tuner.connectToAppProxy snd app].
    destruct (String.eqb (Error inner) "no such host");
      repeat split; reflexivity. }
  destruct (Htick _ eq_refl) as (Ht1 & Ht2 & Ht3).
  assert (Hcap : forall t, t = snd (fst (Tuner.capture tp buf dg)) ->
            Trace.guarded false t = true
            /\ Trace.no_blocking_under_lock false t = true
            /\ Trace.lock_for_access_only false t = true).
  { intros t ->. unfold Tuner.capture, Tuner.getTCPTransport.
    destruct (Tuner.tcpTransport tp) as [c|]; [|repeat split; reflexivity].
    destruct (0 <? Nat.min (length buf) (length (Tuner.payload dg)))%nat;
      repeat split; reflexivity. }
  destruct (Hcap _ eq_refl) as (Hc1 & Hc2 & Hc3).
  split; [|split; [|split; [reflexivity|]]].
  - unfold client_side, app_side_loop. cbn [app].
    repeat (apply Forall_cons); try apply Forall_nil;
      try (split; assumption);
      destruct tp as [[c|]]; try destruct ok; split; reflexivity.
  - unfold client_side_accessors, app_side_loop. cbn [app].
    repeat (apply Forall_cons); try apply Forall_nil; try assumption;
      destruct tp as [[c|]]; reflexivity.
  - assert (Hreply : forall ap0,
      Trace.guarded false
        (snd (App.reply w ap0 sourceAddr sourcePort replyData)) = true
      /\ Trace.held_throughout
           (snd (App.reply w ap0 sourceAddr sourcePort replyData)) = true
      /\ (App.tcpTransport ap0 <> None ->
          Trace.no_blocking_under_lock false
            (snd (App.reply w ap0 sourceAddr sourcePort replyData)) = false)).
    { intros ap0. unfold App.reply.
      destruct (App.tcpTransport ap0) as [c|].
      - destruct (App.tcp_write_ok w c
                    (Codec.Encode
                       (Envelope.pack sourceAddr sourcePort replyData)));
          repeat split; reflexivity.
      - repeat split; try reflexivity. intros H. destruct (H eq_refl). }
    split; [apply Hreply|split; [apply Hreply|]].
    apply Hreply. discriminate.
Qed.

(** ** Part III: more of the code *)

(** *** The codec on any stream *)

Lemma frames_run_app (d1 d2 : list byte) :
  forall p,
  Frames.run p (d1 ++ d2)
  = (fst (Frames.run (fst (Frames.run p d1)) d2),
     snd (Frames.run p d1) ++ snd (Frames.run (fst (Frames.run p d1)) d2)).
Proof.
  induction d1 as [|b d1 IH]; intros p.
  - cbn. destruct (Frames.run p d2). reflexivity.
  - cbn [app Frames.run]. destruct (Frames.step p b) as [p1 o1].
    rewrite (IH p1).
    destruct (Frames.run p1 d1) as [p2 o2]. cbn [fst snd].
    rewrite app_assoc. reflexivity.
Qed.

(** A payload of which [k] bytes are missing, then [rest]: the message when
    [rest] has them all, the bytes kept otherwise. *)
Lemma frames_run_body (rest : list byte) :
  forall k acc, (0 < k)%nat ->
  Frames.run (Frames.InBody k acc) rest
  = if (length rest <? k)%nat
    then (Frames.InBody (k - length rest) (acc ++ rest), [])
    else (fst (Frames.run Frames.AtStart (skipn k rest)),
          (acc ++ firstn k rest)
            :: snd (Frames.run Frames.AtStart (skipn k rest))).
Proof.
  induction rest as [|b rest IH]; intros k acc Hk.
  - cbn [Frames.run length]. destruct (Nat.ltb_spec 0 k); [|lia].
    rewrite Nat.sub_0_r, app_nil_r. reflexivity.
  - cbn [Frames.run Frames.step length].
    destruct k as [|[|k]]; [lia| |].
    + cbn [Nat.ltb Nat.leb skipn firstn].
      destruct (Frames.run Frames.AtStart rest) as [p o]. reflexivity.
    + rewrite IH by lia.
      change (S (length rest) <? S (S k))%nat with (length rest <? S k)%nat.
      destruct (Nat.ltb_spec (length rest) (S k)).
      * cbn [app Nat.sub]. rewrite <- app_assoc. reflexivity.
      * cbn [app skipn firstn fst snd]. rewrite <- app_assoc. reflexivity.
Qed.

(** The two length bytes [hi], [lo] and then [rest]. *)
Lemma frames_run_header (hi lo : byte) (rest : list byte) :
  Frames.run Frames.AtStart (hi :: lo :: rest)
  = match Z.to_nat (byte_to_Z hi * 256 + byte_to_Z lo) with
    | O => (fst (Frames.run Frames.AtStart rest),
            [] :: snd (Frames.run Frames.AtStart rest))
    | S k => Frames.run (Frames.InBody (S k) []) rest
    end.
Proof.
  cbn [Frames.run Frames.step].
  destruct (Z.to_nat (byte_to_Z hi * 256 + byte_to_Z lo)).
  - destruct (Frames.run Frames.AtStart rest). reflexivity.
  - destruct (Frames.run (Frames.InBody (S n) []) rest). reflexivity.
Qed.

Lemma allocated_in_nil (h h' : Heap) : allocated_in h h' [].
Proof. split; constructor. Qed.

Lemma allocated_in_widen (h0 h h' h1 : Heap) (out : list slice) :
  (h0 <= h)%nat -> (h' <= h1)%nat ->
  allocated_in h h' out -> allocated_in h0 h1 out.
Proof.
  intros H0 H1 [Hf Hn]. split; [|exact Hn].
  eapply Forall_impl; [|exact Hf]. cbn. intros s Hs. lia.
Qed.

Lemma allocated_in_app (h h1 h' : Heap) (o1 o2 : list slice) :
  (h <= h1)%nat -> (h1 <= h')%nat ->
  allocated_in h h1 o1 -> allocated_in h1 h' o2 ->
  allocated_in h h' (o1 ++ o2).
Proof.
  intros Hh Hh' [Hf1 Hn1] [Hf2 Hn2]. split.
  - apply Forall_app. split; (eapply Forall_impl; [|eassumption]);
      cbn; intros s Hs; lia.
  - rewrite map_app. induction o1 as [|s o1 IH]; [exact Hn2|].
    cbn [map app]. inversion Hf1 as [|s0 l0 Hs Hf1']. subst.
    inversion Hn1 as [|a0 l1 Hnot Hn1']. subst.
    constructor; [|apply IH; assumption].
    intros Hin. apply in_app_or in Hin as [Hin|Hin]; [contradiction|].
    apply in_map_iff in Hin as (s2 & Hs2 & Hin2).
    rewrite Forall_forall in Hf2. specialize (Hf2 s2 Hin2). lia.
Qed.

(** The message block of a turn, from a state with [k] bytes missing. *)
Lemma fill_phase (h : Heap) (buf : Buffer) (k : nat) (rest : list byte) :
  buf_ok h buf ->
  Z.of_nat k <= 65535 ->
  match k with
  | O =>
      Codec.fill h buf 0 0 rest
      = Codec.Complete (S h) (Codec.mkCodec (Reset buf) 2 0) rest
          (mkSlice h (buf_data buf))
  | S _ =>
      exists h1 buf1, (h <= h1)%nat /\ buf_ok h1 buf1 /\
        if (length rest <? k)%nat then
          Codec.fill h buf 0 (Z.of_nat k) rest
          = Codec.Return h1
              (Codec.mkCodec buf1 0 (Z.of_nat (k - length rest)))
          /\ buf_data buf1 = buf_data buf ++ rest
        else
          Codec.fill h buf 0 (Z.of_nat k) rest
          = Codec.Complete (S h1) (Codec.mkCodec (Reset buf1) 2 0)
              (skipn k rest) (mkSlice h1 (buf_data buf ++ firstn k rest))
  end.
Proof.
  intros Hok Hk16. destruct k as [|k'].
  - unfold Codec.fill. cbn [Z.ltb Z.compare]. apply complete_spec.
  - set (k := S k'). unfold Codec.fill.
    destruct (Z.ltb_spec 0 (Z.of_nat k)) as [_|Hbad]; [|lia].
    destruct rest as [|x rest'].
    + exists h, buf. cbn [length Nat.eqb]. split; [lia|]. split; [exact Hok|].
      destruct (Nat.ltb_spec 0 k); [|lia].
      rewrite Nat.sub_0_r, app_nil_r. split; reflexivity.
    + set (rest := x :: rest') in *.
      assert (Hne : (length rest =? 0)%nat = false) by reflexivity.
      rewrite Hne.
      set (readLen := if Z.of_nat (length rest) >? Z.of_nat k
                      then Z.to_nat (Z.of_nat k) else length rest).
      assert (Hread : readLen = Nat.min (length rest) k).
      { unfold readLen.
        destruct (Z.gtb_spec (Z.of_nat (length rest)) (Z.of_nat k)); lia. }
      destruct (Write_spec h buf (firstn readLen rest) Hok)
        as (h1 & buf1 & EW & Hd & Hh & Hok1).
      rewrite EW. exists h1, buf1. split; [exact Hh|]. split; [exact Hok1|].
      rewrite wrap_int_small by lia.
      destruct (Nat.ltb_spec (length rest) k) as [Hlt|Hge].
      * assert (readLen = length rest) by lia.
        destruct (Z.ltb_spec 0 (Z.of_nat k - Z.of_nat readLen)); [|lia].
        split.
        -- do 2 f_equal. lia.
        -- rewrite Hd. f_equal. replace readLen with (length rest) by lia.
           apply firstn_all.
      * assert (Hk : readLen = k) by lia.
        destruct (Z.ltb_spec 0 (Z.of_nat k - Z.of_nat readLen)); [lia|].
        rewrite complete_spec, Hd, Hk. reflexivity.
Qed.

Lemma buf_ok_Reset (h : Heap) (b : Buffer) : buf_ok h b -> buf_ok h (Reset b).
Proof. unfold buf_ok, Reset. cbn. auto. Qed.

(** [Decode] on the bytes [data], from a state in phase [p], does what the
    reader does byte by byte; the slices it hands over are new arrays. *)
Lemma Decode_loop_sim (fuel : nat) :
  forall data h mc p out0,
  Frames.in_phase mc p ->
  buf_ok h (Codec.msgBuffer mc) ->
  (length data < fuel)%nat ->
  exists h' mc' out,
    Codec.Decode_loop fuel h mc data out0 = Some (h', mc', out0 ++ out)
    /\ Frames.in_phase mc' (fst (Frames.run p data))
    /\ map elems out = snd (Frames.run p data)
    /\ (h <= h')%nat
    /\ buf_ok h' (Codec.msgBuffer mc')
    /\ allocated_in h h' out.
Proof.
  induction fuel as [|fuel IH]; intros data h mc p out0 Hp Hok Hfuel; [lia|].
  (* after a complete message *)
  assert (Hnext : forall b0 msgdata rest h1 out1,
    buf_ok (S h1) b0 -> buf_data b0 = [] -> (length rest < fuel)%nat ->
    exists h' mc' out,
      Codec.Decode_loop fuel (S h1) (Codec.mkCodec b0 2 0) rest
        (out1 ++ [mkSlice h1 msgdata]) = Some (h', mc', out1 ++ out)
      /\ Frames.in_phase mc' (fst (Frames.run Frames.AtStart rest))
      /\ map elems out = msgdata :: snd (Frames.run Frames.AtStart rest)
      /\ (h1 <= h')%nat
      /\ buf_ok h' (Codec.msgBuffer mc')
      /\ allocated_in h1 h' out).
  { intros b0 msgdata rest h1 out1 Hok0 Hb0 Hlen.
    destruct (IH rest (S h1) (Codec.mkCodec b0 2 0) Frames.AtStart
                (out1 ++ [mkSlice h1 msgdata]))
      as (h' & mc' & out & E & Hph & Hout & Hh & Hok' & Hal);
      [cbn; auto|exact Hok0|exact Hlen|].
    exists h', mc', (mkSlice h1 msgdata :: out).
    rewrite E, <- app_assoc. cbn [app map elems].
    split; [reflexivity|]. split; [exact Hph|].
    split; [rewrite Hout; reflexivity|]. split; [lia|].
    split; [exact Hok'|].
    apply (allocated_in_app h1 (S h1) h' [mkSlice h1 msgdata] out);
      try lia; [|exact Hal].
    split; [constructor; [cbn; lia|constructor]|].
    cbn. constructor; [intros []|constructor]. }
  (* inside a payload *)
  assert (Hbody : forall k buf rest h1 out1,
    (0 < k)%nat -> buf_ok h1 buf ->
    Z.of_nat k + Z.of_nat (length (buf_data buf)) <= 65535 ->
    (length rest <= fuel)%nat ->
    exists h' mc' out,
      match Codec.fill h1 buf 0 (Z.of_nat k) rest with
      | Codec.Return h2 mc2 => Some (h2, mc2, out1)
      | Codec.Complete h2 mc2 rest2 msgCopy =>
          Codec.Decode_loop fuel h2 mc2 rest2 (out1 ++ [msgCopy])
      end = Some (h', mc', out1 ++ out)
      /\ Frames.in_phase mc'
           (fst (Frames.run (Frames.InBody k (buf_data buf)) rest))
      /\ map elems out
         = snd (Frames.run (Frames.InBody k (buf_data buf)) rest)
      /\ (h1 <= h')%nat
      /\ buf_ok h' (Codec.msgBuffer mc')
      /\ allocated_in h1 h' out).
  { intros k buf rest h1 out1 Hk Hok1 Hbound Hlen.
    pose proof (fill_phase h1 buf k rest Hok1) as F.
    rewrite frames_run_body by exact Hk.
    destruct k as [|k']; [lia|].
    destruct F as (h2 & buf2 & Hh2 & Hok2 & F); [lia|].
    destruct (Nat.ltb_spec (length rest) (S k')) as [Hlt|Hge].
    - destruct F as [F Hd]. rewrite F.
      exists h2, (Codec.mkCodec buf2 0 (Z.of_nat (S k' - length rest))), [].
      rewrite app_nil_r. cbn [fst snd map Frames.in_phase
        Codec.lengthBytesRemaining Codec.msgBytesRemaining Codec.msgBuffer].
      split; [reflexivity|]. split.
      { split; [reflexivity|]. split; [reflexivity|]. split; [exact Hd|].
        rewrite length_app. lia. }
      split; [reflexivity|]. split; [exact Hh2|]. split; [exact Hok2|].
      apply allocated_in_nil.
    - rewrite F.
      destruct (Hnext (Reset buf2) (buf_data buf ++ firstn (S k') rest)
                  (skipn (S k') rest) h2 out1)
        as (h' & mc' & out & E & Hph & Hout & Hh & Hok' & Hal).
      + apply buf_ok_Reset. apply (buf_ok_mono h2); [lia|exact Hok2].
      + reflexivity.
      + rewrite length_skipn. lia.
      + exists h', mc', out. cbn [fst snd].
        split; [exact E|]. split; [exact Hph|]. split; [exact Hout|].
        split; [lia|]. split; [exact Hok'|].
        apply (allocated_in_widen h1 h2 h' h'); auto. }
  (* after the two length bytes *)
  assert (Hhdr : forall hi lo buf rest out1,
    buf_ok h buf -> buf_data buf = [] -> (S (length rest) <= fuel)%nat ->
    exists h' mc' out,
      match Codec.fill h buf 0 (byte_to_Z hi * 256 + byte_to_Z lo) rest with
      | Codec.Return h2 mc2 => Some (h2, mc2, out1)
      | Codec.Complete h2 mc2 rest2 msgCopy =>
          Codec.Decode_loop fuel h2 mc2 rest2 (out1 ++ [msgCopy])
      end = Some (h', mc', out1 ++ out)
      /\ Frames.in_phase mc'
           (fst (Frames.run Frames.AtStart (hi :: lo :: rest)))
      /\ map elems out = snd (Frames.run Frames.AtStart (hi :: lo :: rest))
      /\ (h <= h')%nat
      /\ buf_ok h' (Codec.msgBuffer mc')
      /\ allocated_in h h' out).
  { intros hi lo buf rest out1 Hokb Hb Hlen.
    pose proof (byte_to_Z_range hi). pose proof (byte_to_Z_range lo).
    rewrite frames_run_header.
    set (n := byte_to_Z hi * 256 + byte_to_Z lo) in *.
    destruct (Z.to_nat n) as [|k] eqn:En.
    - assert (n = 0) by lia. replace n with 0 by lia.
      assert (F := fill_phase h buf 0 rest Hokb ltac:(cbn; lia)).
      cbv beta iota in F. rewrite F.
      destruct (Hnext (Reset buf) (buf_data buf) rest h out1)
        as (h' & mc' & out & E & Hph & Hout & Hh & Hok' & Hal).
      + apply buf_ok_Reset. apply (buf_ok_mono h); [lia|exact Hokb].
      + reflexivity.
      + lia.
      + exists h', mc', out. cbn [fst snd]. rewrite Hb in Hout.
        split; [exact E|]. split; [exact Hph|]. split; [exact Hout|].
        split; [exact Hh|]. split; [exact Hok'|exact Hal].
    - destruct (Hbody (S k) buf rest h out1)
        as (h' & mc' & out & E & Hph & Hout & Hh & Hok' & Hal);
        try lia; [exact Hokb|rewrite Hb; cbn [length]; lia|].
      replace (Z.of_nat (S k)) with n in E by lia.
      rewrite Hb in *. exists h', mc', out.
      split; [exact E|]. split; [exact Hph|]. split; [exact Hout|].
      split; [exact Hh|]. split; [exact Hok'|exact Hal]. }
  cbn [Codec.Decode_loop]. unfold Codec.turn.
  destruct mc as [buf lbr mbr]. cbn [Codec.msgBuffer] in Hok.
  cbn [Codec.lengthBytesRemaining Codec.msgBytesRemaining Codec.msgBuffer].
  destruct p as [|hi|k acc];
    cbn [Frames.in_phase Codec.lengthBytesRemaining Codec.msgBytesRemaining
         Codec.msgBuffer] in Hp.
  - destruct Hp as (-> & -> & Hb).
    destruct data as [|b1 [|b2 rest]].
    + rewrite read_length_nil by lia.
      exists h, (Codec.mkCodec buf 2 0), []. rewrite app_nil_r.
      cbn [fst snd map Frames.run Frames.in_phase Codec.msgBuffer
           Codec.lengthBytesRemaining Codec.msgBytesRemaining].
      split; [reflexivity|]. split; [auto|]. split; [reflexivity|].
      split; [lia|]. split; [exact Hok|apply allocated_in_nil].
    + rewrite read_length_first, read_length_nil
        by (pose proof (byte_to_Z_range b1); lia).
      exists h, (Codec.mkCodec buf 1 (byte_to_Z b1 * 256)), [].
      rewrite app_nil_r.
      cbn [fst snd map Frames.run Frames.step app Frames.in_phase
           Codec.msgBuffer Codec.lengthBytesRemaining
           Codec.msgBytesRemaining].
      split; [reflexivity|]. split; [auto|]. split; [reflexivity|].
      split; [lia|]. split; [exact Hok|apply allocated_in_nil].
    + rewrite read_length_first, read_length_second.
      apply Hhdr; auto. cbn [length] in Hfuel. lia.
  - destruct Hp as (-> & -> & Hb).
    destruct data as [|b rest].
    + rewrite read_length_nil by (pose proof (byte_to_Z_range hi); lia).
      exists h, (Codec.mkCodec buf 1 (byte_to_Z hi * 256)), [].
      rewrite app_nil_r.
      cbn [fst snd map Frames.run Frames.in_phase Codec.msgBuffer
           Codec.lengthBytesRemaining Codec.msgBytesRemaining].
      split; [reflexivity|]. split; [auto|]. split; [reflexivity|].
      split; [lia|]. split; [exact Hok|apply allocated_in_nil].
    + rewrite read_length_second.
      destruct (Hhdr hi b buf rest out0)
        as (h' & mc' & out & E & Hph & Hout & Hh & Hok' & Hal); auto.
      { cbn [length] in Hfuel. lia. }
      assert (Hrun : Frames.run Frames.AtStart (hi :: b :: rest)
                     = Frames.run (Frames.HaveHigh hi) (b :: rest)).
      { change (Frames.run Frames.AtStart (hi :: b :: rest))
          with (let '(p2, o2) := Frames.run (Frames.HaveHigh hi) (b :: rest)
                in (p2, [] ++ o2)).
        destruct (Frames.run (Frames.HaveHigh hi) (b :: rest)). reflexivity. }
      rewrite Hrun in Hph, Hout.
      exists h', mc', out.
      split; [exact E|]. split; [exact Hph|]. split; [exact Hout|].
      split; [exact Hh|]. split; [exact Hok'|exact Hal].
  - destruct Hp as (-> & -> & Hb & Hk & Hbound).
    rewrite read_length_done by lia. subst acc.
    apply Hbody; auto; lia.
Qed.

Lemma Decode_sim (h : Heap) (mc : Codec.MessageCodec) (p : Frames.Phase)
    (c : slice) :
  Frames.in_phase mc p ->
  buf_ok h (Codec.msgBuffer mc) ->
  exists h' mc' out,
    Codec.Decode h mc c = Some (h', mc', out)
    /\ Frames.in_phase mc' (fst (Frames.run p (elems c)))
    /\ map elems out = snd (Frames.run p (elems c))
    /\ (h <= h')%nat
    /\ buf_ok h' (Codec.msgBuffer mc')
    /\ allocated_in h h' out.
Proof.
  intros Hp Hok. unfold Codec.Decode.
  apply (Decode_loop_sim _ (elems c) h mc p [] Hp Hok). lia.
Qed.

Lemma feed_sim (chunks : list slice) :
  forall h mc p,
  Frames.in_phase mc p ->
  buf_ok h (Codec.msgBuffer mc) ->
  exists h' mc' out,
    Codec.feed h mc chunks = Some (h', mc', out)
    /\ Frames.in_phase mc'
         (fst (Frames.run p (concat (map elems chunks))))
    /\ map elems out = snd (Frames.run p (concat (map elems chunks)))
    /\ (h <= h')%nat
    /\ buf_ok h' (Codec.msgBuffer mc')
    /\ allocated_in h h' out.
Proof.
  induction chunks as [|c cs IH]; intros h mc p Hp Hok.
  - exists h, mc, []. cbn [Codec.feed map concat Frames.run fst snd].
    split; [reflexivity|]. split; [exact Hp|]. split; [reflexivity|].
    split; [lia|]. split; [exact Hok|apply allocated_in_nil].
  - destruct (Decode_sim h mc p c Hp Hok)
      as (h1 & mc1 & o1 & E1 & Hp1 & Ho1 & Hh1 & Hok1 & Hal1).
    destruct (IH h1 mc1 _ Hp1 Hok1)
      as (h2 & mc2 & o2 & E2 & Hp2 & Ho2 & Hh2 & Hok2 & Hal2).
    exists h2, mc2, (o1 ++ o2).
    cbn [Codec.feed map concat]. rewrite E1, E2, frames_run_app.
    cbn [fst snd]. rewrite map_app, Ho1, Ho2.
    split; [reflexivity|]. split; [exact Hp2|]. split; [reflexivity|].
    split; [lia|]. split; [exact Hok2|].
    apply (allocated_in_app h h1 h2); assumption.
Qed.

Lemma in_phase_ok (mc : Codec.MessageCodec) (p : Frames.Phase) :
  Frames.in_phase mc p -> phase_ok p.
Proof.
  destruct p; cbn; auto. intros (_ & _ & _ & H1 & H2). split; assumption.
Qed.

Lemma in_phase_same_view (mc1 mc2 : Codec.MessageCodec) (p : Frames.Phase) :
  Frames.in_phase mc1 p -> Frames.in_phase mc2 p ->
  Frames.view mc1 = Frames.view mc2.
Proof.
  unfold Frames.view. destruct p; cbn.
  - intros (-> & -> & ->) (-> & -> & ->). reflexivity.
  - intros (-> & -> & ->) (-> & -> & ->). reflexivity.
  - intros (-> & -> & -> & _) (-> & -> & -> & _). reflexivity.
Qed.

Lemma in_phase_bounds (mc : Codec.MessageCodec) (p : Frames.Phase) :
  Frames.in_phase mc p ->
  0 <= Codec.lengthBytesRemaining mc <= 2
  /\ 0 <= Codec.msgBytesRemaining mc
  /\ Codec.msgBytesRemaining mc
     + Z.of_nat (length (buf_data (Codec.msgBuffer mc))) <= 65535.
Proof.
  destruct p as [|hi|k acc]; cbn.
  - intros (-> & -> & ->). cbn. lia.
  - intros (-> & -> & ->). pose proof (byte_to_Z_range hi). cbn. lia.
  - intros (-> & -> & -> & H1 & H2). lia.
Qed.

(** The messages the reader completes have at most 65535 bytes. *)
Lemma frames_run_bounds (data : list byte) :
  forall p, phase_ok p ->
  phase_ok (fst (Frames.run p data))
  /\ Forall (fun m => Z.of_nat (length m) <= 65535) (snd (Frames.run p data)).
Proof.
  induction data as [|b data IH]; intros p Hp.
  - cbn. split; [exact Hp|constructor].
  - cbn [Frames.run].
    assert (Hstep : phase_ok (fst (Frames.step p b))
                    /\ Forall (fun m => Z.of_nat (length m) <= 65535)
                         (snd (Frames.step p b))).
    { destruct p as [|hi|k acc]; cbn [Frames.step].
      - split; [exact I|constructor].
      - pose proof (byte_to_Z_range hi). pose proof (byte_to_Z_range b).
        destruct (Z.to_nat (byte_to_Z hi * 256 + byte_to_Z b)) eqn:E.
        + split; [exact I|]. repeat constructor. cbn. lia.
        + split; [|constructor]. cbn [fst phase_ok length]. lia.
      - cbn in Hp. destruct Hp as [H1 H2].
        destruct k as [|[|k]]; [lia| |].
        + split; [exact I|]. repeat constructor. cbn [snd].
          rewrite length_app. cbn [length]. lia.
        + split; [|constructor]. cbn [fst phase_ok].
          rewrite length_app. cbn [length]. lia. }
    destruct (Frames.step p b) as [p1 o1]. cbn [fst snd] in Hstep.
    destruct Hstep as [Hp1 Ho1]. destruct (IH p1 Hp1) as [Hp2 Ho2].
    destruct (Frames.run p1 data) as [p2 o2]. cbn [fst snd] in *.
    split; [exact Hp2|]. apply Forall_app. split; assumption.
Qed.

(** A whole frame and what follows it. *)
Lemma frames_run_Encode (m rest : list byte) :
  Z.of_nat (length m) <= 65535 ->
  Frames.run Frames.AtStart (Codec.Encode m ++ rest)
  = (fst (Frames.run Frames.AtStart rest),
     m :: snd (Frames.run Frames.AtStart rest)).
Proof.
  intros Hm. destruct (Encode_header m) as (hi & lo & E & Hsum).
  rewrite Z.mod_small in Hsum by lia.
  rewrite E. cbn [app]. rewrite frames_run_header, Hsum, Nat2Z.id.
  destruct m as [|x m'].
  - reflexivity.
  - set (m := x :: m') in *. change (length m) with (S (length m')).
    cbv iota beta. rewrite frames_run_body by lia.
    destruct (Nat.ltb_spec (length (m ++ rest)) (S (length m'))) as [H|H].
    + rewrite length_app in H. cbn [length m] in H. lia.
    + change (S (length m')) with (length m).
      rewrite (split_firstn (m ++ rest) m rest eq_refl).
      rewrite (split_skipn (m ++ rest) m rest eq_refl). reflexivity.
Qed.

Lemma frames_run_stream (ms : list (list byte)) :
  Forall (fun m => Z.of_nat (length m) <= 65535) ms ->
  Frames.run Frames.AtStart (concat (map Codec.Encode ms))
  = (Frames.AtStart, ms).
Proof.
  induction 1 as [|m ms Hm Hms IH]; [reflexivity|].
  cbn [map concat]. rewrite frames_run_Encode by exact Hm.
  rewrite IH. reflexivity.
Qed.

(** X1. Whatever bytes arrive, the codec stays within its bounds: from a
    state it can be in between two calls, [Decode] returns, leaves between
    0 and 2 length bytes to read, never more than 65535 payload bytes
    buffered and missing together, and hands over messages of at most 65535
    bytes only. *)
Theorem Decode_keeps_codec_in_bounds
    (h : Heap) (mc : Codec.MessageCodec) (c : slice) :
  Frames.reachable mc ->
  buf_ok h (Codec.msgBuffer mc) ->
  exists h' mc' out,
    Codec.Decode h mc c = Some (h', mc', out)
    /\ Frames.reachable mc'
    /\ 0 <= Codec.lengthBytesRemaining mc' <= 2
    /\ 0 <= Codec.msgBytesRemaining mc'
    /\ Codec.msgBytesRemaining mc'
       + Z.of_nat (length (buf_data (Codec.msgBuffer mc'))) <= 65535
    /\ Forall (fun s => Z.of_nat (length (elems s)) <= 65535) out.
Proof.
  intros [p Hp] Hok.
  destruct (Decode_sim h mc p c Hp Hok)
    as (h' & mc' & out & E & Hp' & Hout & _).
  exists h', mc', out. split; [exact E|].
  split; [exists (fst (Frames.run p (elems c))); exact Hp'|].
  destruct (in_phase_bounds _ _ Hp') as (B1 & B2 & B3).
  split; [exact B1|]. split; [exact B2|]. split; [exact B3|].
  destruct (frames_run_bounds (elems c) p (in_phase_ok _ _ Hp)) as [_ Hb].
  rewrite <- Hout in Hb. rewrite Forall_map in Hb. exact Hb.
Qed.

(** A new codec, and bytes that announce 65535 bytes and bring two. *)
Lemma Decode_keeps_codec_in_bounds_example :
  exists h' mc' out,
    Codec.Decode 1%nat Codec.NewMessageCodec
      (mkSlice 0%nat [xff; xff; x41; x42])
    = Some (h', mc', out)
    /\ Frames.reachable mc'
    /\ 0 <= Codec.lengthBytesRemaining mc' <= 2
    /\ 0 <= Codec.msgBytesRemaining mc'
    /\ Codec.msgBytesRemaining mc'
       + Z.of_nat (length (buf_data (Codec.msgBuffer mc'))) <= 65535
    /\ Forall (fun s => Z.of_nat (length (elems s)) <= 65535) out.
Proof.
  apply (Decode_keeps_codec_in_bounds 1%nat Codec.NewMessageCodec
           (mkSlice 0%nat [xff; xff; x41; x42])).
  - exists Frames.AtStart. cbn. auto.
  - exact I.
Defined.

(** X2. Where a read ends does not matter: from a state the codec can be in,
    one call of [Decode] on [c1 ++ c2] and two calls, on [c1] and then on
    [c2], hand over the same messages in the same order and leave the same
    counters and the same bytes in the Buffer. *)
Theorem chunk_boundary_does_not_matter
    (h : Heap) (mc : Codec.MessageCodec) (c1 c2 : list byte)
    (a a1 a2 : ArrayId) :
  Frames.reachable mc ->
  buf_ok h (Codec.msgBuffer mc) ->
  exists h1 mc1 out1 h2 mc2 out2,
    Codec.Decode h mc (mkSlice a (c1 ++ c2)) = Some (h1, mc1, out1)
    /\ Codec.feed h mc [mkSlice a1 c1; mkSlice a2 c2] = Some (h2, mc2, out2)
    /\ Frames.view mc1 = Frames.view mc2
    /\ map elems out1 = map elems out2.
Proof.
  intros [p Hp] Hok.
  destruct (Decode_sim h mc p (mkSlice a (c1 ++ c2)) Hp Hok)
    as (h1 & mc1 & out1 & E1 & Hp1 & Ho1 & _).
  destruct (feed_sim [mkSlice a1 c1; mkSlice a2 c2] h mc p Hp Hok)
    as (h2 & mc2 & out2 & E2 & Hp2 & Ho2 & _).
  cbn [map concat elems] in *. rewrite app_nil_r in Hp2, Ho2.
  exists h1, mc1, out1, h2, mc2, out2.
  split; [exact E1|]. split; [exact E2|].
  split; [exact (in_phase_same_view _ _ _ Hp1 Hp2)|congruence].
Qed.

(** The frame of "QUERY" and the start of a second frame, cut inside the
    payload. *)
Lemma chunk_boundary_does_not_matter_example :
  exists h1 mc1 out1 h2 mc2 out2,
    Codec.Decode 1%nat Codec.NewMessageCodec
      (mkSlice 0%nat ([x00; x05; x51; x55] ++ [x45; x52; x59; x00]))
    = Some (h1, mc1, out1)
    /\ Codec.feed 1%nat Codec.NewMessageCodec
         [mkSlice 0%nat [x00; x05; x51; x55];
          mkSlice 0%nat [x45; x52; x59; x00]]
       = Some (h2, mc2, out2)
    /\ Frames.view mc1 = Frames.view mc2
    /\ map elems out1 = map elems out2.
Proof.
  apply (chunk_boundary_does_not_matter 1%nat Codec.NewMessageCodec
           [x00; x05; x51; x55] [x45; x52; x59; x00] 0%nat 0%nat 0%nat).
  - exists Frames.AtStart. cbn. auto.
  - exact I.
Defined.

(** X3. A stream of frames: the messages [ms], each of at most 65535 bytes,
    are encoded one after the other and the bytes reach a new codec in any
    chunks.  The callback gets exactly [ms], in order; every message is in
    an array of its own, which is no chunk's array; and the codec ends
    where it began. *)
Theorem Decode_stream_of_frames
    (ms : list (list byte)) (chunks : list slice) (h : Heap) :
  Forall (fun m => Z.of_nat (length m) <= 65535) ms ->
  concat (map elems chunks) = concat (map Codec.Encode ms) ->
  Forall (fun c => (arr c < h)%nat) chunks ->
  exists h' mc' out,
    Codec.feed h Codec.NewMessageCodec chunks = Some (h', mc', out)
    /\ map elems out = ms
    /\ Frames.view mc' = (2, 0, [])
    /\ NoDup (map arr out)
    /\ Forall (fun s => ~ In (arr s) (map arr chunks)) out.
Proof.
  intros Hms Hcat Hchunks.
  destruct (feed_sim chunks h Codec.NewMessageCodec Frames.AtStart)
    as (h' & mc' & out & E & Hp & Ho & _ & _ & Hal & Hnd);
    [cbn; auto|exact I|].
  rewrite Hcat, frames_run_stream in Hp, Ho by exact Hms.
  cbn [fst snd] in Hp, Ho.
  exists h', mc', out. split; [exact E|]. split; [exact Ho|].
  split.
  { unfold Frames.view. destruct Hp as (-> & -> & ->). reflexivity. }
  split; [exact Hnd|].
  eapply Forall_impl; [|exact Hal]. cbn. intros s Hs Hin.
  apply in_map_iff in Hin as (c & Hc & Hin).
  rewrite Forall_forall in Hchunks. specialize (Hchunks c Hin). lia.
Qed.

(** "QUERY", the empty message and "ANSWER", in chunks that cut the second
    length prefix and the last payload. *)
Lemma Decode_stream_of_frames_example :
  exists h' mc' out,
    Codec.feed 1%nat Codec.NewMessageCodec
      [mkSlice 0%nat (Codec.Encode Spec.QUERY ++ [x00]);
       mkSlice 0%nat [x00; x00; x06; x41; x4e];
       mkSlice 0%nat [x53; x57; x45; x52]]
    = Some (h', mc', out)
    /\ map elems out = [Spec.QUERY; []; Spec.ANSWER]
    /\ Frames.view mc' = (2, 0, [])
    /\ NoDup (map arr out)
    /\ Forall (fun s => ~ In (arr s)
                 (map arr
                    [mkSlice 0%nat (Codec.Encode Spec.QUERY ++ [x00]);
                     mkSlice 0%nat [x00; x00; x06; x41; x4e];
                     mkSlice 0%nat [x53; x57; x45; x52]])) out.
Proof.
  apply (Decode_stream_of_frames [Spec.QUERY; []; Spec.ANSWER]
           [mkSlice 0%nat (Codec.Encode Spec.QUERY ++ [x00]);
            mkSlice 0%nat [x00; x00; x06; x41; x4e];
            mkSlice 0%nat [x53; x57; x45; x52]] 1%nat).
  - repeat constructor; vm_compute; discriminate.
  - reflexivity.
  - repeat constructor.
Defined.

(** The start of a frame that is not all of it. *)
Lemma frames_run_prefix (hi lo : byte) (m p rest : list byte) :
  byte_to_Z hi * 256 + byte_to_Z lo = Z.of_nat (length m) ->
  rest <> [] ->
  p ++ rest = hi :: lo :: m ->
  snd (Frames.run Frames.AtStart p) = []
  /\ forall mc, Frames.in_phase mc (fst (Frames.run Frames.AtStart p)) ->
       buf_data (Codec.msgBuffer mc) = skipn 2 p.
Proof.
  intros Hsum Hrest Hsplit. destruct p as [|x [|y p']].
  - cbn. split; [reflexivity|]. intros mc (_ & _ & Hb). exact Hb.
  - cbn. split; [reflexivity|]. intros mc (_ & _ & Hb). exact Hb.
  - injection Hsplit as -> -> Hm.
    assert (Hlen : (length p' < length m)%nat).
    { rewrite <- Hm, length_app. destruct rest; [contradiction|].
      cbn [length]. lia. }
    rewrite frames_run_header, Hsum, Nat2Z.id.
    destruct (length m) as [|k] eqn:Ek; [lia|].
    rewrite frames_run_body by lia.
    destruct (Nat.ltb_spec (length p') (S k)); [|lia].
    cbn [fst snd app skipn]. split; [reflexivity|].
    intros mc (_ & _ & Hb & _). exact Hb.
Qed.

(** X4. No part of a frame is handed over: while the bytes fed to a new
    codec, in any chunks, are the start of [Encode(m)] and not all of it,
    the callback is not called, and the payload bytes read so far are in
    the Buffer. *)
Theorem incomplete_frame_is_held_back
    (m rest : list byte) (chunks : list slice) (h : Heap) :
  Z.of_nat (length m) <= 65535 ->
  rest <> [] ->
  concat (map elems chunks) ++ rest = Codec.Encode m ->
  exists h' mc',
    Codec.feed h Codec.NewMessageCodec chunks = Some (h', mc', [])
    /\ buf_data (Codec.msgBuffer mc') = skipn 2 (concat (map elems chunks)).
Proof.
  intros Hm Hrest Hsplit.
  destruct (Encode_header m) as (hi & lo & E & Hsum).
  rewrite Z.mod_small in Hsum by lia. rewrite E in Hsplit.
  destruct (frames_run_prefix hi lo m _ rest Hsum Hrest Hsplit)
    as [Hnone Hbuf].
  destruct (feed_sim chunks h Codec.NewMessageCodec Frames.AtStart)
    as (h' & mc' & out & F & Hp & Ho & _); [cbn; auto|exact I|].
  rewrite Hnone in Ho. destruct out; [|discriminate].
  exists h', mc'. split; [exact F|]. apply Hbuf. exact Hp.
Qed.

(** The frame of "QUERY" without its last byte, one byte at a time. *)
Lemma incomplete_frame_is_held_back_example :
  exists h' mc',
    Codec.feed 1%nat Codec.NewMessageCodec
      (map (fun b => mkSlice 0%nat [b]) [x00; x05; x51; x55; x45; x52])
    = Some (h', mc', [])
    /\ buf_data (Codec.msgBuffer mc')
       = skipn 2
           (concat
              (map elems
                 (map (fun b => mkSlice 0%nat [b])
                    [x00; x05; x51; x55; x45; x52]))).
Proof.
  apply (incomplete_frame_is_held_back Spec.QUERY [x59]
           (map (fun b => mkSlice 0%nat [b]) [x00; x05; x51; x55; x45; x52])
           1%nat).
  - vm_compute. discriminate.
  - discriminate.
  - reflexivity.
Defined.

(** X5. A payload of more than 65535 bytes does not survive the codec: the
    first message a new codec hands over for [Encode(m)] is the first
    [len(m) mod 65536] bytes of [m], which is shorter than [m]. *)
Theorem oversized_payload_is_cut (m : list byte) (h : Heap) (a : ArrayId) :
  65535 < Z.of_nat (length m) ->
  exists h' mc' first others,
    Codec.Decode h Codec.NewMessageCodec (mkSlice a (Codec.Encode m))
    = Some (h', mc', first :: others)
    /\ elems first = firstn (Z.to_nat (Z.of_nat (length m) mod 65536)) m
    /\ (length (elems first) < length m)%nat.
Proof.
  intros Hbig.
  destruct (Encode_header m) as (hi & lo & E & Hsum).
  set (k := Z.of_nat (length m) mod 65536) in *.
  assert (Hk : 0 <= k < 65536) by (apply Z.mod_pos_bound; lia).
  destruct (Decode_sim h Codec.NewMessageCodec Frames.AtStart
              (mkSlice a (Codec.Encode m)))
    as (h' & mc' & out & F & _ & Ho & _); [cbn; auto|exact I|].
  cbn [elems] in Ho. rewrite E, frames_run_header, Hsum in Ho.
  assert (Hfirst : exists others,
            map elems out = firstn (Z.to_nat k) m :: others).
  { destruct (Z.to_nat k) as [|j] eqn:Ej.
    - eexists. exact Ho.
    - rewrite frames_run_body in Ho by lia.
      destruct (Nat.ltb_spec (length m) (S j)); [lia|].
      eexists. exact Ho. }
  destruct Hfirst as [others Hmap].
  destruct out as [|first out']; [discriminate|].
  injection Hmap as Hf _.
  exists h', mc', first, out'. split; [exact F|]. split; [exact Hf|].
  rewrite Hf, length_firstn. lia.
Qed.

(** A payload of 65537 bytes comes out as one byte. *)
Lemma oversized_payload_is_cut_example :
  exists h' mc' first others,
    Codec.Decode 1%nat Codec.NewMessageCodec
      (mkSlice 0%nat (Codec.Encode (repeat x2a (Z.to_nat 65537))))
    = Some (h', mc', first :: others)
    /\ elems first
       = firstn
           (Z.to_nat
              (Z.of_nat (length (repeat x2a (Z.to_nat 65537))) mod 65536))
           (repeat x2a (Z.to_nat 65537))
    /\ (length (elems first) < length (repeat x2a (Z.to_nat 65537)))%nat.
Proof.
  apply (oversized_payload_is_cut (repeat x2a (Z.to_nat 65537)) 1%nat 0%nat).
  rewrite repeat_length. lia.
Defined.

(** *** The read loops of the tunnel *)

Lemma tasks_app (e1 e2 : list Event) :
  Trace2.tasks (e1 ++ e2) = Trace2.tasks e1 ++ Trace2.tasks e2.
Proof.
  induction e1 as [|e e1 IH]; [reflexivity|].
  destruct e; cbn [app Trace2.tasks]; rewrite IH; reflexivity.
Qed.

Lemma udp_sends_app (e1 e2 : list Event) :
  Trace2.udp_sends (e1 ++ e2) = Trace2.udp_sends e1 ++ Trace2.udp_sends e2.
Proof.
  induction e1 as [|e e1 IH]; [reflexivity|].
  destruct e; cbn [app Trace2.udp_sends]; rewrite IH; reflexivity.
Qed.

Lemma udp_dials_app (e1 e2 : list Event) :
  Trace2.udp_dials (e1 ++ e2) = Trace2.udp_dials e1 ++ Trace2.udp_dials e2.
Proof.
  induction e1 as [|e e1 IH]; [reflexivity|].
  destruct e; cbn [app Trace2.udp_dials]; rewrite IH; reflexivity.
Qed.

(** The three parts of a message of 6 bytes or more. *)
Lemma unpack_parts (msg : list byte) :
  (6 <= length msg)%nat ->
  Envelope.unpack msg
  = Some (firstn 4 msg, Uint16 (firstn 2 (skipn 4 msg)), skipn 6 msg).
Proof.
  intros Hlen.
  destruct msg as [|a [|b [|c [|d [|p0 [|p1 data]]]]]];
    cbn [length] in Hlen; try lia.
  rewrite unpack_layout. reflexivity.
Qed.

(** [onReceivedMessage] returns on every message, and starts the task of
    those that are long enough. *)
Lemma onReceivedMessages_tasks (msgs : list (list byte)) :
  exists evs,
    AppTunnel.onReceivedMessages msgs = Some evs
    /\ Trace2.tasks evs = tasks_of msgs.
Proof.
  induction msgs as [|m msgs (evs & E & Ht)].
  - exists []. split; reflexivity.
  - cbn [AppTunnel.onReceivedMessages tasks_of flat_map].
    unfold App.onReceivedMessage. rewrite E.
    destruct (Nat.ltb_spec (length m) 6) as [Hs|Hl].
    + eexists. split; [reflexivity|]. rewrite tasks_app, Ht. reflexivity.
    + rewrite unpack_parts by exact Hl.
      eexists. split; [reflexivity|]. rewrite tasks_app, Ht. reflexivity.
Qed.

Lemma tasks_of_app (m1 m2 : list (list byte)) :
  tasks_of (m1 ++ m2) = tasks_of m1 ++ tasks_of m2.
Proof. unfold tasks_of. apply flat_map_app. Qed.

(** The reads of a connection of the App-Side Relay start the tasks of the
    messages the bytes hold, however the reads cut them. *)
Lemma app_reads_sim (conn : Conn) (chunks : list slice) :
  forall h codec p,
  Frames.in_phase codec p ->
  buf_ok h (Codec.msgBuffer codec) ->
  exists h' codec' evs,
    AppTunnel.handleTunerProxyConnection_reads h codec conn chunks
    = Some (h', codec', evs)
    /\ Frames.in_phase codec'
         (fst (Frames.run p (concat (map elems chunks))))
    /\ buf_ok h' (Codec.msgBuffer codec')
    /\ Trace2.tasks evs
       = tasks_of (snd (Frames.run p (concat (map elems chunks)))).
Proof.
  induction chunks as [|c cs IH]; intros h codec p Hp Hok.
  - exists h, codec, []. cbn. auto.
  - cbn [AppTunnel.handleTunerProxyConnection_reads map concat].
    unfold AppTunnel.handleTunerProxyConnection_read.
    destruct (Nat.ltb_spec 0 (length (elems c))) as [Hne|He].
    + destruct (Decode_sim h codec p c Hp Hok)
        as (h1 & codec1 & out & E & Hp1 & Ho & _ & Hok1 & _).
      rewrite E.
      destruct (onReceivedMessages_tasks (map elems out)) as (e1 & E1 & Ht1).
      rewrite E1.
      destruct (IH h1 codec1 _ Hp1 Hok1) as (h2 & codec2 & e2 & E2 & Hp2 & Hok2 & Ht2).
      rewrite E2, frames_run_app. cbn [fst snd].
      eexists _, _, _. split; [reflexivity|]. split; [exact Hp2|].
      split; [exact Hok2|].
      cbn [app Trace2.tasks]. rewrite tasks_app, tasks_of_app, Ht1, Ht2, Ho.
      reflexivity.
    + assert (Hnil : elems c = []) by (destruct (elems c); [reflexivity|cbn in He; lia]).
      rewrite Hnil. cbn [app].
      destruct (IH h codec p Hp Hok) as (h2 & codec2 & e2 & E2 & Hp2 & Hok2 & Ht2).
      rewrite E2. eexists _, _, _. split; [reflexivity|].
      split; [exact Hp2|]. split; [exact Hok2|exact Ht2].
Qed.

Lemma copy_at_length (dst : list byte) (lo hi : nat) (src : list byte) :
  (lo <= hi <= length dst)%nat ->
  length (copy_at dst lo hi src) = length dst.
Proof.
  intros H. unfold copy_at, copy.
  rewrite !length_app, !length_firstn, !length_skipn, !length_firstn,
    !length_skipn.
  lia.
Qed.

(** An Envelope is six bytes longer than its payload, whatever the address
    and the port are. *)
Lemma pack_length (addr : list byte) (port : Z) (data : list byte) :
  length (Envelope.pack addr port data) = (6 + length data)%nat.
Proof.
  unfold Envelope.pack.
  assert (L0 : length (repeat x00 (6 + length data)) = (6 + length data)%nat)
    by apply repeat_length.
  assert (L1 : length (copy_at (repeat x00 (6 + length data)) 0 4 addr)
               = (6 + length data)%nat)
    by (rewrite copy_at_length; [exact L0|rewrite L0; lia]).
  assert (L2 : length (copy_at (copy_at (repeat x00 (6 + length data)) 0 4
                                  addr) 4 6 (PutUint16 port))
               = (6 + length data)%nat)
    by (rewrite copy_at_length; [exact L1|rewrite L1; lia]).
  rewrite copy_at_length; [exact L2|]. rewrite L2. lia.
Qed.

Lemma Encode_well_framed (envelope : list byte) :
  (6 < length envelope)%nat ->
  Z.of_nat (length envelope) <= 65535 ->
  well_framed (Codec.Encode envelope).
Proof.
  intros H6 H16. exists envelope. split; [reflexivity|]. split; [|exact H6].
  destruct (Encode_header envelope) as (hi & lo & E & Hsum).
  rewrite Z.mod_small in Hsum by lia.
  rewrite E. cbn [firstn]. unfold Spec.big_endian_value. cbn [fold_left].
  lia.
Qed.

Lemma tasks_of_pack (a b c d : byte) (P : Z) (X : list byte) :
  0 <= P < 65536 ->
  tasks_of [Envelope.pack [a; b; c; d] P X] = [QueryTask X [a; b; c; d] P].
Proof.
  intros HP. unfold tasks_of. cbn [flat_map]. rewrite app_nil_r.
  pose proof (pack_length [a; b; c; d] P X) as L.
  destruct (Nat.ltb_spec (length (Envelope.pack [a; b; c; d] P X)) 6);
    [lia|].
  pose proof (Uint16_PutUint16 P [] HP) as U.
  rewrite pack_layout. unfold PutUint16 in *.
  cbn [app firstn skipn] in *. rewrite U. reflexivity.
Qed.

(** X6. From the Client-Side Relay to the App-Side Relay: what the capture
    loop encodes for a datagram, read from the tunnel in any chunks by a
    new connection of the App-Side Relay, starts exactly one query task,
    with the datagram's bytes (at most 4096 of them), the sender's IPv4
    address and the sender's port. *)
Theorem captured_query_starts_its_task
    (tp : Tuner.TunerProxy) (buf : list byte) (dg : Tuner.Datagram)
    (a b c d : byte) (chunks : list slice) (h : Heap) (conn : Conn) :
  length buf = UDPReadBufferSize ->
  To4 (addrIP (Tuner.remoteAddr dg)) = [a; b; c; d] ->
  snd (Tuner.capture tp buf dg) = Some (concat (map elems chunks)) ->
  exists h' codec' evs,
    AppTunnel.handleTunerProxyConnection_reads h Codec.NewMessageCodec conn
      chunks = Some (h', codec', evs)
    /\ Trace2.tasks evs
       = [QueryTask (firstn UDPReadBufferSize (Tuner.payload dg))
            [a; b; c; d] (Port (Tuner.remoteAddr dg) mod 65536)]
    /\ Frames.view codec' = (2, 0, []).
Proof.
  intros Hbuf Hip Hcap.
  unfold Tuner.capture, Tuner.getTCPTransport in Hcap.
  rewrite read_into_prefix, Hip, Hbuf in Hcap.
  assert (HX : (length (firstn UDPReadBufferSize (Tuner.payload dg))
                <= UDPReadBufferSize)%nat)
    by (rewrite length_firstn; lia).
  remember (firstn UDPReadBufferSize (Tuner.payload dg)) as X eqn:EX.
  remember (uint16 (Port (Tuner.remoteAddr dg))) as P eqn:EP.
  assert (HP : 0 <= P < 65536)
    by (subst P; apply Z.mod_pos_bound; lia).
  destruct (Tuner.tcpTransport tp); [|discriminate].
  destruct (0 <? Nat.min UDPReadBufferSize (length (Tuner.payload dg)))%nat;
    [|discriminate].
  cbn [snd] in Hcap. injection Hcap as Hcat.
  destruct (app_reads_sim conn chunks h Codec.NewMessageCodec Frames.AtStart)
    as (h' & codec' & evs & E & Hp & _ & Ht); [cbn; auto|exact I|].
  rewrite <- Hcat in Hp, Ht.
  rewrite <- (app_nil_r (Codec.Encode _)) in Hp, Ht.
  rewrite frames_run_Encode in Hp, Ht
    by (rewrite pack_length; unfold UDPReadBufferSize in HX; lia).
  cbn [fst snd Frames.run] in Hp, Ht. rewrite tasks_of_pack in Ht by exact HP.
  exists h', codec', evs. split; [exact E|]. split; [subst P; exact Ht|].
  unfold Frames.view. destruct Hp as (-> & -> & ->). reflexivity.
Qed.

(** "QUERY" from 192.168.1.42:54321, in chunks of one byte. *)
Lemma captured_query_starts_its_task_example :
  exists h' codec' evs,
    AppTunnel.handleTunerProxyConnection_reads 1%nat Codec.NewMessageCodec
      2%nat
      (map (fun x => mkSlice 0%nat [x])
         (Codec.Encode
            (Envelope.pack Spec.origin_address Spec.origin_port Spec.QUERY)))
    = Some (h', codec', evs)
    /\ Trace2.tasks evs
       = [QueryTask (firstn UDPReadBufferSize (Tuner.payload early))
            [xc0; xa8; x01; x2a] (Port (Tuner.remoteAddr early) mod 65536)]
    /\ Frames.view codec' = (2, 0, []).
Proof.
  apply (captured_query_starts_its_task (Tuner.mkTunerProxy (Some 1%nat))
           (repeat x00 UDPReadBufferSize) early xc0 xa8 x01 x2a
           (map (fun x => mkSlice 0%nat [x])
              (Codec.Encode
                 (Envelope.pack Spec.origin_address Spec.origin_port
                    Spec.QUERY)))
           1%nat 2%nat).
  - apply repeat_length.
  - reflexivity.
  - vm_compute. reflexivity.
Defined.

(** *** From the App-Side Relay back to the application *)

(** [onMessageReceivedFromAppProxy] returns on every message; a message of
    6 bytes or more is sent from a new socket connected to the address and
    port it names. *)
Lemma onMessageReceivedFromAppProxy_sends (w : TunerTunnel.World) (s : Sock)
    (m : list byte) :
  exists evs,
    Tuner.onMessageReceivedFromAppProxy (TunerTunnel.dial_ok w s)
      (TunerTunnel.write_ok w s) s m = Some evs
    /\ Trace2.udp_dials evs
       = map (fun r => (fst (fst r), snd (fst r))) (replies_of w s [m])
    /\ Trace2.udp_sends evs
       = map (fun r => (fst (fst r), snd r)) (replies_of w s [m]).
Proof.
  unfold Tuner.onMessageReceivedFromAppProxy, replies_of.
  destruct (Nat.ltb_spec (length m) 6) as [Hs|Hl].
  - eexists. split; [reflexivity|]. split; reflexivity.
  - destruct m as [|a [|b [|c [|d [|p0 [|p1 data]]]]]];
      cbn [length] in Hl; try lia.
    rewrite unpack_layout. cbn [orb nth firstn skipn app].
    destruct (TunerTunnel.dial_ok w s); cbn [negb].
    + eexists. split; [reflexivity|].
      destruct (TunerTunnel.write_ok w s); split; reflexivity.
    + eexists. split; [reflexivity|]. split; reflexivity.
Qed.

Lemma replies_of_app (w : TunerTunnel.World) (m1 m2 : list (list byte)) :
  forall s,
  replies_of w s (m1 ++ m2)
  = replies_of w s m1 ++ replies_of w (s + length m1)%nat m2.
Proof.
  induction m1 as [|m m1 IH]; intros s.
  - cbn. rewrite Nat.add_0_r. reflexivity.
  - cbn [app replies_of length]. rewrite IH, <- app_assoc.
    replace (S s + length m1)%nat with (s + S (length m1))%nat by lia.
    reflexivity.
Qed.

Lemma onMessagesReceivedFromAppProxy_sends (w : TunerTunnel.World)
    (msgs : list (list byte)) :
  forall s,
  exists evs,
    TunerTunnel.onMessagesReceivedFromAppProxy w s msgs = Some evs
    /\ Trace2.udp_dials evs
       = map (fun r => (fst (fst r), snd (fst r))) (replies_of w s msgs)
    /\ Trace2.udp_sends evs
       = map (fun r => (fst (fst r), snd r)) (replies_of w s msgs).
Proof.
  induction msgs as [|m msgs IH]; intros s.
  - exists []. split; [reflexivity|]. split; reflexivity.
  - cbn [TunerTunnel.onMessagesReceivedFromAppProxy].
    destruct (onMessageReceivedFromAppProxy_sends w s m)
      as (e1 & E1 & Hd1 & Hs1).
    destruct (IH (S s)) as (e2 & E2 & Hd2 & Hs2).
    rewrite E1, E2. eexists. split; [reflexivity|].
    change (m :: msgs) with ([m] ++ msgs).
    rewrite replies_of_app, !map_app, udp_dials_app, udp_sends_app.
    cbn [length]. rewrite Nat.add_1_r, Hd1, Hd2, Hs1, Hs2.
    split; reflexivity.
Qed.

(** The reads of the connection to the App-Side Relay send the replies the
    bytes hold, however the reads cut them. *)
Lemma tuner_reads_sim (w : TunerTunnel.World) (conn : Conn)
    (chunks : list slice) :
  forall s h codec p,
  Frames.in_phase codec p ->
  buf_ok h (Codec.msgBuffer codec) ->
  exists s' h' codec' evs,
    TunerTunnel.read_loop_reads w s h codec conn chunks
    = Some (s', h', codec', evs)
    /\ Frames.in_phase codec'
         (fst (Frames.run p (concat (map elems chunks))))
    /\ buf_ok h' (Codec.msgBuffer codec')
    /\ Trace2.udp_dials evs
       = map (fun r => (fst (fst r), snd (fst r)))
           (replies_of w s (snd (Frames.run p (concat (map elems chunks)))))
    /\ Trace2.udp_sends evs
       = map (fun r => (fst (fst r), snd r))
           (replies_of w s (snd (Frames.run p (concat (map elems chunks))))).
Proof.
  induction chunks as [|c cs IH]; intros s h codec p Hp Hok.
  - exists s, h, codec, []. cbn. auto.
  - cbn [TunerTunnel.read_loop_reads map concat].
    unfold TunerTunnel.read_loop_data.
    destruct (Nat.ltb_spec 0 (length (elems c))) as [Hne|He].
    + destruct (Decode_sim h codec p c Hp Hok)
        as (h1 & codec1 & out & E & Hp1 & Ho & _ & Hok1 & _).
      rewrite E.
      destruct (onMessagesReceivedFromAppProxy_sends w (map elems out) s)
        as (e1 & E1 & Hd1 & Hs1).
      rewrite E1.
      destruct (IH (s + length out)%nat h1 codec1 _ Hp1 Hok1)
        as (s2 & h2 & codec2 & e2 & E2 & Hp2 & Hok2 & Hd2 & Hs2).
      rewrite E2, frames_run_app. cbn [fst snd].
      eexists _, _, _, _. split; [reflexivity|]. split; [exact Hp2|].
      split; [exact Hok2|].
      cbn [app Trace2.udp_dials Trace2.udp_sends].
      rewrite <- Ho.
      rewrite udp_dials_app, udp_sends_app, replies_of_app, !map_app,
        length_map, Hd1, Hs1, Hd2, Hs2.
      split; reflexivity.
    + assert (Hnil : elems c = [])
        by (destruct (elems c); [reflexivity|cbn in He; lia]).
      rewrite Hnil. cbn [app].
      destruct (IH s h codec p Hp Hok)
        as (s2 & h2 & codec2 & e2 & E2 & Hp2 & Hok2 & Hd2 & Hs2).
      rewrite E2. eexists _, _, _, _. split; [reflexivity|].
      split; [exact Hp2|]. split; [exact Hok2|]. split; assumption.
Qed.

Lemma replies_of_pack (w : TunerTunnel.World) (s : Sock) (a b c d : byte)
    (P : Z) (R : list byte) :
  0 <= P < 65536 ->
  replies_of w s [Envelope.pack [a; b; c; d] P R]
  = if TunerTunnel.dial_ok w s
    then [(s, mkUDPAddr (IPv4 a b c d) P, R)] else [].
Proof.
  intros HP. cbn [replies_of]. rewrite app_nil_r.
  pose proof (pack_length [a; b; c; d] P R) as L.
  destruct (Nat.ltb_spec (length (Envelope.pack [a; b; c; d] P R)) 6);
    [lia|].
  pose proof (Uint16_PutUint16 P [] HP) as U.
  rewrite pack_layout. unfold PutUint16 in *.
  cbn [app firstn skipn nth orb] in *. rewrite U.
  destruct (TunerTunnel.dial_ok w s); reflexivity.
Qed.

(** X7. From the App-Side Relay back to the application: what [reply]
    writes to the tunnel for a response, read by the Client-Side Relay in
    any chunks, is sent as one datagram, the response itself, from a new
    socket connected to the address and port [reply] was called with; when
    that socket cannot be made nothing is sent.  The codec is then at the
    start of a frame again. *)
Theorem reply_reaches_the_application
    (w : App.World) (c0 : Conn) (a b c d : byte) (P : Z) (R : list byte)
    (tw : TunerTunnel.World) (s : Sock) (h : Heap) (conn : Conn)
    (chunks : list slice) :
  0 <= P < 65536 ->
  Z.of_nat (length R) <= 65529 ->
  Trace.tunnel_writes
    (snd (App.reply w (App.mkAppProxy (Some c0)) [a; b; c; d] P R))
  = [(c0, concat (map elems chunks))] ->
  exists s' h' codec' evs,
    TunerTunnel.read_loop_reads tw s h Codec.NewMessageCodec conn chunks
    = Some (s', h', codec', evs)
    /\ Trace2.udp_dials evs
       = (if TunerTunnel.dial_ok tw s
          then [(s, mkUDPAddr (IPv4 a b c d) P)] else [])
    /\ Trace2.udp_sends evs
       = (if TunerTunnel.dial_ok tw s then [(s, R)] else [])
    /\ Frames.view codec' = (2, 0, []).
Proof.
  intros HP HR Hw.
  assert (Hcat : concat (map elems chunks)
                 = Codec.Encode (Envelope.pack [a; b; c; d] P R) ++ []).
  { rewrite app_nil_r. cbn [App.reply App.tcpTransport] in Hw.
    destruct (App.tcp_write_ok w c0
                (Codec.Encode (Envelope.pack [a; b; c; d] P R)));
      cbn [snd Trace.tunnel_writes] in Hw; injection Hw as Hw;
      symmetry; exact Hw. }
  destruct (tuner_reads_sim tw conn chunks s h Codec.NewMessageCodec
              Frames.AtStart)
    as (s' & h' & codec' & evs & E & Hp & _ & Hd & Hs); [cbn; auto|exact I|].
  rewrite Hcat in Hp, Hd, Hs.
  rewrite frames_run_Encode in Hp, Hd, Hs by (rewrite pack_length; lia).
  cbn [fst snd Frames.run] in Hp, Hd, Hs.
  rewrite replies_of_pack in Hd, Hs by exact HP.
  exists s', h', codec', evs. split; [exact E|].
  split; [rewrite Hd; destruct (TunerTunnel.dial_ok tw s); reflexivity|].
  split; [rewrite Hs; destruct (TunerTunnel.dial_ok tw s); reflexivity|].
  unfold Frames.view. destruct Hp as (-> & -> & ->). reflexivity.
Qed.

(** "ANSWER" for 192.168.1.42:54321, read one byte at a time. *)
Lemma reply_reaches_the_application_example :
  exists s' h' codec' evs,
    TunerTunnel.read_loop_reads
      (TunerTunnel.mkWorld (fun _ => true) (fun _ => true)) 5%nat 1%nat
      Codec.NewMessageCodec 2%nat
      (map (fun x => mkSlice 0%nat [x])
         (Codec.Encode
            (Envelope.pack Spec.origin_address Spec.origin_port
               Spec.ANSWER)))
    = Some (s', h', codec', evs)
    /\ Trace2.udp_dials evs
       = [(5%nat, mkUDPAddr (IPv4 xc0 xa8 x01 x2a) Spec.origin_port)]
    /\ Trace2.udp_sends evs = [(5%nat, Spec.ANSWER)]
    /\ Frames.view codec' = (2, 0, []).
Proof.
  apply (reply_reaches_the_application silent 1%nat xc0 xa8 x01 x2a
           Spec.origin_port Spec.ANSWER
           (TunerTunnel.mkWorld (fun _ => true) (fun _ => true))
           5%nat 1%nat 2%nat
           (map (fun x => mkSlice 0%nat [x])
              (Codec.Encode
                 (Envelope.pack Spec.origin_address Spec.origin_port
                    Spec.ANSWER)))).
  - unfold Spec.origin_port. lia.
  - cbn. lia.
  - vm_compute. reflexivity.
Defined.

(** *** The whole way of a discovery *)

(** The read loop of the App-Side Relay writes nothing to the tunnel. *)
Lemma onReceivedMessages_quiet (msgs : list (list byte)) :
  forall evs,
  AppTunnel.onReceivedMessages msgs = Some evs ->
  Trace.tunnel_writes evs = [].
Proof.
  induction msgs as [|m msgs IH]; intros evs E.
  - injection E as <-. reflexivity.
  - cbn [AppTunnel.onReceivedMessages] in E.
    destruct (App.onReceivedMessage m) as [e1|] eqn:E1; [|discriminate].
    destruct (AppTunnel.onReceivedMessages msgs) as [e2|]; [|discriminate].
    injection E as <-. rewrite tunnel_writes_app, (IH e2 eq_refl), app_nil_r.
    unfold App.onReceivedMessage in E1.
    destruct (length m <? 6)%nat; [injection E1 as <-; reflexivity|].
    destruct (Envelope.unpack m) as [[[sa sp] q]|]; [|discriminate].
    injection E1 as <-. reflexivity.
Qed.

Lemma app_reads_quiet (conn : Conn) (chunks : list slice) :
  forall h codec h' codec' evs,
  AppTunnel.handleTunerProxyConnection_reads h codec conn chunks
  = Some (h', codec', evs) ->
  Trace.tunnel_writes evs = [].
Proof.
  induction chunks as [|c cs IH]; intros h codec h' codec' evs E.
  - injection E as _ _ <-. reflexivity.
  - cbn [AppTunnel.handleTunerProxyConnection_reads] in E.
    destruct (AppTunnel.handleTunerProxyConnection_read h codec conn c)
      as [[[h1 codec1] ev1]|] eqn:E1; [|discriminate].
    destruct (AppTunnel.handleTunerProxyConnection_reads h1 codec1 conn cs)
      as [[[h2 codec2] ev2]|] eqn:E2; [|discriminate].
    injection E as _ _ <-. rewrite tunnel_writes_app, (IH _ _ _ _ _ E2).
    rewrite app_nil_r.
    unfold AppTunnel.handleTunerProxyConnection_read in E1.
    destruct (0 <? length (elems c))%nat.
    + destruct (Codec.Decode h codec c) as [[[h3 codec3] msgs]|];
        [|discriminate].
      destruct (AppTunnel.onReceivedMessages (map elems msgs)) as [e|] eqn:E3;
        [|discriminate].
      injection E1 as _ _ <-. cbn [Trace.tunnel_writes].
      apply (onReceivedMessages_quiet _ _ E3).
    + injection E1 as _ _ <-. reflexivity.
Qed.

(** Events that start no task and write nothing pass through
    [run_started]. *)
Lemma run_started_no_task (w : App.World) (evs : list Event) :
  forall s ap,
  Trace2.tasks evs = [] ->
  App.run_started w s ap evs = (ap, evs).
Proof.
  induction evs as [|e evs IH]; intros s ap Ht; [reflexivity|].
  destruct e; cbn [Trace2.tasks] in Ht; try discriminate;
    cbn [App.run_started]; rewrite (IH s ap Ht); reflexivity.
Qed.

(** When the events start one query task, [run_started] writes to the
    tunnel what that task writes. *)
Lemma run_started_one_task (w : App.World) (q addr : list byte) (P : Z)
    (evs : list Event) :
  forall s ap,
  Trace.tunnel_writes evs = [] ->
  Trace2.tasks evs = [QueryTask q addr P] ->
  Trace.tunnel_writes (snd (App.run_started w s ap evs))
  = Trace.tunnel_writes
      (snd (App.run_task w ap addr P (App.queryTuner w s q))).
Proof.
  induction evs as [|e evs IH]; intros s ap Hq Ht; [discriminate|].
  destruct e; cbn [Trace2.tasks Trace.tunnel_writes] in Ht, Hq;
    try discriminate;
    try (cbn [App.run_started];
         specialize (IH s ap Hq Ht);
         destruct (App.run_started w s ap evs) as [ap2 ev2];
         cbn [snd Trace.tunnel_writes] in *; exact IH).
  injection Ht as -> Ht. cbn [App.run_started].
  destruct (App.run_task w ap addr P (App.queryTuner w s q)) as [ap1 ev1].
  rewrite (run_started_no_task w evs (S (S s)) ap1 Ht).
  cbn [snd]. rewrite tunnel_writes_app, Hq, app_nil_r. reflexivity.
Qed.

(** A task that receives one response, with a connection held, writes the
    frame of the response's Envelope to that connection. *)
Lemma run_task_one_response (w : App.World) (s : Sock) (c0 : Conn)
    (q addr : list byte) (P : Z) (answer : list byte) :
  listening w = true ->
  fst (App.inbox w (S s)) = [answer] ->
  (0 < length answer <= UDPReadBufferSize)%nat ->
  Trace.tunnel_writes
    (snd (App.run_task w (App.mkAppProxy (Some c0)) addr P
            (App.queryTuner w s q)))
  = [(c0, Codec.Encode (Envelope.pack addr P answer))].
Proof.
  intros L Hone Hsize.
  destruct (queryTuner_quiet w s q) as [Hquiet _].
  destruct (run_task_replies w addr P (App.queryTuner w s q)
              (App.mkAppProxy (Some c0)) Hquiet) as [_ Hwr].
  destruct (queryTuner_sockets w s q L) as (_ & _ & Hcb).
  rewrite Hwr, Hcb, Hone, handed_over_one by exact Hsize.
  cbn [reply_all App.reply App.tcpTransport].
  destruct (App.tcp_write_ok w c0 (Codec.Encode (Envelope.pack addr P answer)));
    reflexivity.
Qed.

(** What the capture loop encodes: the Envelope of the sender's address
    and port and of the bytes read. *)
Lemma capture_frame (tp : Tuner.TunerProxy) (buf : list byte)
    (dg : Tuner.Datagram) (enc : list byte) :
  snd (Tuner.capture tp buf dg) = Some enc ->
  enc = Codec.Encode
          (Envelope.pack (To4 (addrIP (Tuner.remoteAddr dg)))
             (uint16 (Port (Tuner.remoteAddr dg)))
             (firstn (length buf) (Tuner.payload dg)))
  /\ (0 < length (firstn (length buf) (Tuner.payload dg)))%nat.
Proof.
  unfold Tuner.capture, Tuner.getTCPTransport.
  rewrite read_into_prefix, length_firstn.
  destruct (Tuner.tcpTransport tp); [|discriminate].
  destruct (Nat.ltb_spec 0 (Nat.min (length buf) (length (Tuner.payload dg))))
    as [Hn|Hn]; [|discriminate].
  cbn [snd]. intros E. injection E as <-. split; [reflexivity|exact Hn].
Qed.

Lemma delivers_pack (w : TunerTunnel.World) (s : Sock) (h : Heap)
    (conn : Conn) (a b c d : byte) (P : Z) (R : list byte) :
  0 <= P < 65536 ->
  Z.of_nat (length R) <= 65529 ->
  TunerTunnel.dial_ok w s = true ->
  delivers w s h conn (Codec.Encode (Envelope.pack [a; b; c; d] P R))
    (mkUDPAddr (IPv4 a b c d) P) R.
Proof.
  intros HP HR Hdial chunks Hcat.
  destruct (tuner_reads_sim w conn chunks s h Codec.NewMessageCodec
              Frames.AtStart)
    as (s' & h' & codec' & evs & E & _ & _ & Hd & Hs); [cbn; auto|exact I|].
  rewrite Hcat, <- (app_nil_r (Codec.Encode _)) in Hd, Hs.
  rewrite frames_run_Encode in Hd, Hs by (rewrite pack_length; lia).
  cbn [fst snd Frames.run] in Hd, Hs.
  rewrite replies_of_pack, Hdial in Hd, Hs by exact HP.
  exists s', h', codec', evs. split; [exact E|]. split; assumption.
Qed.

(** X8. The whole way of a discovery.  An application's datagram is
    captured by the Client-Side Relay while a connection is held; the
    App-Side Relay reads the encoded message from the tunnel in any chunks
    and runs the task it starts; the task receives one response.  Then the
    App-Side Relay writes exactly one frame to the connection it holds, and
    the Client-Side Relay, reading that frame in any chunks, sends the
    response, unchanged, to the IPv4 address and port the application's
    datagram came from. *)
Theorem discovery_round_trip
    (tp : Tuner.TunerProxy) (buf : list byte) (dg : Tuner.Datagram)
    (a b c d : byte) (query_chunks : list slice) (h1 : Heap) (conn1 : Conn)
    (w : App.World) (s : Sock) (c0 : Conn) (answer : list byte)
    (tw : TunerTunnel.World) (s2 : Sock) (h2 : Heap) (conn2 : Conn) :
  length buf = UDPReadBufferSize ->
  To4 (addrIP (Tuner.remoteAddr dg)) = [a; b; c; d] ->
  0 <= Port (Tuner.remoteAddr dg) < 65536 ->
  snd (Tuner.capture tp buf dg) = Some (concat (map elems query_chunks)) ->
  listening w = true ->
  fst (App.inbox w (S s)) = [answer] ->
  (0 < length answer <= UDPReadBufferSize)%nat ->
  TunerTunnel.dial_ok tw s2 = true ->
  exists h1' codec1 evs1 frame,
    AppTunnel.handleTunerProxyConnection_reads h1 Codec.NewMessageCodec conn1
      query_chunks = Some (h1', codec1, evs1)
    /\ Trace.tunnel_writes
         (snd (App.run_started w s (App.mkAppProxy (Some c0)) evs1))
       = [(c0, frame)]
    /\ delivers tw s2 h2 conn2 frame
         (mkUDPAddr (IPv4 a b c d) (Port (Tuner.remoteAddr dg))) answer.
Proof.
  intros Hbuf Hip HP Hcap L Hone Hsize Hdial.
  destruct (capture_frame tp buf dg _ Hcap) as [Henc Hn].
  rewrite Hip, Hbuf in Henc. rewrite Hbuf in Hn.
  unfold uint16 in Henc. rewrite Z.mod_small in Henc by exact HP.
  remember (firstn UDPReadBufferSize (Tuner.payload dg)) as X eqn:EX.
  assert (HX : (length X <= UDPReadBufferSize)%nat)
    by (subst X; rewrite length_firstn; lia).
  unfold UDPReadBufferSize in HX, Hsize.
  destruct (app_reads_sim conn1 query_chunks h1 Codec.NewMessageCodec
              Frames.AtStart)
    as (h1' & codec1 & evs1 & E & _ & _ & Ht); [cbn; auto|exact I|].
  rewrite Henc, <- (app_nil_r (Codec.Encode _)) in Ht.
  rewrite frames_run_Encode in Ht by (rewrite pack_length; lia).
  cbn [fst snd Frames.run] in Ht. rewrite tasks_of_pack in Ht by exact HP.
  exists h1', codec1, evs1,
    (Codec.Encode
       (Envelope.pack [a; b; c; d] (Port (Tuner.remoteAddr dg)) answer)).
  split; [exact E|]. split.
  - rewrite (run_started_one_task w X [a; b; c; d]
               (Port (Tuner.remoteAddr dg)) evs1 s _
               (app_reads_quiet _ _ _ _ _ _ _ E) Ht).
    apply run_task_one_response; assumption.
  - apply delivers_pack; [exact HP|lia|exact Hdial].
Qed.

(** "QUERY" from 192.168.1.42:54321 and the response "ANSWER"; the tunnel
    hands over one byte at a time. *)
Lemma discovery_round_trip_example :
  exists h1' codec1 evs1 frame,
    AppTunnel.handleTunerProxyConnection_reads 1%nat Codec.NewMessageCodec
      2%nat
      (map (fun x => mkSlice 0%nat [x])
         (Codec.Encode
            (Envelope.pack Spec.origin_address Spec.origin_port Spec.QUERY)))
    = Some (h1', codec1, evs1)
    /\ Trace.tunnel_writes
         (snd (App.run_started (world_of (answer_to 8%nat Spec.ANSWER))
                 7%nat (App.mkAppProxy (Some 2%nat)) evs1))
       = [(2%nat, frame)]
    /\ delivers (TunerTunnel.mkWorld (fun _ => true) (fun _ => true))
         5%nat 1%nat 3%nat frame
         (mkUDPAddr (IPv4 xc0 xa8 x01 x2a) Spec.origin_port) Spec.ANSWER.
Proof.
  apply (discovery_round_trip (Tuner.mkTunerProxy (Some 3%nat))
           (repeat x00 UDPReadBufferSize) early xc0 xa8 x01 x2a
           (map (fun x => mkSlice 0%nat [x])
              (Codec.Encode
                 (Envelope.pack Spec.origin_address Spec.origin_port
                    Spec.QUERY)))
           1%nat 2%nat (world_of (answer_to 8%nat Spec.ANSWER)) 7%nat 2%nat
           Spec.ANSWER
           (TunerTunnel.mkWorld (fun _ => true) (fun _ => true))
           5%nat 1%nat 3%nat).
  - apply repeat_length.
  - reflexivity.
  - unfold early, Spec.origin_port. cbn. lia.
  - vm_compute. reflexivity.
  - reflexivity.
  - reflexivity.
  - unfold Spec.ANSWER, UDPReadBufferSize. cbn. lia.
  - reflexivity.
Defined.

(** *** Frames on the tunnel *)

Lemma Encode_length (data : list byte) :
  length (Codec.Encode data) = (2 + length data)%nat.
Proof.
  destruct (Encode_header data) as (hi & lo & E & _). rewrite E. reflexivity.
Qed.

Lemma Forall_app_intro {A : Type} (Q : A -> Prop) (l1 l2 : list A) :
  Forall Q l1 -> Forall Q l2 -> Forall Q (l1 ++ l2).
Proof. intros H1 H2. apply Forall_app. split; assumption. Qed.

Lemma tick_writes_nothing (tp : Tuner.TunerProxy) (host : string)
    (r : DialResult) :
  Trace.tunnel_writes (snd (Tuner.tick tp host r)) = [].
Proof.
  unfold Tuner.tick, Tuner.getTCPTransport, Tuner.connectToAppProxy,
    Tuner.setTCPTransport.
  destruct (Tuner.tcpTransport tp); [reflexivity|].
  destruct r as [c|e]; [reflexivity|].
  destruct e as [? ? ?|? ? ? ? inner|?]; try reflexivity.
  cbn [snd app Trace.tunnel_writes].
  destruct (String.eqb (Error inner) "no such host"); reflexivity.
Qed.

Lemma closeTCP_writes_nothing (tp : Tuner.TunerProxy) :
  Trace.tunnel_writes (snd (Tuner.closeTCP tp)) = [].
Proof. unfold Tuner.closeTCP. destruct (Tuner.tcpTransport tp); reflexivity. Qed.

Lemma step_keeps_capture_loop_ok (host : string) (sys sys' : Tuner.System)
    (i : Tuner.Input) (evs : list Event) :
  capture_loop_ok sys ->
  Tuner.step host sys i = Some (sys', evs) ->
  capture_loop_ok sys'
  /\ Forall (fun cw => well_framed (snd cw) /\ (length (snd cw) <= 4104)%nat)
       (Trace.tunnel_writes evs).
Proof.
  intros [Hlen Hpend] E. unfold capture_loop_ok.
  destruct i as [r|conn|dg|ok]; cbn [Tuner.step] in E.
  - pose proof (tick_writes_nothing (Tuner.proxy sys) host r) as Hq.
    destruct (Tuner.tick (Tuner.proxy sys) host r) as [tp ev].
    injection E as <- <-. cbn [snd] in Hq. rewrite Hq.
    split; [split; assumption|constructor].
  - unfold Tuner.read_loop_error in E.
    pose proof (closeTCP_writes_nothing (Tuner.proxy sys)) as Hq.
    destruct (Tuner.closeTCP (Tuner.proxy sys)) as [tp ev].
    injection E as <- <-. cbn [snd Trace.tunnel_writes] in *. rewrite Hq.
    split; [split; assumption|constructor].
  - destruct (Tuner.pending sys); [discriminate|].
    unfold Tuner.capture, Tuner.getTCPTransport in E.
    rewrite read_into_prefix, Hlen in E.
    assert (HX : (length (firstn UDPReadBufferSize (Tuner.payload dg))
                  <= UDPReadBufferSize)%nat)
      by (rewrite length_firstn; lia).
    assert (Hn : Nat.min UDPReadBufferSize (length (Tuner.payload dg))
                 = length (firstn UDPReadBufferSize (Tuner.payload dg)))
      by (rewrite length_firstn; reflexivity).
    rewrite Hn in E.
    remember (firstn UDPReadBufferSize (Tuner.payload dg)) as X eqn:EX.
    unfold UDPReadBufferSize in HX.
    destruct (Tuner.tcpTransport (Tuner.proxy sys)).
    + destruct (Nat.ltb_spec 0 (length X)) as [Hpos|Hz];
        injection E as <- <-; cbn [Tuner.buf Tuner.pending];
        rewrite read_into_length.
      * split; [split; [exact Hlen|]|].
        -- split;
             [apply Encode_well_framed; rewrite pack_length; lia
             |rewrite Encode_length, pack_length; lia].
        -- cbn. constructor.
      * split; [split; [exact Hlen|exact I]|constructor].
    + injection E as <- <-. cbn [Tuner.buf Tuner.pending].
      rewrite read_into_length. split; [split; [exact Hlen|exact I]|].
      constructor.
  - destruct (Tuner.pending sys) as [enc|] eqn:Ep; [|discriminate].
    unfold Tuner.send, Tuner.getTCPTransport in E.
    pose proof (closeTCP_writes_nothing (Tuner.proxy sys)) as Hq.
    destruct (Tuner.tcpTransport (Tuner.proxy sys)) as [c|].
    + destruct ok.
      * injection E as <- <-. cbn [Tuner.buf Tuner.pending].
        split; [split; [exact Hlen|exact I]|].
        cbn. constructor; [exact Hpend|constructor].
      * destruct (Tuner.closeTCP (Tuner.proxy sys)) as [tp1 ev1].
        injection E as <- <-. cbn [Tuner.buf Tuner.pending snd] in *.
        split; [split; [exact Hlen|exact I]|].
        cbn. rewrite Hq. constructor; [exact Hpend|constructor].
    + injection E as <- <-. cbn [Tuner.buf Tuner.pending].
      split; [split; [exact Hlen|exact I]|constructor].
Qed.

Lemma run_keeps_capture_loop_ok (host : string) (inputs : list Tuner.Input) :
  forall sys sys' evs,
  capture_loop_ok sys ->
  Tuner.run host sys inputs = Some (sys', evs) ->
  capture_loop_ok sys'
  /\ Forall (fun cw => well_framed (snd cw) /\ (length (snd cw) <= 4104)%nat)
       (Trace.tunnel_writes evs).
Proof.
  induction inputs as [|i rest IH]; intros sys sys' evs Hok E.
  - injection E as <- <-. split; [exact Hok|constructor].
  - cbn [Tuner.run] in E.
    destruct (Tuner.step host sys i) as [[sys1 ev1]|] eqn:E1; [|discriminate].
    destruct (Tuner.run host sys1 rest) as [[sys2 ev2]|] eqn:E2;
      [|discriminate].
    injection E as <- <-.
    destruct (step_keeps_capture_loop_ok host sys sys1 i ev1 Hok E1)
      as [Hok1 Hw1].
    destruct (IH sys1 sys2 ev2 Hok1 E2) as [Hok2 Hw2].
    split; [exact Hok2|]. rewrite tunnel_writes_app.
    apply Forall_app_intro; assumption.
Qed.

(** X9. Whatever the Client-Side Relay does from its start (ticks, dials
    that fail or succeed, reads that fail, datagrams of any size from any
    address, writes that fail or succeed), every write to the tunnel is a
    whole frame: a 2-byte prefix that is the length of the Envelope after
    it, an Envelope with at least one byte of payload, and no more than
    4104 bytes in all. *)
Theorem client_side_writes_whole_frames
    (host : string) (inputs : list Tuner.Input) (sys : Tuner.System)
    (evs : list Event) :
  Tuner.run host Tuner.start inputs = Some (sys, evs) ->
  Forall (fun cw => well_framed (snd cw) /\ (length (snd cw) <= 4104)%nat)
    (Trace.tunnel_writes evs).
Proof.
  intros E.
  apply (run_keeps_capture_loop_ok host inputs Tuner.start sys evs);
    [|exact E].
  split; [apply repeat_length|exact I].
Qed.

(** A connection is made, a datagram captured and sent. *)
Lemma client_side_writes_whole_frames_example :
  exists evs,
    option_map snd (Tuner.run "app.example" Tuner.start connect_then_forward)
    = Some evs
    /\ Trace.tunnel_writes evs
       = [(1%nat,
           Codec.Encode
             (Envelope.pack Spec.origin_address Spec.origin_port
                Spec.ANSWER))]
    /\ Forall (fun cw => well_framed (snd cw)
                         /\ (length (snd cw) <= 4104)%nat)
         (Trace.tunnel_writes evs).
Proof.
  destruct (Tuner.run "app.example" Tuner.start connect_then_forward)
    as [[sys evs]|] eqn:E; [|vm_compute in E; discriminate].
  exists evs. split; [reflexivity|]. split.
  - vm_compute in E. injection E as _ <-. reflexivity.
  - apply (client_side_writes_whole_frames "app.example" connect_then_forward
             sys evs E).
Defined.

(** *** The responses of one query *)






(** *** Direct mode *)

Lemma read_into_fresh (d : list byte) :
  firstn (Nat.min (length (repeat x00 UDPReadBufferSize)) (length d))
    (read_into (repeat x00 UDPReadBufferSize) d)
  = firstn UDPReadBufferSize d.
Proof. rewrite read_into_prefix, repeat_length. reflexivity. Qed.

(** X11. A task of direct mode, in either relay and whatever the outside
    answers: it sends the query on its new socket and reads on that same
    socket, once; it answers the application at most once, with the first
    4096 bytes of the one datagram it read, on the socket the loop listens
    on and to the address the query came from; an empty datagram, a timeout
    or a failure gives no answer; and the socket it made is closed when it
    ends. *)
Theorem direct_task_answers_once
    (r : Direct.Relay) (w : Direct.World) (directHDHRIP : string) (s : Sock)
    (queryData : list byte) (appAddr : UDPAddr) (replyConn : Sock) :
  Direct.queries
    (Direct.forwardToDirectHDHR r w directHDHRIP s queryData appAddr
       replyConn)
  = (if Direct.resolve_ok w && Direct.dial_ok w then [(s, queryData)]
     else [])
  /\ Direct.reads
       (Direct.forwardToDirectHDHR r w directHDHRIP s queryData appAddr
          replyConn)
     = (if Direct.waiting w then [s] else [])
  /\ Direct.answers
       (Direct.forwardToDirectHDHR r w directHDHRIP s queryData appAddr
          replyConn)
     = (if Direct.waiting w then
          match Direct.response w with
          | Direct.Received d =>
              if (0 <? length d)%nat
              then [(replyConn, firstn UDPReadBufferSize d, appAddr)]
              else []
          | _ => []
          end
        else [])
  /\ Direct.closed
       (Direct.forwardToDirectHDHR r w directHDHRIP s queryData appAddr
          replyConn)
     = Direct.dialed
         (Direct.forwardToDirectHDHR r w directHDHRIP s queryData appAddr
            replyConn).
Proof.
  unfold Direct.forwardToDirectHDHR, Direct.waiting.
  destruct (Direct.resolve_ok w), (Direct.dial_ok w), (Direct.write_ok w);
    cbn [negb andb Direct.queries Direct.reads Direct.answers Direct.closed
         Direct.dialed];
    try (repeat split; reflexivity).
  destruct (Direct.response w) as [d| |];
    try (repeat split; reflexivity).
  rewrite read_into_fresh, repeat_length.
  assert (Hpos : (0 <? Nat.min UDPReadBufferSize (length d))%nat
                 = (0 <? length d)%nat).
  { unfold UDPReadBufferSize.
    destruct (Nat.ltb_spec 0 (length d));
      [apply Nat.ltb_lt|apply Nat.ltb_ge]; lia. }
  rewrite Hpos.
  destruct (0 <? length d)%nat; [|repeat split; reflexivity].
  destruct (Direct.reply_ok w); repeat split; reflexivity.
Qed.

Lemma read_into_twice (buf d1 d2 : list byte) :
  (length d1 <= length d2 <= length buf)%nat ->
  firstn (length d1) (read_into (read_into buf d1) d2)
  = firstn (length d1) d2.
Proof.
  intros H.
  pose proof (read_into_prefix (read_into buf d1) d2) as Hp.
  rewrite read_into_length in Hp.
  rewrite Nat.min_r in Hp by lia.
  rewrite (firstn_all2 (n := length buf) d2) in Hp by lia.
  rewrite <- Hp at 2. rewrite firstn_firstn, Nat.min_l by lia. reflexivity.
Qed.

Lemma read_into_once (buf d : list byte) :
  (length d <= length buf)%nat ->
  firstn (length d) (read_into buf d) = d.
Proof.
  intros H. pose proof (read_into_prefix buf d) as Hp.
  rewrite Nat.min_r in Hp by lia.
  rewrite Hp. apply firstn_all2. lia.
Qed.

(** X12. In direct mode the task is given a slice of the loop's buffer,
    and the loop goes on reading into that buffer: the query a task sends
    is what the buffer holds when the task writes.  When the task writes
    before the next datagram, that is the datagram that started it; when a
    second datagram, no shorter, is read first, the task sends the
    beginning of the second datagram, and the answer still goes to the
    sender of the first. *)
Theorem direct_task_sends_what_the_buffer_holds
    (r : Direct.Relay) (directHDHRIP : string) (st : Direct.Loop)
    (dg1 dg2 : Tuner.Datagram) (w : Direct.World) (answer : list byte) :
  length (Direct.buf st) = UDPReadBufferSize ->
  Direct.started st = [] ->
  (0 < length (Tuner.payload dg1) <= length (Tuner.payload dg2))%nat ->
  (length (Tuner.payload dg2) <= UDPReadBufferSize)%nat ->
  Direct.waiting w = true ->
  Direct.response w = Direct.Received answer ->
  (0 < length answer <= UDPReadBufferSize)%nat ->
  Direct.queries
    (snd (Direct.run r directHDHRIP st
            [Direct.Datagram dg1; Direct.Forward 0 w]))
  = [(Direct.next st, Tuner.payload dg1)]
  /\ Direct.queries
       (snd (Direct.run r directHDHRIP st
               [Direct.Datagram dg1; Direct.Datagram dg2;
                Direct.Forward 0 w]))
     = [(Direct.next st,
         firstn (length (Tuner.payload dg1)) (Tuner.payload dg2))]
  /\ Direct.answers
       (snd (Direct.run r directHDHRIP st
               [Direct.Datagram dg1; Direct.Datagram dg2;
                Direct.Forward 0 w]))
     = [(Direct.listenConn, answer, Tuner.remoteAddr dg1)].
Proof.
  intros Hbuf Hnone [Hpos Hle] Hle2 Hwait Hresp Hans.
  destruct st as [b started nxt]. cbn [Direct.buf Direct.started Direct.next] in *.
  subst started.
  set (d1 := Tuner.payload dg1) in *. set (d2 := Tuner.payload dg2) in *.
  assert (H1 : Nat.min (length b) (length d1) = length d1) by lia.
  assert (H2 : Nat.min (length (read_into b d1)) (length d2) = length d2)
    by (rewrite read_into_length; lia).
  assert (P1 : (0 <? length d1)%nat = true) by (apply Nat.ltb_lt; lia).
  assert (P2 : (0 <? length d2)%nat = true) by (apply Nat.ltb_lt; lia).
  unfold Direct.waiting in Hwait.
  apply andb_prop in Hwait. destruct Hwait as [Hwait Hwr].
  apply andb_prop in Hwait. destruct Hwait as [Hres Hdial].
  cbn [Direct.run Direct.step Direct.buf Direct.started Direct.next].
  fold d1 d2. rewrite H1, P1.
  cbn [Direct.buf Direct.started Direct.next app nth_error firstn skipn].
  rewrite H2, P2.
  cbn [Direct.buf Direct.started Direct.next app nth_error firstn skipn snd].
  rewrite !app_nil_r.
  rewrite read_into_once, read_into_twice by lia.
  unfold Direct.forwardToDirectHDHR.
  rewrite Hres, Hdial, Hwr, Hresp, read_into_fresh, repeat_length.
  assert (Hn : (0 <? Nat.min UDPReadBufferSize (length answer))%nat = true)
    by (apply Nat.ltb_lt; lia).
  rewrite Hn, (firstn_all2 (n := UDPReadBufferSize) answer) by lia.
  cbn [negb Direct.queries Direct.answers app].
  destruct (Direct.reply_ok w); repeat split; reflexivity.
Qed.

(** "QUERY" from 192.168.1.42 and then "ANSWER" from 192.168.1.7, before
    the first task writes: the device is sent "ANSWE", and what it answers
    goes to 192.168.1.42. *)
Lemma direct_task_sends_what_the_buffer_holds_example :
  Direct.queries
    (snd (Direct.run Direct.AppSide "192.168.1.50" Direct.start
            [Direct.Datagram early; Direct.Forward 0 
               (Direct.mkWorld true true true (Direct.Received Spec.ANSWER)
                  true)]))
  = [(1%nat, Spec.QUERY)]
  /\ Direct.queries
       (snd (Direct.run Direct.AppSide "192.168.1.50" Direct.start
               [Direct.Datagram early;
                Direct.Datagram
                  (Tuner.mkDatagram Spec.ANSWER
                     (mkUDPAddr [xc0; xa8; x01; x07] 40000));
                Direct.Forward 0
                  (Direct.mkWorld true true true
                     (Direct.Received Spec.ANSWER) true)]))
     = [(1%nat, list_byte_of_string "ANSWE")]
  /\ Direct.answers
       (snd (Direct.run Direct.AppSide "192.168.1.50" Direct.start
               [Direct.Datagram early;
                Direct.Datagram
                  (Tuner.mkDatagram Spec.ANSWER
                     (mkUDPAddr [xc0; xa8; x01; x07] 40000));
                Direct.Forward 0
                  (Direct.mkWorld true true true
                     (Direct.Received Spec.ANSWER) true)]))
     = [(Direct.listenConn, Spec.ANSWER,
         mkUDPAddr Spec.origin_address Spec.origin_port)].
Proof.
  apply (direct_task_sends_what_the_buffer_holds Direct.AppSide
           "192.168.1.50" Direct.start early
           (Tuner.mkDatagram Spec.ANSWER
              (mkUDPAddr [xc0; xa8; x01; x07] 40000))
           (Direct.mkWorld true true true (Direct.Received Spec.ANSWER) true)
           Spec.ANSWER).
  - apply repeat_length.
  - reflexivity.
  - cbn. lia.
  - unfold UDPReadBufferSize. cbn. lia.
  - reflexivity.
  - reflexivity.
  - unfold UDPReadBufferSize. cbn. lia.
Defined.

(** *** The Client-Side Relay: reconnecting *)

Lemma dials_app (e1 e2 : list Event) :
  Trace2.dials (e1 ++ e2) = (Trace2.dials e1 + Trace2.dials e2)%nat.
Proof.
  induction e1 as [|e e1 IH]; [reflexivity|].
  destruct e; cbn [app Trace2.dials]; rewrite IH; reflexivity.
Qed.

(** A tick while disconnected whose dial fails, but not for a reason that
    ends the process: one dial, and nothing changes. *)
Lemma tick_dial_fails (tp : Tuner.TunerProxy) (host : string) (e : error) :
  Tuner.tcpTransport tp = None ->
  TunerTunnel.fatal e = false ->
  fst (Tuner.tick tp host (DialFailed e)) = tp
  /\ Trace2.dials (snd (Tuner.tick tp host (DialFailed e))) = 1%nat
  /\ Trace2.tasks (snd (Tuner.tick tp host (DialFailed e))) = []
  /\ ~ In (Exit 1) (snd (Tuner.tick tp host (DialFailed e))).
Proof.
  intros Hnone Hnf. unfold Tuner.tick, Tuner.getTCPTransport.
  rewrite Hnone. cbn [Tuner.connectToAppProxy fst snd app].
  assert (Htail : match e with
                  | OpError _ _ _ _ inner =>
                      if String.eqb (Error inner) "no such host"
                      then [Log LError "Unknown host"; Exit 1]
                      else []
                  | _ => []
                  end = []).
  { destruct e as [| op net source addr inner |]; try reflexivity.
    cbn [TunerTunnel.fatal] in Hnf. rewrite Hnf. reflexivity. }
  rewrite Htail. split; [reflexivity|]. split; [reflexivity|].
  split; [reflexivity|].
  intros Hin. repeat (destruct Hin as [Hin|Hin]; [discriminate|]).
  exact Hin.
Qed.

(** A tick while connected does nothing but look at the connection. *)
Lemma tick_while_connected (tp : Tuner.TunerProxy) (host : string)
    (r : DialResult) (c : Conn) :
  Tuner.tcpTransport tp = Some c ->
  Tuner.tick tp host r = (tp, [Lock; Load (Some c); Unlock]).
Proof.
  intros Hheld. unfold Tuner.tick, Tuner.getTCPTransport. rewrite Hheld.
  reflexivity.
Qed.

Lemma run_failed_ticks (host : string) (rest : list Tuner.Input)
    (fails : list error) :
  forall sys,
  Tuner.tcpTransport (Tuner.proxy sys) = None ->
  Forall (fun e => TunerTunnel.fatal e = false) fails ->
  exists evs,
    Tuner.run host sys
      (map (fun e => Tuner.Tick (DialFailed e)) fails ++ rest)
    = match Tuner.run host sys rest with
      | Some (sys2, ev2) => Some (sys2, evs ++ ev2)
      | None => None
      end
    /\ Trace2.dials evs = length fails
    /\ Trace2.tasks evs = []
    /\ ~ In (Exit 1) evs.
Proof.
  induction fails as [|e fails IH]; intros sys Hnone Hnf.
  - exists []. cbn [map app]. split.
    + destruct (Tuner.run host sys rest) as [[sys2 ev2]|]; reflexivity.
    + split; [reflexivity|]. split; [reflexivity|]. intros [].
  - inversion Hnf as [|? ? He Hrest]; subst.
    destruct (tick_dial_fails (Tuner.proxy sys) host e Hnone He)
      as (Hst & Hd & Ht & Hx).
    destruct (IH sys Hnone Hrest) as (evs & E & Hd2 & Ht2 & Hx2).
    cbn [map app Tuner.run Tuner.step].
    destruct (Tuner.tick (Tuner.proxy sys) host (DialFailed e)) as [tp ev1].
    cbn [fst snd] in Hst, Hd, Ht, Hx. subst tp.
    destruct sys as [tp0 b pend]. cbn [Tuner.proxy Tuner.buf Tuner.pending] in *.
    rewrite E. exists (ev1 ++ evs).
    split.
    + destruct (Tuner.run host (Tuner.mkSystem tp0 b pend) rest)
        as [[sys2 ev2]|]; [rewrite app_assoc|]; reflexivity.
    + rewrite dials_app, tasks_app, Hd, Hd2, Ht, Ht2.
      split; [reflexivity|]. split; [reflexivity|].
      intros Hin. apply in_app_or in Hin. tauto.
Qed.

Lemma run_ticks_while_connected (host : string) (c : Conn)
    (later : list DialResult) :
  forall sys,
  Tuner.tcpTransport (Tuner.proxy sys) = Some c ->
  exists evs,
    Tuner.run host sys (map Tuner.Tick later) = Some (sys, evs)
    /\ Trace2.dials evs = 0%nat
    /\ Trace2.tasks evs = []
    /\ ~ In (Exit 1) evs.
Proof.
  induction later as [|r later IH]; intros sys Hheld.
  - exists []. split; [reflexivity|]. split; [reflexivity|].
    split; [reflexivity|]. intros [].
  - destruct (IH sys Hheld) as (evs & E & Hd & Ht & Hx).
    cbn [map Tuner.run Tuner.step].
    rewrite (tick_while_connected _ host r c Hheld).
    destruct sys as [tp0 b pend]. cbn [Tuner.proxy Tuner.buf Tuner.pending] in *.
    rewrite E. eexists. split; [reflexivity|].
    cbn [app Trace2.dials Trace2.tasks]. split; [exact Hd|].
    split; [exact Ht|].
    intros Hin. repeat (destruct Hin as [Hin|Hin]; [discriminate|]).
    exact (Hx Hin).
Qed.

(** X13. Reconnecting: from its start, while the dial of a tick fails for
    a reason that does not end the process, the Client-Side Relay dials
    again at the next tick; once a dial succeeds the connection is held, one
    read loop is started for it, and no later tick dials: there is one dial
    for every failure and one more, and the process does not exit. *)
Theorem reconnect_dials_until_connected
    (host : string) (fails : list error) (c : Conn)
    (later : list DialResult) :
  Forall (fun e => TunerTunnel.fatal e = false) fails ->
  exists sys evs,
    Tuner.run host Tuner.start
      (map (fun e => Tuner.Tick (DialFailed e)) fails
       ++ Tuner.Tick (Dialed c) :: map Tuner.Tick later)
    = Some (sys, evs)
    /\ Tuner.tcpTransport (Tuner.proxy sys) = Some c
    /\ Trace2.dials evs = S (length fails)
    /\ Trace2.tasks evs = [ReadLoop c]
    /\ ~ In (Exit 1) evs.
Proof.
  intros Hnf.
  destruct (run_failed_ticks host
              (Tuner.Tick (Dialed c) :: map Tuner.Tick later) fails
              Tuner.start eq_refl Hnf) as (ev1 & E1 & Hd1 & Ht1 & Hx1).
  destruct (run_ticks_while_connected host c later
              (Tuner.mkSystem (Tuner.mkTunerProxy (Some c))
                 (Tuner.buf Tuner.start) (Tuner.pending Tuner.start))
              eq_refl) as (ev3 & E3 & Hd3 & Ht3 & Hx3).
  rewrite E1. cbn [Tuner.run Tuner.step].
  change (Tuner.tick (Tuner.proxy Tuner.start) host (Dialed c))
    with (Tuner.mkTunerProxy (Some c),
          [Lock; Load None; Unlock; Log LInfo "Connecting to app proxy";
           TCPDial host TCPPort; Lock; Store (Some c); Unlock;
           Log LInfo "Connected to app proxy"; Go (ReadLoop c)]).
  cbv iota beta. rewrite E3.
  eexists _, _. split; [reflexivity|]. split; [reflexivity|].
  rewrite !dials_app, !tasks_app, Hd1, Ht1, Hd3, Ht3.
  cbn [Trace2.dials Trace2.tasks app]. split; [lia|]. split; [reflexivity|].
  intros Hin. apply in_app_or in Hin. destruct Hin as [Hin|Hin]; [tauto|].
  repeat (destruct Hin as [Hin|Hin]; [discriminate|]). exact (Hx3 Hin).
Qed.

(** The host is not resolved twice, the third dial succeeds, and two more
    ticks follow. *)
Lemma reconnect_dials_until_connected_example :
  exists sys evs,
    Tuner.run "app.example" Tuner.start
      (map (fun e => Tuner.Tick (DialFailed e))
         [dial_no_such_host "app.example" "";
          dial_no_such_host "app.example" "10.0.0.1:53"]
       ++ Tuner.Tick (Dialed 4%nat)
          :: map Tuner.Tick [Dialed 5%nat; DialFailed (OtherError "x")])
    = Some (sys, evs)
    /\ Tuner.tcpTransport (Tuner.proxy sys) = Some 4%nat
    /\ Trace2.dials evs = 3%nat
    /\ Trace2.tasks evs = [ReadLoop 4%nat]
    /\ ~ In (Exit 1) evs.
Proof.
  apply (reconnect_dials_until_connected "app.example"
           [dial_no_such_host "app.example" "";
            dial_no_such_host "app.example" "10.0.0.1:53"]
           4%nat [Dialed 5%nat; DialFailed (OtherError "x")]).
  repeat constructor.
Defined.

(** *** The Client-Side Relay: closing connections *)

Lemma closes_app (e1 e2 : list Event) :
  Trace2.closes (e1 ++ e2) = Trace2.closes e1 ++ Trace2.closes e2.
Proof.
  induction e1 as [|e e1 IH]; [reflexivity|].
  destruct e; cbn [app Trace2.closes]; rewrite IH; reflexivity.
Qed.

Lemma read_loops_app (e1 e2 : list Event) :
  Trace2.read_loops (e1 ++ e2)
  = Trace2.read_loops e1 ++ Trace2.read_loops e2.
Proof.
  induction e1 as [|e e1 IH]; [reflexivity|].
  destruct e as [| | | | | | | | | | | | | | |t| |];
    try (cbn [app Trace2.read_loops]; rewrite IH; reflexivity).
  destruct t; cbn [app Trace2.read_loops]; rewrite IH; reflexivity.
Qed.

(** [closeTCP] closes the connection held, whichever it is, and no
    other. *)
Lemma closeTCP_closes (tp : Tuner.TunerProxy) :
  Tuner.tcpTransport (fst (Tuner.closeTCP tp)) = None
  /\ Trace2.closes (snd (Tuner.closeTCP tp))
     = match Tuner.tcpTransport tp with Some c => [c] | None => [] end
  /\ Trace2.read_loops (snd (Tuner.closeTCP tp)) = [].
Proof.
  unfold Tuner.closeTCP.
  destruct (Tuner.tcpTransport tp) eqn:E; cbn; auto.
Qed.

Lemma connections_ok_close (tp : Tuner.TunerProxy) (made gone : list Conn) :
  connections_ok tp made gone ->
  connections_ok (fst (Tuner.closeTCP tp)) made
    (gone ++ Trace2.closes (snd (Tuner.closeTCP tp))).
Proof.
  intros (Hheld & Hincl & Hnd).
  destruct (closeTCP_closes tp) as (Hnone & Hc & _).
  unfold connections_ok. rewrite Hnone, Hc.
  destruct (Tuner.tcpTransport tp) as [c|].
  - destruct Hheld as [Hin Hnot]. split; [exact I|]. split.
    + apply incl_app; [exact Hincl|]. intros x [<-|[]]. exact Hin.
    + apply NoDup_app; [exact Hnd|repeat constructor; intros []|].
      intros x Hx [<-|[]]. exact (Hnot Hx).
  - rewrite app_nil_r. split; [exact I|]. split; assumption.
Qed.

Lemma tick_connections (tp : Tuner.TunerProxy) (host : string)
    (r : DialResult) :
  Tuner.tcpTransport tp = None ->
  Trace2.closes (snd (Tuner.tick tp host r)) = []
  /\ match r with
     | Dialed c =>
         fst (Tuner.tick tp host r) = Tuner.mkTunerProxy (Some c)
         /\ Trace2.read_loops (snd (Tuner.tick tp host r)) = [c]
     | DialFailed _ =>
         fst (Tuner.tick tp host r) = tp
         /\ Trace2.read_loops (snd (Tuner.tick tp host r)) = []
     end.
Proof.
  intros Hnone. unfold Tuner.tick, Tuner.getTCPTransport. rewrite Hnone.
  destruct r as [c|e]; [cbn; auto|].
  destruct e as [| ? ? ? ? inner |]; try (cbn; auto).
  destruct (String.eqb (Error inner) "no such host"); cbn; auto.
Qed.

Lemma step_keeps_connections_ok (host : string) (sys sys' : Tuner.System)
    (i : Tuner.Input) (evs : list Event) (made gone : list Conn) :
  connections_ok (Tuner.proxy sys) made gone ->
  Tuner.step host sys i = Some (sys', evs) ->
  NoDup (made ++ Trace2.read_loops evs) ->
  connections_ok (Tuner.proxy sys') (made ++ Trace2.read_loops evs)
    (gone ++ Trace2.closes evs).
Proof.
  intros Hok E Hnd. destruct i as [r|conn|dg|ok]; cbn [Tuner.step] in E.
  - destruct (Tuner.tcpTransport (Tuner.proxy sys)) as [c|] eqn:Eh.
    + rewrite (tick_while_connected _ host r c Eh) in E.
      injection E as <- <-. cbn. rewrite !app_nil_r. exact Hok.
    + destruct (tick_connections (Tuner.proxy sys) host r Eh) as [Hc Hr].
      destruct (Tuner.tick (Tuner.proxy sys) host r) as [tp ev].
      injection E as <- <-. cbn [fst snd Tuner.proxy] in *.
      rewrite Hc, app_nil_r. destruct r as [c|e]; destruct Hr as [-> Hr];
        rewrite Hr in *.
      * destruct Hok as (_ & Hincl & Hg).
        unfold connections_ok. cbn [Tuner.tcpTransport].
        apply NoDup_remove_2 in Hnd. rewrite app_nil_r in Hnd.
        split; [split; [apply in_or_app; right; left; reflexivity|]|].
        -- intros Hin. apply Hnd, Hincl, Hin.
        -- split; [|exact Hg].
           intros x Hx. apply in_or_app. left. apply Hincl, Hx.
      * rewrite app_nil_r. exact Hok.
  - unfold Tuner.read_loop_error in E.
    pose proof (connections_ok_close _ _ _ Hok) as Hclose.
    destruct (closeTCP_closes (Tuner.proxy sys)) as (_ & _ & Hr).
    destruct (Tuner.closeTCP (Tuner.proxy sys)) as [tp ev].
    injection E as <- <-. cbn [fst snd Tuner.proxy] in *.
    cbn [Trace2.read_loops Trace2.closes]. rewrite Hr, app_nil_r.
    exact Hclose.
  - destruct (Tuner.pending sys); [discriminate|].
    unfold Tuner.capture, Tuner.getTCPTransport in E.
    destruct (Tuner.tcpTransport (Tuner.proxy sys)) as [c|] eqn:Eh.
    + destruct (0 <? _)%nat; injection E as <- <-; cbn [Tuner.proxy];
        cbn [Trace2.read_loops Trace2.closes app];
        rewrite ?read_loops_app, ?closes_app; cbn; rewrite !app_nil_r;
        exact Hok.
    + injection E as <- <-. cbn. rewrite !app_nil_r. exact Hok.
  - destruct (Tuner.pending sys) as [enc|]; [|discriminate].
    unfold Tuner.send, Tuner.getTCPTransport in E.
    destruct (Tuner.tcpTransport (Tuner.proxy sys)) as [c|] eqn:Eh.
    + destruct ok.
      * injection E as <- <-. cbn. rewrite !app_nil_r. exact Hok.
      * pose proof (connections_ok_close _ _ _ Hok) as Hclose.
        destruct (closeTCP_closes (Tuner.proxy sys)) as (_ & _ & Hr).
        destruct (Tuner.closeTCP (Tuner.proxy sys)) as [tp ev].
        injection E as <- <-. cbn [fst snd Tuner.proxy] in *.
        cbn [app Trace2.read_loops Trace2.closes]. rewrite Hr, app_nil_r.
        exact Hclose.
    + injection E as <- <-. cbn. rewrite !app_nil_r. exact Hok.
Qed.

Lemma run_keeps_connections_ok (host : string) (inputs : list Tuner.Input) :
  forall sys sys' evs made gone,
  connections_ok (Tuner.proxy sys) made gone ->
  Tuner.run host sys inputs = Some (sys', evs) ->
  NoDup (made ++ Trace2.read_loops evs) ->
  connections_ok (Tuner.proxy sys') (made ++ Trace2.read_loops evs)
    (gone ++ Trace2.closes evs).
Proof.
  induction inputs as [|i rest IH]; intros sys sys' evs made gone Hok E Hnd.
  - injection E as <- <-. cbn. rewrite !app_nil_r. exact Hok.
  - cbn [Tuner.run] in E.
    destruct (Tuner.step host sys i) as [[sys1 ev1]|] eqn:E1; [|discriminate].
    destruct (Tuner.run host sys1 rest) as [[sys2 ev2]|] eqn:E2;
      [|discriminate].
    injection E as <- <-.
    rewrite read_loops_app, closes_app, !app_assoc in *.
    apply (IH sys1 sys2 ev2 _ _); [|exact E2|exact Hnd].
    apply (step_keeps_connections_ok host sys sys1 i ev1 made gone Hok E1).
    apply NoDup_app_remove_r in Hnd. exact Hnd.
Qed.

(** X14. Closing connections: in whatever the Client-Side Relay does from
    its start, when the connections dialed are all different, no connection
    is closed twice, only connections that were dialed are closed, and the
    connection held at the end was dialed and is not closed. *)
Theorem no_connection_is_closed_twice
    (host : string) (inputs : list Tuner.Input) (sys : Tuner.System)
    (evs : list Event) :
  Tuner.run host Tuner.start inputs = Some (sys, evs) ->
  NoDup (Trace2.read_loops evs) ->
  NoDup (Trace2.closes evs)
  /\ incl (Trace2.closes evs) (Trace2.read_loops evs)
  /\ (forall c, Tuner.tcpTransport (Tuner.proxy sys) = Some c ->
      In c (Trace2.read_loops evs) /\ ~ In c (Trace2.closes evs)).
Proof.
  intros E Hnd.
  destruct (run_keeps_connections_ok host inputs Tuner.start sys evs [] []
              ltac:(split; [exact I|split; [intros x []|constructor]])
              E Hnd) as (Hheld & Hincl & Hg).
  cbn [app] in *. split; [exact Hg|]. split; [exact Hincl|].
  intros c Hc. rewrite Hc in Hheld. exact Hheld.
Qed.

(** Connection 1 is made and lost by a write that fails, connection 2 is
    made: connection 1 was closed once and connection 2 is held. *)
Lemma no_connection_is_closed_twice_example :
  exists sys evs,
    Tuner.run "app.example" Tuner.start
      [Tuner.Tick (Dialed 1%nat); Tuner.Captured late; Tuner.Send false;
       Tuner.Tick (Dialed 2%nat)] = Some (sys, evs)
    /\ Trace2.closes evs = [1%nat]
    /\ Trace2.read_loops evs = [1%nat; 2%nat]
    /\ NoDup (Trace2.closes evs)
    /\ incl (Trace2.closes evs) (Trace2.read_loops evs)
    /\ (forall c, Tuner.tcpTransport (Tuner.proxy sys) = Some c ->
        In c (Trace2.read_loops evs) /\ ~ In c (Trace2.closes evs)).
Proof.
  destruct (Tuner.run "app.example" Tuner.start
              [Tuner.Tick (Dialed 1%nat); Tuner.Captured late;
               Tuner.Send false; Tuner.Tick (Dialed 2%nat)])
    as [[sys evs]|] eqn:E; [|vm_compute in E; discriminate].
  exists sys, evs. split; [reflexivity|].
  assert (Hl : Trace2.read_loops evs = [1%nat; 2%nat])
    by (vm_compute in E; injection E as _ <-; reflexivity).
  split; [vm_compute in E; injection E as _ <-; reflexivity|].
  split; [exact Hl|].
  apply (no_connection_is_closed_twice "app.example" _ sys evs E).
  rewrite Hl. repeat constructor; cbn; intuition discriminate.
Defined.

(** X15. The read loop of a connection does not close its own connection
    but the one held when its read fails.  A write to the held connection
    [c1] fails, so [c1] is closed; the next tick makes [c2]; then the read
    loop of [c1] sees its read fail: it closes [c2], the new connection,
    and the relay is disconnected again. *)
Theorem stale_read_loop_closes_the_new_connection
    (host : string) (sys : Tuner.System) (encodedMsg : list byte)
    (c1 c2 : Conn) :
  Tuner.tcpTransport (Tuner.proxy sys) = Some c1 ->
  Tuner.pending sys = Some encodedMsg ->
  exists sys' evs,
    Tuner.run host sys
      [Tuner.Send false; Tuner.Tick (Dialed c2); Tuner.ReadError c1]
    = Some (sys', evs)
    /\ Trace2.closes evs = [c1; c2]
    /\ Trace2.read_loops evs = [c2]
    /\ Tuner.tcpTransport (Tuner.proxy sys') = None.
Proof.
  intros Hheld Hpend. destruct sys as [[held] b pend].
  cbn [Tuner.proxy Tuner.pending Tuner.tcpTransport] in *. subst held pend.
  eexists _, _. split; [reflexivity|]. cbn. auto.
Qed.

Lemma stale_read_loop_closes_the_new_connection_example :
  exists sys' evs,
    Tuner.run "app.example"
      (Tuner.mkSystem (Tuner.mkTunerProxy (Some 1%nat))
         (repeat x00 UDPReadBufferSize)
         (Some (Codec.Encode
                  (Envelope.pack Spec.origin_address Spec.origin_port
                     Spec.QUERY))))
      [Tuner.Send false; Tuner.Tick (Dialed 2%nat); Tuner.ReadError 1%nat]
    = Some (sys', evs)
    /\ Trace2.closes evs = [1%nat; 2%nat]
    /\ Trace2.read_loops evs = [2%nat]
    /\ Tuner.tcpTransport (Tuner.proxy sys') = None.
Proof.
  apply (stale_read_loop_closes_the_new_connection "app.example"
           (Tuner.mkSystem (Tuner.mkTunerProxy (Some 1%nat))
              (repeat x00 UDPReadBufferSize)
              (Some (Codec.Encode
                       (Envelope.pack Spec.origin_address Spec.origin_port
                          Spec.QUERY))))
           (Codec.Encode
              (Envelope.pack Spec.origin_address Spec.origin_port
                 Spec.QUERY))
           1%nat 2%nat); reflexivity.
Defined.

(** *** The configuration *)

(** X16. The period of the reconnect ticker: for every configuration whose
    reconnect interval is at most 9223372036 seconds, [NewTicker] gets a
    positive period and does not panic; the period is the configured number
    of seconds when that is positive and 3 seconds when it is zero or
    negative. *)
Theorem reconnect_ticker_has_a_positive_period (c : Config.Config) :
  Config.ReconnectInterval c <= 9223372036 ->
  Config.reconnect_ticker c
  = Some ((if 0 <? Config.ReconnectInterval c
           then Config.ReconnectInterval c else 3) * 1000000000)
  /\ 0 < Config.GetReconnectInterval c.
Proof.
  intros Hmax.
  unfold Config.reconnect_ticker, Config.GetReconnectInterval,
    Config.ReconnectIntervalDefault, Config.Second, Config.NewTicker.
  destruct (Z.ltb_spec 0 (Config.ReconnectInterval c)) as [Hpos|Hneg].
  - rewrite wrap_int_small by lia.
    destruct (Z.leb_spec (Config.ReconnectInterval c * 1000000000) 0);
      [lia|]. split; [reflexivity|exact Hpos].
  - split; [reflexivity|lia].
Qed.

(** The interval of the template, and an interval of zero. *)
Lemma reconnect_ticker_has_a_positive_period_example :
  Config.reconnect_ticker Config.template = Some 3000000000
  /\ Config.reconnect_ticker
       (Config.mkConfig 0 0 0 0 0 false (Config.mkAppSettings "" "")
          (Config.mkTunerSettings "" false ""))
     = Some 3000000000.
Proof.
  split.
  - apply (reconnect_ticker_has_a_positive_period Config.template).
    cbn. lia.
  - apply (reconnect_ticker_has_a_positive_period
             (Config.mkConfig 0 0 0 0 0 false (Config.mkAppSettings "" "")
                (Config.mkTunerSettings "" false ""))).
    cbn. lia.
Defined.

(** One second more and the product no longer fits 64 bits: the period is
    negative and [NewTicker] panics. *)
Example reconnect_ticker_overflow :
  Config.reconnect_ticker
    (Config.mkConfig 0 0 0 0 9223372037 false (Config.mkAppSettings "" "")
       (Config.mkTunerSettings "" false ""))
  = None.
Proof. reflexivity. Qed.

(** *** The Envelope of any address *)

Lemma pack_any_layout (addr : list byte) (port : Z) (data : list byte) :
  Envelope.pack addr port data
  = firstn 4 (addr ++ repeat x00 4) ++ PutUint16 port ++ data.
Proof.
  unfold Envelope.pack, copy_at, copy, PutUint16.
  destruct addr as [|a [|b [|c [|d rest]]]];
    cbn [repeat Nat.add firstn skipn length Nat.sub Nat.min app];
    rewrite !repeat_length, ?Nat.sub_0_r;
    rewrite (firstn_all2 (n := length data) (repeat x00 (length data)))
      by (rewrite repeat_length; lia);
    rewrite repeat_length, Nat.min_id, firstn_all;
    rewrite !skipn_all2 by (rewrite repeat_length; lia);
    rewrite !app_nil_r; reflexivity.
Qed.

(** [To4] gives four bytes or none. *)
Lemma To4_length (ip : IP) : length (To4 ip) = 4%nat \/ To4 ip = [].
Proof.
  unfold To4. destruct (Nat.eqb_spec (length ip) 4) as [H4|_]; [left; exact H4|].
  destruct (Nat.eqb_spec (length ip) 16) as [H16|_]; [|right; reflexivity].
  cbn [andb].
  destruct (isZeros (firstn 10 ip) && Byte.eqb (nth 10 ip x00) xff
            && Byte.eqb (nth 11 ip x00) xff); [|right; reflexivity].
  left. rewrite length_firstn, length_skipn. lia.
Qed.

(** X17. The Envelope of any address: whatever the length of the address
    slice, the Envelope is 6 bytes longer than the payload and is parsed
    back to the first four bytes of the address, filled up with zeros, the
    port and the payload.  So the sender of a captured datagram whose
    address has no IPv4 form, for which [To4] gives no bytes, is carried as
    0.0.0.0, and every address [To4] gives is carried as it is. *)
Theorem Envelope_of_any_address
    (addr : list byte) (P : Z) (X : list byte) (ip : IP) :
  0 <= P < 65536 ->
  length (Envelope.pack addr P X) = (6 + length X)%nat
  /\ Envelope.unpack (Envelope.pack addr P X)
     = Some (firstn 4 (addr ++ repeat x00 4), P, X)
  /\ Envelope.unpack (Envelope.pack (To4 ip) P X)
     = Some (match To4 ip with
             | [] => [x00; x00; x00; x00]
             | _ => To4 ip
             end, P, X).
Proof.
  intros HP.
  assert (Hany : forall a,
             Envelope.unpack (Envelope.pack a P X)
             = Some (firstn 4 (a ++ repeat x00 4), P, X)).
  { intros a. rewrite pack_any_layout.
    assert (L : length (firstn 4 (a ++ repeat x00 4)) = 4%nat).
    { rewrite length_firstn, length_app, repeat_length. lia. }
    destruct (firstn 4 (a ++ repeat x00 4)) as [|a0 [|a1 [|a2 [|a3 [|]]]]];
      try discriminate.
    destruct (PutUint16_value P HP) as (hi & lo & E & _).
    pose proof (Uint16_PutUint16 P [] HP) as U.
    rewrite E in *. cbn [app] in *. rewrite unpack_layout, U. reflexivity. }
  split; [apply pack_length|]. split; [apply Hany|].
  rewrite Hany. destruct (To4_length ip) as [H4|Hnil].
  - destruct (To4 ip) as [|a0 [|a1 [|a2 [|a3 [|]]]]]; try discriminate.
    reflexivity.
  - rewrite Hnil. reflexivity.
Qed.

(** The address 2001:db8::1 has no IPv4 form. *)
Lemma Envelope_of_any_address_example :
  Envelope.unpack
    (Envelope.pack
       (To4 ([x20; x01; x0d; xb8] ++ repeat x00 11 ++ [x01]))
       Spec.origin_port Spec.QUERY)
  = Some ([x00; x00; x00; x00], Spec.origin_port, Spec.QUERY).
Proof.
  apply (Envelope_of_any_address [] Spec.origin_port Spec.QUERY
           ([x20; x01; x0d; xb8] ++ repeat x00 11 ++ [x01])).
  unfold Spec.origin_port. lia.
Defined.

(** *** Sockets are closed *)

Lemma udp_made_app (e1 e2 : list Event) :
  Trace2.udp_made (e1 ++ e2) = Trace2.udp_made e1 ++ Trace2.udp_made e2.
Proof.
  induction e1 as [|e e1 IH]; [reflexivity|].
  destruct e; cbn [app Trace2.udp_made]; rewrite IH; reflexivity.
Qed.

Lemma udp_closed_app (e1 e2 : list Event) :
  Trace2.udp_closed (e1 ++ e2)
  = Trace2.udp_closed e1 ++ Trace2.udp_closed e2.
Proof.
  induction e1 as [|e e1 IH]; [reflexivity|].
  destruct e; cbn [app Trace2.udp_closed]; rewrite IH; reflexivity.
Qed.

(** The read loop of a query task makes no socket and closes none. *)
Lemma read_responses_keeps_sockets (listener : Sock) (last : ReadEnd)
    (datagrams : list (list byte)) :
  forall buf,
  Trace2.udp_made (App.read_responses listener buf datagrams last) = []
  /\ Trace2.udp_closed (App.read_responses listener buf datagrams last) = [].
Proof.
  induction datagrams as [|d ds IH]; intros buf.
  - destruct last; split; reflexivity.
  - cbn [App.read_responses Trace2.udp_made Trace2.udp_closed].
    rewrite udp_made_app, udp_closed_app.
    destruct (IH (read_into buf d)) as [Hm Hc]. rewrite Hm, Hc.
    destruct (0 <? Nat.min (length buf) (length d))%nat; split; reflexivity.
Qed.

(** X18. Sockets do not leak: whatever the outside answers and however
    many responses come, a query task of the App-Side Relay closes every
    UDP socket it made, the last made first, before it ends, and it makes
    two at most; and the handler of the Client-Side Relay for a message
    from the tunnel returns on every message and closes the socket it made,
    if it made one. *)
Theorem udp_sockets_are_closed
    (w : App.World) (s : Sock) (queryData : list byte)
    (tw : TunerTunnel.World) (s2 : Sock) (msg : list byte) :
  Trace2.udp_closed (App.queryTuner w s queryData)
  = rev (Trace2.udp_made (App.queryTuner w s queryData))
  /\ (length (Trace2.udp_made (App.queryTuner w s queryData)) <= 2)%nat
  /\ exists evs,
       Tuner.onMessageReceivedFromAppProxy (TunerTunnel.dial_ok tw s2)
         (TunerTunnel.write_ok tw s2) s2 msg = Some evs
       /\ Trace2.udp_closed evs = Trace2.udp_made evs
       /\ (length (Trace2.udp_made evs) <= 1)%nat.
Proof.
  split; [|split].
  - unfold App.queryTuner.
    destruct (App.resolve_ok w), (App.dial_ok w), (App.write_ok w),
      (App.resolve_listen_ok w), (App.listen_ok w);
      cbn [negb Trace2.udp_made Trace2.udp_closed rev app];
      try reflexivity.
    rewrite udp_made_app, udp_closed_app.
    destruct (read_responses_keeps_sockets (S s) (snd (App.inbox w (S s)))
                (fst (App.inbox w (S s))) (repeat x00 UDPReadBufferSize))
      as [Hm Hc].
    rewrite Hm, Hc. reflexivity.
  - unfold App.queryTuner.
    destruct (App.resolve_ok w), (App.dial_ok w), (App.write_ok w),
      (App.resolve_listen_ok w), (App.listen_ok w);
      cbn [negb Trace2.udp_made length]; try lia.
    rewrite udp_made_app.
    destruct (read_responses_keeps_sockets (S s) (snd (App.inbox w (S s)))
                (fst (App.inbox w (S s))) (repeat x00 UDPReadBufferSize))
      as [Hm _].
    rewrite Hm. cbn. lia.
  - unfold Tuner.onMessageReceivedFromAppProxy.
    destruct (Nat.ltb_spec (length msg) 6) as [Hs|Hl].
    + eexists. split; [reflexivity|]. cbn. split; [reflexivity|lia].
    + destruct msg as [|a [|b [|c [|d [|p0 [|p1 data]]]]]];
        cbn [length] in Hl; try lia.
      rewrite unpack_layout.
      destruct (TunerTunnel.dial_ok tw s2), (TunerTunnel.write_ok tw s2);
        eexists; (split; [reflexivity|]); cbn; (split; [reflexivity|lia]).
Qed.

(** *** Many queries *)

(** A datagram captured and sent while a connection is held: one write,
    the frame of its Envelope, and only the buffer changes. *)
Lemma capture_then_send (host : string) (sys : Tuner.System) (c0 : Conn)
    (dg : Tuner.Datagram) :
  Tuner.tcpTransport (Tuner.proxy sys) = Some c0 ->
  Tuner.pending sys = None ->
  length (Tuner.buf sys) = UDPReadBufferSize ->
  Tuner.payload dg <> [] ->
  exists evs,
    Tuner.run host sys [Tuner.Captured dg; Tuner.Send true]
    = Some (Tuner.mkSystem (Tuner.proxy sys)
              (read_into (Tuner.buf sys) (Tuner.payload dg)) None, evs)
    /\ Trace.tunnel_writes evs = [(c0, Codec.Encode (envelope_of dg))].
Proof.
  intros Hheld Hpend Hbuf Hne.
  cbn [Tuner.run Tuner.step]. rewrite Hpend.
  unfold Tuner.capture, Tuner.getTCPTransport.
  rewrite read_into_prefix, Hbuf, Hheld.
  assert (Hpos : (0 <? Nat.min UDPReadBufferSize (length (Tuner.payload dg)))%nat
                 = true).
  { apply Nat.ltb_lt. unfold UDPReadBufferSize.
    destruct (Tuner.payload dg); [contradiction|cbn [length]; lia]. }
  rewrite Hpos. cbn [Tuner.pending Tuner.proxy Tuner.buf].
  unfold Tuner.send, Tuner.getTCPTransport. rewrite Hheld.
  eexists. split; [reflexivity|].
  rewrite app_nil_r, tunnel_writes_app. cbn [Trace.tunnel_writes].
  rewrite tunnel_writes_app. reflexivity.
Qed.

Lemma capture_and_send_writes (host : string) (c0 : Conn)
    (dgs : list Tuner.Datagram) :
  forall sys,
  Tuner.tcpTransport (Tuner.proxy sys) = Some c0 ->
  Tuner.pending sys = None ->
  length (Tuner.buf sys) = UDPReadBufferSize ->
  Forall from_IPv4 dgs ->
  exists sys' evs,
    Tuner.run host sys (capture_and_send dgs) = Some (sys', evs)
    /\ Tuner.proxy sys' = Tuner.proxy sys
    /\ Trace.tunnel_writes evs
       = map (fun dg => (c0, Codec.Encode (envelope_of dg))) dgs.
Proof.
  induction dgs as [|dg dgs IH]; intros sys Hheld Hpend Hbuf Hall.
  - exists sys, []. split; [reflexivity|]. split; reflexivity.
  - inversion Hall as [|? ? [_ Hne] Hrest]; subst.
    destruct (capture_then_send host sys c0 dg Hheld Hpend Hbuf Hne)
      as (ev1 & E1 & Hw1).
    destruct (IH (Tuner.mkSystem (Tuner.proxy sys)
                    (read_into (Tuner.buf sys) (Tuner.payload dg)) None)
                Hheld eq_refl
                ltac:(cbn [Tuner.buf]; rewrite read_into_length; exact Hbuf)
                Hrest) as (sys2 & ev2 & E2 & Hp2 & Hw2).
    change (capture_and_send (dg :: dgs))
      with ([Tuner.Captured dg; Tuner.Send true] ++ capture_and_send dgs).
    cbn [Tuner.run app] in E1 |- *.
    destruct (Tuner.step host sys (Tuner.Captured dg)) as [[s1 e1]|];
      [|discriminate].
    destruct (Tuner.step host s1 (Tuner.Send true)) as [[s2 e2]|];
      [|discriminate].
    injection E1 as -> <-. rewrite E2.
    eexists _, _. split; [reflexivity|]. split; [exact Hp2|].
    rewrite app_nil_r in Hw1.
    rewrite app_assoc, tunnel_writes_app, Hw1, Hw2. reflexivity.
Qed.

Lemma tasks_of_envelopes (dgs : list Tuner.Datagram) :
  Forall from_IPv4 dgs ->
  tasks_of (map envelope_of dgs) = map task_of dgs.
Proof.
  induction 1 as [|dg dgs [H4 _] _ IH]; [reflexivity|].
  assert (Hone : tasks_of [envelope_of dg] = [task_of dg]).
  { unfold envelope_of, task_of.
    destruct (To4 (addrIP (Tuner.remoteAddr dg)))
      as [|a [|b [|c [|d [|]]]]]; try discriminate.
    rewrite tasks_of_pack by (apply Z.mod_pos_bound; lia). reflexivity. }
  cbn [map]. change (envelope_of dg :: map envelope_of dgs)
    with ([envelope_of dg] ++ map envelope_of dgs).
  rewrite tasks_of_app, IH, Hone. reflexivity.
Qed.

(** X19. Many queries, one connection: while the connection is held and
    every write succeeds, the Client-Side Relay writes one frame for every
    datagram captured, in the order captured; and the App-Side Relay,
    reading those bytes from the tunnel in any chunks, starts one query task
    for every datagram, in the same order, each with the bytes, the address
    and the port of its datagram.  None is lost, doubled or mixed with
    another. *)
Theorem queries_cross_the_tunnel_in_order
    (host : string) (sys : Tuner.System) (c0 : Conn)
    (dgs : list Tuner.Datagram) (chunks : list slice) (h : Heap)
    (conn : Conn) :
  Tuner.tcpTransport (Tuner.proxy sys) = Some c0 ->
  Tuner.pending sys = None ->
  length (Tuner.buf sys) = UDPReadBufferSize ->
  Forall from_IPv4 dgs ->
  concat (map elems chunks)
  = concat (map (fun dg => Codec.Encode (envelope_of dg)) dgs) ->
  exists sys' evs h' codec' evs',
    Tuner.run host sys (capture_and_send dgs) = Some (sys', evs)
    /\ Trace.tunnel_writes evs
       = map (fun dg => (c0, Codec.Encode (envelope_of dg))) dgs
    /\ AppTunnel.handleTunerProxyConnection_reads h Codec.NewMessageCodec
         conn chunks = Some (h', codec', evs')
    /\ Trace2.tasks evs' = map task_of dgs.
Proof.
  intros Hheld Hpend Hbuf Hall Hcat.
  destruct (capture_and_send_writes host c0 dgs sys Hheld Hpend Hbuf Hall)
    as (sys' & evs & E & _ & Hw).
  destruct (app_reads_sim conn chunks h Codec.NewMessageCodec Frames.AtStart)
    as (h' & codec' & evs' & E' & _ & _ & Ht); [cbn; auto|exact I|].
  exists sys', evs, h', codec', evs'.
  split; [exact E|]. split; [exact Hw|]. split; [exact E'|].
  rewrite Ht, Hcat, <- map_map, frames_run_stream.
  - cbn [snd]. apply tasks_of_envelopes, Hall.
  - apply Forall_forall. intros m Hin. apply in_map_iff in Hin.
    destruct Hin as (dg & <- & _). unfold envelope_of.
    rewrite pack_length, length_firstn. unfold UDPReadBufferSize. lia.
Qed.

(** "QUERY" and "ANSWER" captured one after the other; the tunnel hands
    over one byte at a time. *)
Lemma queries_cross_the_tunnel_in_order_example :
  exists sys' evs h' codec' evs',
    Tuner.run "app.example"
      (Tuner.mkSystem (Tuner.mkTunerProxy (Some 1%nat))
         (repeat x00 UDPReadBufferSize) None)
      (capture_and_send [early; late]) = Some (sys', evs)
    /\ Trace.tunnel_writes evs
       = map (fun dg => (1%nat, Codec.Encode (envelope_of dg))) [early; late]
    /\ AppTunnel.handleTunerProxyConnection_reads 1%nat Codec.NewMessageCodec
         2%nat
         (map (fun x => mkSlice 0%nat [x])
            (concat (map (fun dg => Codec.Encode (envelope_of dg))
                       [early; late])))
       = Some (h', codec', evs')
    /\ Trace2.tasks evs' = map task_of [early; late].
Proof.
  apply (queries_cross_the_tunnel_in_order "app.example"
           (Tuner.mkSystem (Tuner.mkTunerProxy (Some 1%nat))
              (repeat x00 UDPReadBufferSize) None)
           1%nat [early; late]
           (map (fun x => mkSlice 0%nat [x])
              (concat (map (fun dg => Codec.Encode (envelope_of dg))
                         [early; late])))
           1%nat 2%nat).
  - reflexivity.
  - reflexivity.
  - apply repeat_length.
  - repeat constructor; discriminate.
  - vm_compute. reflexivity.
Defined.

(** *** Many responses *)





(** *** Nothing is lost in the codec *)

Lemma PutUint16_of_bytes (hi lo : byte) :
  PutUint16 (byte_to_Z hi * 256 + byte_to_Z lo) = [hi; lo].
Proof.
  pose proof (PutUint16_Uint16 hi lo []) as H.
  cbn [Uint16] in H. unfold uint16 in H.
  pose proof (byte_to_Z_range hi). pose proof (byte_to_Z_range lo).
  rewrite Z.shiftl_mul_pow2 in H by lia. change (2 ^ 8) with 256 in H.
  rewrite Z.mod_small in H by lia.
  rewrite Z.lor_comm, lor_shifted_byte in H by lia. exact H.
Qed.

Lemma byte_to_Z_zero (b : byte) : byte_to_Z b = 0 -> b = x00.
Proof.
  intros H. rewrite <- (Z_to_byte_to_Z b), H. reflexivity.
Qed.

(** One byte: what was taken and the byte are the messages completed,
    encoded, and what is taken after it. *)
Lemma frames_step_conserves (p : Frames.Phase) (b : byte) :
  phase_ok p ->
  taken p ++ [b]
  = concat (map Codec.Encode (snd (Frames.step p b)))
    ++ taken (fst (Frames.step p b)).
Proof.
  intros Hp. destruct p as [|hi|k acc]; cbn [Frames.step taken].
  - reflexivity.
  - pose proof (byte_to_Z_range hi). pose proof (byte_to_Z_range b).
    destruct (Z.to_nat (byte_to_Z hi * 256 + byte_to_Z b)) eqn:E.
    + assert (byte_to_Z hi = 0 /\ byte_to_Z b = 0) as [Hh Hb] by lia.
      apply byte_to_Z_zero in Hh, Hb. subst. reflexivity.
    + cbn [snd fst map concat taken app length].
      rewrite Z.add_0_r, <- E, Z2Nat.id, app_nil_r by lia.
      rewrite PutUint16_of_bytes. reflexivity.
  - cbn in Hp. destruct Hp as [H1 H2].
    destruct k as [|[|k]]; [lia| |]; cbn [snd fst map concat taken app].
    + unfold Codec.Encode, uint16.
      rewrite length_app. cbn [length].
      rewrite Z.mod_small by lia. rewrite !app_nil_r, <- !app_assoc.
      f_equal. f_equal. lia.
    + rewrite length_app. cbn [length]. rewrite <- !app_assoc.
      f_equal. f_equal. lia.
Qed.

Lemma frames_run_conserves (data : list byte) :
  forall p, phase_ok p ->
  taken p ++ data
  = concat (map Codec.Encode (snd (Frames.run p data)))
    ++ taken (fst (Frames.run p data)).
Proof.
  induction data as [|b data IH]; intros p Hp.
  - cbn. rewrite app_nil_r. reflexivity.
  - cbn [Frames.run].
    pose proof (frames_step_conserves p b Hp) as Hs.
    destruct (frames_run_bounds [b] p Hp) as [Hp1 _].
    cbn [Frames.run] in Hp1.
    destruct (Frames.step p b) as [p1 o1]. cbn [fst snd] in *.
    specialize (IH p1 Hp1).
    destruct (Frames.run p1 data) as [p2 o2]. cbn [fst snd] in *.
    change (b :: data) with ([b] ++ data).
    rewrite app_assoc, Hs, map_app, concat_app, <- !app_assoc, IH.
    reflexivity.
Qed.

Lemma in_phase_unfinished (mc : Codec.MessageCodec) (p : Frames.Phase) :
  Frames.in_phase mc p -> unfinished mc = taken p.
Proof.
  unfold unfinished. destruct p as [|hi|k acc]; cbn [Frames.in_phase taken].
  - intros (-> & _ & _). reflexivity.
  - intros (-> & -> & _). cbn [Z.eqb].
    pose proof (byte_to_Z_range hi).
    rewrite Z.shiftr_div_pow2 by lia. change (2 ^ 8) with 256.
    rewrite Z.div_mul by lia. rewrite Z_to_byte_to_Z. reflexivity.
  - intros (-> & -> & -> & _). reflexivity.
Qed.

(** X21. Nothing is lost and nothing is invented, whatever the bytes are:
    for any chunks fed to a new codec, [Decode] returns every time, and the
    bytes fed are exactly the messages handed over, each encoded again, in
    order, followed by the bytes of the frame in progress (the length bytes
    read and the payload bytes buffered). *)
Theorem Decode_accounts_for_every_byte (chunks : list slice) (h : Heap) :
  exists h' mc' out,
    Codec.feed h Codec.NewMessageCodec chunks = Some (h', mc', out)
    /\ concat (map elems chunks)
       = concat (map Codec.Encode (map elems out)) ++ unfinished mc'.
Proof.
  destruct (feed_sim chunks h Codec.NewMessageCodec Frames.AtStart)
    as (h' & mc' & out & E & Hp & Ho & _); [cbn; auto|exact I|].
  exists h', mc', out. split; [exact E|].
  rewrite Ho, (in_phase_unfinished _ _ Hp).
  apply (frames_run_conserves (concat (map elems chunks)) Frames.AtStart I).
Qed.

(** *** Messages that are too short *)

(** X22. A message that is too short does not disturb the others: when
    frames of any messages of at most 65535 bytes, too short or not, reach
    a connection of the App-Side Relay in any chunks, the read loop returns
    on all of them, starts a query task for every message of 6 bytes or
    more and for no other, in order, each task with bytes [0:4) as address,
    bytes [4:6) big-endian as port and the bytes from 6 on as query, and
    writes nothing to the tunnel. *)
Theorem short_messages_do_not_disturb
    (ms : list (list byte)) (chunks : list slice) (h : Heap) (conn : Conn) :
  Forall (fun m => Z.of_nat (length m) <= 65535) ms ->
  concat (map elems chunks) = concat (map Codec.Encode ms) ->
  exists h' codec' evs,
    AppTunnel.handleTunerProxyConnection_reads h Codec.NewMessageCodec conn
      chunks = Some (h', codec', evs)
    /\ Trace2.tasks evs
       = map (fun m =>
                QueryTask (skipn 6 m) (firstn 4 m)
                  (Uint16 (firstn 2 (skipn 4 m))))
           (filter (fun m => (6 <=? length m)%nat) ms)
    /\ Trace.tunnel_writes evs = []
    /\ Frames.view codec' = (2, 0, []).
Proof.
  intros Hms Hcat.
  destruct (app_reads_sim conn chunks h Codec.NewMessageCodec Frames.AtStart)
    as (h' & codec' & evs & E & Hp & _ & Ht); [cbn; auto|exact I|].
  rewrite Hcat, frames_run_stream in Hp, Ht by exact Hms.
  cbn [fst snd] in Hp, Ht.
  exists h', codec', evs. split; [exact E|]. split; [|split].
  - rewrite Ht. clear. induction ms as [|m ms IH]; [reflexivity|].
    unfold tasks_of in *. cbn [flat_map filter].
    destruct (Nat.ltb_spec (length m) 6), (Nat.leb_spec 6 (length m));
      try lia; cbn [app map]; rewrite IH; reflexivity.
  - apply (app_reads_quiet _ _ _ _ _ _ _ E).
  - unfold Frames.view. destruct Hp as (-> & -> & ->). reflexivity.
Qed.

(** A message of three bytes between two Envelopes. *)
Lemma short_messages_do_not_disturb_example :
  exists h' codec' evs,
    AppTunnel.handleTunerProxyConnection_reads 1%nat Codec.NewMessageCodec
      2%nat
      (map (fun x => mkSlice 0%nat [x])
         (concat
            (map Codec.Encode
               [Envelope.pack Spec.origin_address Spec.origin_port Spec.QUERY;
                [x01; x02; x03];
                Envelope.pack Spec.origin_address Spec.origin_port
                  Spec.ANSWER])))
    = Some (h', codec', evs)
    /\ Trace2.tasks evs
       = [QueryTask Spec.QUERY Spec.origin_address Spec.origin_port;
          QueryTask Spec.ANSWER Spec.origin_address Spec.origin_port]
    /\ Trace.tunnel_writes evs = []
    /\ Frames.view codec' = (2, 0, []).
Proof.
  apply (short_messages_do_not_disturb
           [Envelope.pack Spec.origin_address Spec.origin_port Spec.QUERY;
            [x01; x02; x03];
            Envelope.pack Spec.origin_address Spec.origin_port Spec.ANSWER]
           (map (fun x => mkSlice 0%nat [x])
              (concat
                 (map Codec.Encode
                    [Envelope.pack Spec.origin_address Spec.origin_port
                       Spec.QUERY;
                     [x01; x02; x03];
                     Envelope.pack Spec.origin_address Spec.origin_port
                       Spec.ANSWER])))
           1%nat 2%nat).
  - repeat constructor; cbn; lia.
  - vm_compute. reflexivity.
Defined.

(** *** The App-Side Relay: which connection gets the replies *)




